(** * Terminal optimiser: Pareto extraction, solution registry, variation
      operators and the simulation boundary

    A shallow embedding of the Python sources
      - [pareto_analyzer.py]            (class [ParetoAnalyzer]),
      - [python/genetic_optimizer.py]   (class [GeneticOptimizer]),
      - [java_interface.py]             (class [JavaModelInterface]),
      - [python/utils/solution_analyzer.py] (class [SolutionAnalyzer]),
    together with the properties stated about them.

    Conventions.
      - Python integers are [Z].  KPI values are the numbers a JSON document
        can carry into Python: a finite number, taken as the rational it
        denotes, or one of the two infinities; [nan] is outside the model.
      - A parameter dictionary is a [gmap string Z], whose equality is
        Python's equality of dictionaries; the hash-keyed dictionary
        [solution_ids] is a [gmap Z string]; DataFrame rows are
        [gmap string num]; the tables [parameter_bounds] and [objectives],
        which are iterated in insertion order, are association lists.
      - Code that can raise returns a [result]; code that draws random numbers
        returns a finite distribution [rand] with rational weights. *)

From Stdlib Require Import ZArith Lia List Bool.
From Stdlib Require Import Strings.String Strings.Ascii.
From Stdlib Require Import DecimalString DecimalN DecimalPos.
From Stdlib Require Import QArith Qcanon.
From stdpp Require Import base decidable option numbers list strings sorting gmap fin_maps.

Local Open Scope Z_scope.
Local Open Scope string_scope.

(** ** Numbers carried by KPI columns *)

(** A finite value is a rational (every finite Python float and every
    integer is one); the two infinities are explicit. *)
Inductive num : Type :=
| NegInf
| Fin (q : Qc)
| PosInf.

#[global] Instance num_eq_dec : EqDecision num.
Proof. solve_decision. Defined.

(** An integer literal as a KPI value. *)
Definition int (z : Z) : num := Fin (Qc_of_Z z).

(** [a < b] on KPI values. *)
Definition num_ltb (a b : num) : bool :=
  match a, b with
  | NegInf, NegInf => false
  | NegInf, _ => true
  | Fin _, NegInf => false
  | Fin x, Fin y => bool_decide (x < y)%Qc
  | Fin _, PosInf => true
  | PosInf, _ => false
  end.

(** [a > b] is Python's reflected comparison. *)
Definition num_gtb (a b : num) : bool := num_ltb b a.

(** ** Exceptions *)

Inductive exn : Type :=
| KeyError (k : string)
| AttributeError
| IndexError
| Timeout
| ConnectionError
| ValueError
| OtherError.

Inductive result (A : Type) : Type :=
| Ok (a : A)
| Raise (e : exn).
Arguments Ok {A} a.
Arguments Raise {A} e.

#[global] Instance result_ret : MRet result := fun _ a => Ok a.

#[global] Instance result_bind : MBind result := fun _ _ k m =>
  match m with
  | Ok a => k a
  | Raise e => Raise e
  end.

(** [try: body except Exception: handler] *)
Definition try_except {A} (body : result A) (handler : exn -> result A) : result A :=
  match body with
  | Ok a => Ok a
  | Raise e => handler e
  end.

(** ** Values crossing the simulation boundary *)

(** What a call of [run_simulation] hands back: [None], a decoded JSON
    object of KPI values, or a decoded JSON value of another shape (a list,
    a number, a string), which has no [get] method. *)
Inductive sim_value : Type :=
| PyNone
| PyResults (results : gmap string num)
| PyOther.

(** ** [pareto_analyzer.py] *)

Module Pareto.

(** One row of the DataFrame: column label to value. *)
Abbreviation row := (gmap string num).

(** [df.iloc[j][obj]]: a missing label raises [KeyError]. *)
Definition cell (r : row) (obj : string) : result num :=
  match r !! obj with
  | Some v => Ok v
  | None => Raise (KeyError obj)
  end.

(** [obj in ["vesselsHandledQtt", "profit"]] *)
Definition is_maximize (obj : string) : bool :=
  bool_decide (obj = "vesselsHandledQtt") || bool_decide (obj = "profit").

(** The inner [for obj in objectives] loop for the pair (j, i): the flag
    [dominates] starts [True] and is cleared, with a [break], by the first
    objective on which row j is strictly worse than row i. *)
Fixpoint dominates (objectives : list string) (rj ri : row) : result bool :=
  match objectives with
  | [] => Ok true
  | obj :: rest =>
      vj ← cell rj obj;
      vi ← cell ri obj;
      if is_maximize obj
      then (if num_ltb vj vi then Ok false else dominates rest rj ri)
      else (if num_gtb vj vi then Ok false else dominates rest rj ri)
  end.

(** The [for j in range(len(df))] loop for a fixed [i]; the result is the
    final value of [pareto_mask[i]]. *)
Fixpoint scan (objectives : list string) (i : nat) (ri : row)
         (js : list (nat * row)) : result bool :=
  match js with
  | [] => Ok true
  | (j, rj) :: js' =>
      if Nat.eqb i j then scan objectives i ri js'
      else
        d ← dominates objectives rj ri;
        if (d : bool) then Ok false else scan objectives i ri js'
  end.

Definition enumerate {A} (l : list A) : list (nat * A) :=
  imap (fun i a => (i, a)) l.

Definition pareto_mask (objectives : list string) (df : list row)
  : result (list bool) :=
  mapM (fun '(i, ri) => scan objectives i ri (enumerate df)) (enumerate df).

(** [df[pareto_mask]] *)
Fixpoint select {A} (mask : list bool) (df : list A) : list A :=
  match mask, df with
  | true :: m, r :: d => r :: select m d
  | false :: m, _ :: d => select m d
  | _, _ => []
  end.

Definition default_objectives : list string := ["vesselsHandledQtt"; "profit"].

Definition identify_pareto_frontier (df : list row)
           (objectives : option (list string)) : result (list row) :=
  let objectives := default default_objectives objectives in
  mask ← pareto_mask objectives df;
  Ok (select mask df).

(** [self.kpi_names] *)
Definition kpi_names : list string :=
  ["vesselsHandledQtt"; "primeCost"; "handlingTime"; "profit"; "timeAtTerminal"].

End Pareto.

(** ** [python/genetic_optimizer.py]: identity tracking and evaluation *)

(** Python's builtin [hash].  The hash of a string is seeded per process and
    the combiner for tuples is an implementation detail, so both are
    parameters of the model; a tuple is hashed from the hashes of its
    elements. *)
Class PyRuntime := {
  hash_str : string -> Z;
  hash_tuple : list Z -> Z
}.

Definition hash_modulus : Z := 2 ^ 61 - 1.

(** The hash of an [int] (64-bit builds): the magnitude is reduced modulo
    the prime [2^61 - 1], the sign is kept, and [-1], which is reserved as
    an error code, is replaced by [-2]. *)
Definition hash_int (n : Z) : Z :=
  let h := (Z.sgn n * (Z.abs n mod hash_modulus))%Z in
  if (h =? -1)%Z then (-2)%Z else h.

(** [hash(items)] for a tuple of [(str, int)] pairs. *)
Definition py_hash `{PyRuntime} (items : list (string * Z)) : Z :=
  hash_tuple (List.map (fun kv => hash_tuple [hash_str kv.1; hash_int kv.2]) items).

Module GeneticOptimizer.

(** A parameter dictionary; equality of [gmap]s is Python's [dict] equality. *)
Abbreviation params := (gmap string Z).

(** Python's order on [(str, int)] tuples. *)
Definition item_le (a b : string * Z) : Prop :=
  String.ltb a.1 b.1 = true \/ (a.1 = b.1 /\ (a.2 <= b.2)%Z).

#[global] Instance item_le_dec : RelDecision item_le.
Proof. intros a b. unfold item_le. apply _. Defined.

(** [sorted(parameters.items())] *)
Definition sorted_items (parameters : params) : list (string * Z) :=
  merge_sort item_le (map_to_list parameters).

Fixpoint zeros (k : nat) : string :=
  match k with
  | O => ""
  | S k' => String "0"%char (zeros k')
  end.

Definition digits (n : N) : string := NilZero.string_of_uint (N.to_uint n).

(** The format specification [:06d]: sign-aware zero padding to width 6. *)
Definition format_06d (n : Z) : string :=
  let ds := digits (Z.abs_N n) in
  if (n <? 0)%Z
  then "-" ++ zeros (5 - String.length ds) ++ ds
  else zeros (6 - String.length ds) ++ ds.

(** [f"SOL_{n:06d}"] *)
Definition solution_id_of (n : Z) : string := "SOL_" ++ format_06d n.

Record solution_record := {
  rec_id : string;
  rec_parameters : params;
  rec_kpis : list num;
  rec_timestamp : string;
  rec_generation : option Z
}.

(** The attributes of a [GeneticOptimizer] instance set by [__init__]. *)
Record optimizer := {
  population_size : Z;
  generations : Z;
  mutation_rate : Qc;
  crossover_rate : Qc;
  solution_counter : Z;
  solution_ids : gmap Z string;
  solution_history : list solution_record;
  parameter_bounds : list (string * (Z * Z));
  objectives : list (string * string)
}.

Definition default_parameter_bounds : list (string * (Z * Z)) :=
  [ ("varOfWork", (3, 3));
    ("capacityOfMainConveyor", (800, 1200));
    ("quantityOfVagonsToSilageAtOnce", (8, 10));
    ("quantityOfVehicleDischargeStations", (2, 4));
    ("numberOfVehicleSilages", (2, 4));
    ("capacityOfVehicleSilages", (800, 1000));
    ("quantityOfSilages", (18, 20));
    ("yearsModelWorking", (1, 1)) ].

Definition default_objectives : list (string * string) :=
  [ ("vesselsHandledQtt", "maximize");
    ("primeCost", "minimize");
    ("handlingTime", "minimize");
    ("profit", "maximize");
    ("timeAtTerminal", "minimize") ].

(** [GeneticOptimizer.__init__] *)
Definition init (population_size generations : Z)
           (mutation_rate crossover_rate : Qc) : optimizer :=
  {| population_size := population_size;
     generations := generations;
     mutation_rate := mutation_rate;
     crossover_rate := crossover_rate;
     solution_counter := 0;
     solution_ids := ∅;
     solution_history := [];
     parameter_bounds := default_parameter_bounds;
     objectives := default_objectives |}.

(** The three tracking attributes are the only ones written after
    [__init__]. *)
Definition set_tracking (self : optimizer) (counter : Z)
           (ids : gmap Z string) (history : list solution_record) : optimizer :=
  {| population_size := population_size self;
     generations := generations self;
     mutation_rate := mutation_rate self;
     crossover_rate := crossover_rate self;
     solution_counter := counter;
     solution_ids := ids;
     solution_history := history;
     parameter_bounds := parameter_bounds self;
     objectives := objectives self |}.

(** [individual[i]] for a non-negative literal index. *)
Definition item (individual : list Z) (i : nat) : result Z :=
  match individual !! i with
  | Some v => Ok v
  | None => Raise IndexError
  end.

Definition _individual_to_parameters (individual : list Z) : result params :=
  g0 ← item individual 0;
  g1 ← item individual 1;
  g2 ← item individual 2;
  g3 ← item individual 3;
  g4 ← item individual 4;
  g5 ← item individual 5;
  g6 ← item individual 6;
  g7 ← item individual 7;
  Ok (list_to_map
        [ ("varOfWork", g0);
          ("capacityOfMainConveyor", g1);
          ("quantityOfVagonsToSilageAtOnce", g2);
          ("quantityOfVehicleDischargeStations", g3);
          ("numberOfVehicleSilages", g4);
          ("capacityOfVehicleSilages", g5);
          ("quantityOfSilages", g6);
          ("yearsModelWorking", g7) ]).

(** [hash(tuple(sorted(parameters.items())))] *)
Definition param_hash `{PyRuntime} (parameters : params) : Z :=
  py_hash (sorted_items parameters).

(** [_get_or_create_solution_id]; [now] is the value of
    [datetime.now().isoformat()] at the call. *)
Definition _get_or_create_solution_id `{PyRuntime} (self : optimizer)
           (parameters : params) (kpis : list num) (now : string)
  : optimizer * string :=
  let h := param_hash parameters in
  match solution_ids self !! h with
  | None =>
      let counter := (solution_counter self + 1)%Z in
      let solution_id := solution_id_of counter in
      let solution_record :=
        {| rec_id := solution_id;
           rec_parameters := parameters;
           rec_kpis := kpis;
           rec_timestamp := now;
           rec_generation := None |} in
      (set_tracking self counter (<[h := solution_id]> (solution_ids self))
                    (solution_history self ++ [solution_record]),
       solution_id)
  | Some solution_id => (self, solution_id)
  end.

(** Successive calls of [_get_or_create_solution_id], one per entry
    [(parameters, kpis, now)]; the identifiers returned, in call order. *)
Fixpoint identify_all `{PyRuntime} (self : optimizer)
         (calls : list (params * list num * string)) : optimizer * list string :=
  match calls with
  | [] => (self, [])
  | c :: rest =>
      let r := _get_or_create_solution_id self c.1.1 c.1.2 c.2 in
      let rs := identify_all r.1 rest in
      (rs.1, r.2 :: rs.2)
  end.

(** The tuple returned for a failed simulation. *)
Definition sentinel : list num := [NegInf; PosInf; PosInf; NegInf; PosInf].

(** [results.get(key, default)]; only a dictionary has [get]. *)
Definition results_get (results : sim_value) (key : string) (dflt : num)
  : result num :=
  match results with
  | PyResults d => Ok (default dflt (d !! key))
  | _ => Raise AttributeError
  end.

(** The body of the [try] block of [_evaluate_individual].  State written
    before an exception is raised stays written. *)
Definition evaluate_body `{PyRuntime} (self : optimizer) (parameters : params)
           (call : result sim_value) (now : string)
  : optimizer * result (list num) :=
  match call with
  | Raise e => (self, Raise e)
  | Ok PyNone => (self, Ok sentinel)
  | Ok results =>
      match
        (k0 ← results_get results "vesselsHandledQtt" (int 0);
         k1 ← results_get results "primeCost" PosInf;
         k2 ← results_get results "handlingTime" PosInf;
         k3 ← results_get results "profit" NegInf;
         k4 ← results_get results "timeAtTerminal" PosInf;
         Ok [k0; k1; k2; k3; k4])
      with
      | Raise e => (self, Raise e)
      | Ok kpis =>
          let '(self', _) := _get_or_create_solution_id self parameters kpis now in
          (self', Ok kpis)
      end
  end.

(** [_evaluate_individual]; [call] is the outcome of the oracle call made
    with the individual's parameters. *)
Definition _evaluate_individual `{PyRuntime} (self : optimizer)
           (individual : list Z) (call : params -> result sim_value)
           (now : string) : optimizer * result (list num) :=
  match _individual_to_parameters individual with
  | Raise e => (self, Raise e)
  | Ok parameters =>
      match evaluate_body self parameters (call parameters) now with
      | (self', Raise _) => (self', Ok sentinel)
      | r => r
      end
  end.

(** [k] zero digits in front of a decimal numeral. *)
Fixpoint lead_zeros (k : nat) (d : Decimal.uint) : Decimal.uint :=
  match k with
  | O => d
  | S k' => Decimal.D0 (lead_zeros k' d)
  end.

(** The bookkeeping invariant of the three tracking attributes. *)
Definition tracking_inv (self : optimizer) : Prop :=
  solution_counter self = Z.of_nat (size (solution_ids self))
  /\ size (solution_ids self) = length (solution_history self).

(** The oracle call failed: it raised or returned [None]. *)
Definition oracle_failed (r : result sim_value) : bool :=
  match r with
  | Raise _ | Ok PyNone => true
  | Ok _ => false
  end.

End GeneticOptimizer.

(** ** [java_interface.py] *)

Module JavaModelInterface.

(** The object returned by [requests.post]; [json] is the outcome of
    calling [response.json()]. *)
Record response := {
  status_code : Z;
  text : string;
  json : result sim_value
}.

(** [requests.post(url, json=iteration_data, timeout=self.timeout)] as a
    function of the payload: it raises or returns a response. *)
Abbreviation transport := (gmap string Z -> result response).

(** [parameters.get(key, dflt)] *)
Definition get (parameters : gmap string Z) (key : string) (dflt : Z) : Z :=
  default dflt (parameters !! key).

Definition iteration_data (parameters : gmap string Z) : gmap string Z :=
  list_to_map
    [ ("varOfWork", get parameters "varOfWork" 3);
      ("capacityOfMainConveyor", get parameters "capacityOfMainConveyor" 800);
      ("quantityOfVagonsToSilageAtOnce",
         get parameters "quantityOfVagonsToSilageAtOnce" 8);
      ("quantityOfVehicleDischargeStations",
         get parameters "quantityOfVehicleDischargeStations" 2);
      ("numberOfVehicleSilages", get parameters "numberOfVehicleSilages" 2);
      ("capacityOfVehicleSilages", get parameters "capacityOfVehicleSilages" 800);
      ("quantityOfSilages", get parameters "quantityOfSilages" 17);
      ("yearsModelWorking", get parameters "yearsModelWorking" 1) ].

Definition run_simulation (post : transport) (parameters : gmap string Z)
  : result sim_value :=
  try_except
    (let iteration_data := iteration_data parameters in
     response ← post iteration_data;
     if (status_code response =? 200)%Z
     then json response
     else Ok PyNone)
    (fun e =>
       match e with
       | Timeout => Ok PyNone
       | _ => Ok PyNone
       end).

End JavaModelInterface.

(** ** Random draws

    A computation that draws from Python's [random] module is a finite list
    of weighted outcomes; an outcome is a value or a raised exception.
    [random.random()] is taken uniform on the unit interval and
    [random.randint] uniform on its inclusive range. *)

Module Rand.

Definition rand (A : Type) : Type := list (result A * Qc).

Definition scale {A} (p : Qc) (o : result A * Qc) : result A * Qc :=
  (o.1, (p * o.2)%Qc).

Definition ret {A} (a : A) : rand A := [(Ok a, 1%Qc)].

Definition raise {A} (e : exn) : rand A := [(Raise e, 1%Qc)].

Definition bind {A B} (d : rand A) (k : A -> rand B) : rand B :=
  flat_map (fun o =>
              match o.1 with
              | Ok a => map (scale o.2) (k a)
              | Raise e => [(Raise e, o.2)]
              end) d.

(** Expected value of [f] over the outcomes. *)
Definition expect {A} (f : result A -> Qc) (d : rand A) : Qc :=
  foldr (fun o acc => (f o.1 * o.2 + acc)%Qc) 0%Qc d.

Definition indicator {A} (P : result A -> bool) (r : result A) : Qc :=
  if P r then 1%Qc else 0%Qc.

(** Probability of the event [P]. *)
Definition prob {A} (P : result A -> bool) (d : rand A) : Qc :=
  expect (indicator P) d.

(** The outcomes listed by a computation (whatever their weight). *)
Definition outcomes {A} (d : rand A) : list (result A) := d.*1.

(** The chance that a number uniform on [0, 1) is below [p]. *)
Definition below (p : Qc) : Qc :=
  if decide (p < 0)%Qc then 0%Qc
  else if decide (1 < p)%Qc then 1%Qc
  else p.

(** [random.random() < p] *)
Definition random_lt (p : Qc) : rand bool :=
  [(Ok true, below p); (Ok false, (1 - below p)%Qc)].

(** [random.randint(lo, hi)]; an empty range raises [ValueError]. *)
Definition randint (lo hi : Z) : rand Z :=
  if (hi <? lo)%Z then raise ValueError
  else
    let n := (hi - lo + 1)%Z in
    map (fun v => (Ok v, (/ Qc_of_Z n)%Qc)) (seqZ lo n).

(** [random.choice(seq)]; an empty sequence raises [IndexError]. *)
Definition choice {A} (l : list A) : rand A :=
  match l with
  | [] => raise IndexError
  | _ => map (fun a => (Ok a, (/ Qc_of_Z (Z.of_nat (length l)))%Qc)) l
  end.

(** Every listed outcome satisfies [Q]. *)
Definition always {A} (Q : result A -> Prop) (d : rand A) : Prop :=
  forall r, r ∈ outcomes d -> Q r.

(** The outcome is a value, and the value satisfies [P]. *)
Definition returns {A} (P : A -> Prop) (r : result A) : Prop :=
  match r with
  | Ok a => P a
  | Raise _ => False
  end.

(** The value a continuation contributes for one outcome of the first
    computation. *)
Definition after {A B} (f : result B -> Qc) (k : A -> rand B) (r : result A) : Qc :=
  match r with
  | Ok a => expect f (k a)
  | Raise e => f (Raise e)
  end.

(** Equal weights on a list of values. *)
Definition equally {A} (w : Qc) (l : list A) : rand A :=
  List.map (fun v => (Ok v, w)) l.

(** The total weight of the outcomes. *)
Definition mass {A} (d : rand A) : Qc := expect (fun _ => 1%Qc) d.

End Rand.

#[global] Instance rand_ret : MRet Rand.rand := @Rand.ret.
#[global] Instance rand_bind : MBind Rand.rand := fun _ _ k d => Rand.bind d k.
#[global] Instance rand_fmap : FMap Rand.rand := fun _ _ f d =>
  Rand.bind d (fun a => Rand.ret (f a)).

(** ** [python/genetic_optimizer.py]: the variation operators *)

Module Variation.
Import Rand GeneticOptimizer.

(** The eight attribute generators registered by
    [_setup_genetic_algorithm], run once each in registration order by
    [tools.initCycle(creator.Individual, (...), n=1)]: every gene is one
    [random.randint(lo, hi)] on its own bound. *)
Fixpoint sample_genes (bounds : list (string * (Z * Z))) : rand (list Z) :=
  match bounds with
  | [] => mret []
  | (_, (lo, hi)) :: rest =>
      v ← randint lo hi;
      genes ← sample_genes rest;
      mret (v :: genes)
  end.

(** [self.toolbox.individual()] *)
Definition toolbox_individual (self : optimizer) : rand (list Z) :=
  sample_genes (parameter_bounds self).

(** [individual[i] = v] *)
Definition setitem (individual : list Z) (i : nat) (v : Z) : rand (list Z) :=
  if decide (i < length individual)%nat
  then mret (<[i := v]> individual)
  else raise IndexError.

(** The loop of [_mutate_individual] from position [i] on.  Next to the
    individual it returns, as a ghost value, one flag per visited gene
    telling whether that gene was resampled. *)
Fixpoint mutate_trace (rate : Qc) (i : nat) (bounds : list (string * (Z * Z)))
         (individual : list Z) : rand (list Z * list bool) :=
  match bounds with
  | [] => mret (individual, [])
  | (_, (lo, hi)) :: rest =>
      hit ← random_lt rate;
      if (hit : bool)
      then
        v ← randint lo hi;
        individual' ← setitem individual i v;
        r ← mutate_trace rate (S i) rest individual';
        mret (r.1, true :: r.2)
      else
        r ← mutate_trace rate (S i) rest individual;
        mret (r.1, false :: r.2)
  end.

(** [_mutate_individual]: the one-element tuple holds the individual. *)
Definition _mutate_individual (self : optimizer) (individual : list Z)
  : rand (list Z) :=
  fst <$> mutate_trace (mutation_rate self) 0 (parameter_bounds self) individual.

(** [ind[c1:c2]] *)
Definition slice {A} (l : list A) (c1 c2 : nat) : list A :=
  take (c2 - c1) (drop c1 l).

(** [ind1[c1:c2] = seg] *)
Definition set_slice {A} (l : list A) (c1 c2 : nat) (seg : list A) : list A :=
  take c1 l ++ seg ++ drop (max c1 c2) l.

(** [tools.cxTwoPoint], the operator registered as [mate]: two cut points
    are drawn, ordered, and the segments between them are exchanged. *)
Definition cxTwoPoint (ind1 ind2 : list Z) : rand (list Z * list Z) :=
  let size := Z.of_nat (min (length ind1) (length ind2)) in
  cxpoint1 ← randint 1 size;
  cxpoint2 ← randint 1 (size - 1);
  let '(cxpoint1, cxpoint2) :=
    if (cxpoint2 >=? cxpoint1)%Z
    then (cxpoint1, (cxpoint2 + 1)%Z)
    else (cxpoint2, cxpoint1) in
  let c1 := Z.to_nat cxpoint1 in
  let c2 := Z.to_nat cxpoint2 in
  mret (set_slice ind1 c1 c2 (slice ind2 c1 c2),
        set_slice ind2 c1 c2 (slice ind1 c1 c2)).

(** [random.sample(population, 2)]: an ordered pair of members at two
    different positions; fewer than two members raise [ValueError]. *)
Definition sample2 {A} (population : list A) : rand (A * A) :=
  if decide (length population < 2)%nat then raise ValueError
  else
    i ← choice (seq 0 (length population));
    j ← choice (filter (fun j => j ≠ i) (seq 0 (length population)));
    match population !! i, population !! j with
    | Some a, Some b => mret (a, b)
    | _, _ => raise IndexError
    end.

Inductive variation : Type := Crossover | Mutation | Reproduction.

(** The three-way branch of [algorithms.varOr] on
    [op_choice = random.random()]: crossover below [cxpb], mutation below
    [cxpb + mutpb], reproduction otherwise. *)
Definition op_choice (cxpb mutpb : Qc) : rand variation :=
  [ (Ok Crossover, below cxpb);
    (Ok Mutation, (below (cxpb + mutpb) - below cxpb)%Qc);
    (Ok Reproduction, (1 - below (cxpb + mutpb))%Qc) ].

(** One offspring of [algorithms.varOr(population, toolbox, lambda_, cxpb,
    mutpb)], the variation step of [algorithms.eaMuPlusLambda] as [optimize]
    calls it ([cxpb = self.crossover_rate], [mutpb = self.mutation_rate],
    [mate = cxTwoPoint], [mutate = _mutate_individual]).  The ghost flags
    say which genes of the offspring were resampled by mutation. *)
Definition varOr_offspring (self : optimizer) (population : list (list Z))
  : rand (list Z * list bool) :=
  let unflagged g := (g, replicate (length (parameter_bounds self)) false) in
  op ← op_choice (crossover_rate self) (mutation_rate self);
  match op with
  | Crossover =>
      parents ← sample2 population;
      children ← cxTwoPoint parents.1 parents.2;
      mret (unflagged children.1)
  | Mutation =>
      ind ← choice population;
      mutate_trace (mutation_rate self) 0 (parameter_bounds self) ind
  | Reproduction =>
      ind ← choice population;
      mret (unflagged ind)
  end.

(** Every bound is a non-empty range. *)
Definition well_formed (bounds : list (string * (Z * Z))) : Prop :=
  Forall (fun b => (b.2.1 <= b.2.2)%Z) bounds.

(** Every gene lies within the bound declared at its position. *)
Definition in_bounds (bounds : list (string * (Z * Z))) (g : list Z) : Prop :=
  Forall2 (fun b v => (b.2.1 <= v <= b.2.2)%Z) bounds g.

(** The chance of one particular genome when every gene is drawn uniformly
    from its bound, independently of the others. *)
Definition one_in_volume (bounds : list (string * (Z * Z))) : Qc :=
  foldr (fun b acc => (/ Qc_of_Z (b.2.2 - b.2.1 + 1) * acc)%Qc) 1%Qc bounds.

(** The chance of one particular pattern of resampling flags when every
    gene is hit independently with the chance of [random.random() < rate]. *)
Definition pattern_chance (rate : Qc) (flags : list bool) : Qc :=
  foldr (fun (hit : bool) acc =>
           ((if hit then below rate else 1 - below rate) * acc)%Qc) 1%Qc flags.

(** What a traced mutation from position [i] on may return for individual
    [ind]: the lengths are kept, genes outside the visited positions are
    untouched, and a visited gene is either unflagged and untouched or
    flagged and within its bound. *)
Definition mutated_from (bounds : list (string * (Z * Z))) (i : nat)
           (ind : list Z) (o : list Z * list bool) : Prop :=
  length o.1 = length ind
  /\ length o.2 = length bounds
  /\ (forall k, (k < i \/ i + length bounds <= k)%nat -> o.1 !! k = ind !! k)
  /\ (forall k b, bounds !! k = Some b ->
        (o.2 !! k = Some false /\ o.1 !! (i + k)%nat = ind !! (i + k)%nat)
        \/ (o.2 !! k = Some true
            /\ exists v, o.1 !! (i + k)%nat = Some v /\ (b.2.1 <= v <= b.2.2)%Z)).

(** The outcome is an exception or a value that satisfies [P]. *)
Definition yields {A} (P : A -> Prop) (r : result A) : Prop :=
  match r with
  | Ok a => P a
  | Raise _ => True
  end.

(** Events on the outcome of a traced mutation. *)
Definition resampled (k : nat) (r : result (list Z * list bool)) : bool :=
  match r with
  | Ok o => bool_decide (o.2 !! k = Some true)
  | Raise _ => false
  end.

(** Gene [i + k], the one flag [k] of a trace started at [i] speaks of, was
    resampled to [v]. *)
Definition hit_at (i k : nat) (v : Z) (r : result (list Z * list bool)) : bool :=
  match r with
  | Ok o => bool_decide (o.2 !! k = Some true)
            && bool_decide (o.1 !! (i + k)%nat = Some v)
  | Raise _ => false
  end.

(** The outcome of a trace with the flag of one more gene in front. *)
Definition push (hit : bool) (r : result (list Z * list bool))
  : result (list Z * list bool) :=
  match r with
  | Ok o => Ok (o.1, hit :: o.2)
  | Raise e => Raise e
  end.

Definition has_flags (flags : list bool) (r : result (list Z * list bool)) : bool :=
  match r with
  | Ok o => bool_decide (o.2 = flags)
  | Raise _ => false
  end.

Definition is_genome (g : list Z) (r : result (list Z)) : bool :=
  match r with
  | Ok g' => bool_decide (g' = g)
  | Raise _ => false
  end.

End Variation.

(** ** The engine around the optimiser: fitness, archive, evaluation step *)

Module Engine.
Import GeneticOptimizer.

(** A [creator.Individual]: a list of genes with a fitness attribute,
    [None] while [fitness.valid] is false. *)
Record individual := {
  genes : list Z;
  fitness : option (list num)
}.

#[global] Instance individual_eq_dec : EqDecision individual.
Proof. solve_decision. Defined.

Inductive direction : Type := Maximize | Minimize.

(** [weights=(1.0, -1.0, -1.0, 1.0, -1.0)] of [FitnessMulti], the
    directions of [self.objectives] in order. *)
Definition directions : list direction :=
  [Maximize; Minimize; Minimize; Maximize; Minimize].

(** [a] is strictly better than [b] in direction [d]. *)
Definition better (d : direction) (a b : num) : bool :=
  match d with
  | Maximize => num_gtb a b
  | Minimize => num_ltb a b
  end.

Definition no_worse (d : direction) (a b : num) : bool := negb (better d b a).

(** Modelled from the spec: the dominance rule of section 4.5 (the
    selector and the archive live in the DEAP library, outside the
    repository).  A dominates B iff A is at least as good as B on every
    objective and strictly better on at least one. *)
Definition spec_dominates (dirs : list direction) (a b : list num) : bool :=
  let cmp := zip dirs (zip a b) in
  forallb (fun c => no_worse c.1 c.2.1 c.2.2) cmp
  && existsb (fun c => better c.1 c.2.1 c.2.2) cmp.

Definition values (ind : individual) : list num := default [] (fitness ind).

Definition dominates_ind (a b : individual) : bool :=
  spec_dominates directions (values a) (values b).

(** Modelled from the spec: the archive update of sections 3 and 4.6 (the
    hall of fame [tools.ParetoFront] is DEAP code).  A newly evaluated
    individual is added when no archive member dominates it; members it
    dominates are dropped; an entry whose genome is already present is
    rejected. *)
Definition archive_insert (ind : individual) (archive : list individual)
  : list individual :=
  if existsb (fun h => dominates_ind h ind) archive then archive
  else
    let kept := filter (fun h => dominates_ind ind h = false) archive in
    if existsb (fun h => bool_decide (genes h = genes ind)) kept
    then kept
    else kept ++ [ind].

Definition archive_update (archive offspring : list individual)
  : list individual :=
  foldl (fun a ind => archive_insert ind a) archive offspring.

(** One entry of a batch to evaluate: the genome, how the oracle answers
    the call made for it, and the clock reading at that call. *)
Record job := {
  job_genes : list Z;
  job_call : params -> result sim_value;
  job_now : string
}.

(** Modelled from the spec: the Evaluate step of section 4.6
    ([algorithms.eaMuPlusLambda] is DEAP code).  Every individual of the
    batch is scored by one call of [toolbox.evaluate], in order, and keeps
    its slot with the returned tuple as fitness. *)
Fixpoint evaluate_population `{PyRuntime} (self : optimizer) (jobs : list job)
  : optimizer * result (list individual) :=
  match jobs with
  | [] => (self, Ok [])
  | j :: rest =>
      match _evaluate_individual self (job_genes j) (job_call j) (job_now j) with
      | (self', Raise e) => (self', Raise e)
      | (self', Ok fit) =>
          match evaluate_population self' rest with
          | (self'', Raise e) => (self'', Raise e)
          | (self'', Ok inds) =>
              (self'', Ok ({| genes := job_genes j; fitness := Some fit |} :: inds))
          end
      end
  end.

(** An evaluated individual: its fitness holds the five objective values. *)
Definition scored (x : individual) : Prop := length (values x) = 5%nat.

(** An individual carrying the sentinel of a failed evaluation. *)
Definition failed (x : individual) : Prop := values x = sentinel.

(** An evaluated individual with some objective value off the sentinel. *)
Definition valid (x : individual) : Prop := values x <> sentinel.

(** The archive as [optimize] builds it: empty at first, then updated with
    each batch of evaluated individuals in turn. *)
Definition archive_after (batches : list (list individual)) : list individual :=
  foldl archive_update [] batches.

(** The two halves of the dominance rule. *)
Definition all_no_worse (dirs : list direction) (a b : list num) : bool :=
  forallb (fun c => no_worse c.1 c.2.1 c.2.2) (zip dirs (zip a b)).

Definition some_better (dirs : list direction) (a b : list num) : bool :=
  existsb (fun c => better c.1 c.2.1 c.2.2) (zip dirs (zip a b)).

(** The direction [identify_pareto_frontier] gives an objective column,
    and the values of a row on a list of objectives. *)
Definition direction_of (obj : string) : direction :=
  if Pareto.is_maximize obj then Maximize else Minimize.

Definition row_values (objectives : list string) (r : Pareto.row)
  : result (list num) :=
  mapM (Pareto.cell r) objectives.

(** Archives in which a valid member has been seen: no member is failed
    and one member exists. *)
Definition settled (archive : list individual) : Prop :=
  archive <> [] /\ Forall valid archive.

(** Archives before that: every member is failed. *)
Definition unsettled (archive : list individual) : Prop := Forall failed archive.

End Engine.

(** ** Persistence: [save_results], [_load_results], [extract_pareto_data] *)

Module Persist.
Import GeneticOptimizer Engine.

#[local] Set Warnings "-register-all".

(** Python values that reach [json.dump]. *)
Inductive pyval : Type :=
| VNone
| VInt (z : Z)
| VFloat (n : num)
| VStr (s : string)
| VList (l : list pyval)
| VTuple (l : list pyval)
| VDict (d : list (string * pyval)).

(** The JSON document model. *)
Inductive json_value : Type :=
| JNull
| JInt (z : Z)
| JFloat (n : num)
| JString (s : string)
| JArray (l : list json_value)
| JObject (o : list (string * json_value)).

(** [json.dump]: the encoder's conversion table (lists and tuples both
    become arrays). *)
Fixpoint dump (v : pyval) : json_value :=
  match v with
  | VNone => JNull
  | VInt z => JInt z
  | VFloat n => JFloat n
  | VStr s => JString s
  | VList l => JArray (List.map dump l)
  | VTuple l => JArray (List.map dump l)
  | VDict d => JObject (List.map (fun kv => (kv.1, dump kv.2)) d)
  end.

(** [json.load]: the decoder's conversion table (arrays become lists). *)
Fixpoint load (j : json_value) : pyval :=
  match j with
  | JNull => VNone
  | JInt z => VInt z
  | JFloat n => VFloat n
  | JString s => VStr s
  | JArray l => VList (List.map load l)
  | JObject o => VDict (List.map (fun kv => (kv.1, load kv.2)) o)
  end.

Definition params_value (parameters : params) : pyval :=
  VDict (List.map (fun kv => (kv.1, VInt kv.2)) (map_to_list parameters)).

(** [individual.fitness.values if individual.fitness.valid else None] *)
Definition fitness_value (ind : individual) : pyval :=
  match fitness ind with
  | Some vs => VTuple (List.map VFloat vs)
  | None => VNone
  end.

(** One pass of the two [for individual in ...] loops of [save_results]. *)
Definition entry `{PyRuntime} (self : optimizer) (ind : individual)
  : result pyval :=
  parameters ← _individual_to_parameters (genes ind);
  let solution_id := default "UNKNOWN" (solution_ids self !! param_hash parameters) in
  Ok (VDict [ ("id", VStr solution_id);
              ("parameters", params_value parameters);
              ("fitness", fitness_value ind) ]).

Definition record_value (r : solution_record) : pyval :=
  VDict [ ("id", VStr (rec_id r));
          ("parameters", params_value (rec_parameters r));
          ("kpis", VList (List.map VFloat (rec_kpis r)));
          ("timestamp", VStr (rec_timestamp r));
          ("generation", match rec_generation r with
                         | Some g => VInt g
                         | None => VNone
                         end) ].

Definition optimization_metadata (self : optimizer) : pyval :=
  VDict [ ("total_solutions_evaluated", VInt (solution_counter self));
          ("unique_solutions", VInt (Z.of_nat (size (solution_ids self))));
          ("population_size", VInt (population_size self));
          ("generations", VInt (generations self));
          ("mutation_rate", VFloat (Fin (mutation_rate self)));
          ("crossover_rate", VFloat (Fin (crossover_rate self))) ].

(** The dictionary [results] that [save_results] hands to [json.dump]. *)
Definition save_results `{PyRuntime} (self : optimizer)
           (population pareto_front : list individual) : result pyval :=
  pop ← mapM (entry self) population;
  front ← mapM (entry self) pareto_front;
  Ok (VDict
        [ ("population", VList pop);
          ("pareto_front", VList front);
          ("solution_history", VList (List.map record_value (solution_history self)));
          ("parameter_bounds",
             VDict (List.map (fun b => (b.1, VTuple [VInt b.2.1; VInt b.2.2]))
                             (parameter_bounds self)));
          ("objectives",
             VDict (List.map (fun o => (o.1, VStr o.2)) (objectives self)));
          ("optimization_metadata", optimization_metadata self) ]).

(** [ParetoAnalyzer.load_results], and [SolutionAnalyzer._load_results]
    on an analyzer whose logger is set; [file] is the document found under
    the file name, if it can be read.  (The constructor of
    [SolutionAnalyzer] calls the method before it sets the logger: see
    [SolutionAnalyzer.__init__].) *)
Definition _load_results (file : option json_value) : pyval :=
  match file with
  | Some j => load j
  | None => VDict []
  end.

(** [d[key]] on a dictionary. *)
Definition getitem (v : pyval) (key : string) : result pyval :=
  match v with
  | VDict d =>
      match List.find (fun kv => bool_decide (kv.1 = key)) d with
      | Some kv => Ok kv.2
      | None => Raise (KeyError key)
      end
  | _ => Raise OtherError
  end.

(** [seq[i]] on a list or tuple. *)
Definition index (v : pyval) (i : nat) : result pyval :=
  match v with
  | VList l | VTuple l =>
      match l !! i with
      | Some x => Ok x
      | None => Raise IndexError
      end
  | _ => Raise OtherError
  end.

(** Truth value of an object used as a condition. *)
Definition truthy (v : pyval) : bool :=
  match v with
  | VNone => false
  | VInt z => negb (z =? 0)%Z
  | VFloat n => negb (bool_decide (n = int 0))
  | VStr s => negb (bool_decide (s = ""))
  | VList l | VTuple l => negb (bool_decide (length l = 0%nat))
  | VDict d => negb (bool_decide (length d = 0%nat))
  end.

(** A number as a DataFrame cell. *)
Definition cell_value (v : pyval) : result num :=
  match v with
  | VInt z => Ok (int z)
  | VFloat n => Ok n
  | _ => Raise OtherError
  end.

(** The row [{**params, "vesselsHandledQtt": fitness[0], ...}]. *)
Definition pareto_row (solution : pyval) : result (option Pareto.row) :=
  parameters ← getitem solution "parameters";
  fit ← getitem solution "fitness";
  if truthy fit then
    cols ← match parameters with
           | VDict d => mapM (fun kv => v ← cell_value kv.2; Ok (kv.1, v)) d
           | _ => Raise OtherError
           end;
    f0 ← index fit 0 ≫= cell_value;
    f1 ← index fit 1 ≫= cell_value;
    f2 ← index fit 2 ≫= cell_value;
    f3 ← index fit 3 ≫= cell_value;
    f4 ← index fit 4 ≫= cell_value;
    Ok (Some (foldl (fun (r : Pareto.row) kv => <[kv.1 := kv.2]> r) ∅
                    (cols ++ [ ("vesselsHandledQtt", f0); ("primeCost", f1);
                               ("handlingTime", f2); ("profit", f3);
                               ("timeAtTerminal", f4) ])))
  else Ok None.

(** [ParetoAnalyzer.extract_pareto_data]; the rows of the DataFrame. *)
Definition extract_pareto_data (results : pyval) : result (list Pareto.row) :=
  front ← match getitem results "pareto_front" with
          | Ok (VList l) => Ok l
          | Ok (VTuple l) => Ok l
          | Ok _ => Raise OtherError
          | Raise (KeyError _) => Ok []
          | Raise e => Raise e
          end;
  rows ← mapM pareto_row front;
  Ok (omap id rows).

(** Reading the [{id, parameters, fitness}] triple off an entry of
    ["population"] or ["pareto_front"]; a tuple and a list of values read
    alike. *)
Definition read_params (v : pyval) : option params :=
  match v with
  | VDict d =>
      list_to_map <$>
        mapM (fun kv => match kv.2 with
                        | VInt z => Some (kv.1, z)
                        | _ => None
                        end) d
  | _ => None
  end.

Definition read_fitness (v : pyval) : option (option (list num)) :=
  match v with
  | VNone => Some None
  | VList l | VTuple l =>
      Some <$> mapM (fun x => match x with
                              | VFloat n => Some n
                              | _ => None
                              end) l
  | _ => None
  end.

Definition triple (v : pyval) : option (string * params * option (list num)) :=
  match getitem v "id", getitem v "parameters", getitem v "fitness" with
  | Ok (VStr sid), Ok ps, Ok f =>
      p ← read_params ps;
      fv ← read_fitness f;
      Some (sid, p, fv)
  | _, _, _ => None
  end.

(** [results[key]] as a list of entries. *)
Definition entries (results : pyval) (key : string) : list pyval :=
  match getitem results key with
  | Ok (VList l) | Ok (VTuple l) => l
  | _ => []
  end.

(** The triple [save_results] writes for an individual. *)
Definition written_triple `{PyRuntime} (self : optimizer) (ind : individual)
  : option (string * params * option (list num)) :=
  match _individual_to_parameters (genes ind) with
  | Ok p =>
      Some (default "UNKNOWN" (solution_ids self !! param_hash p), p, fitness ind)
  | Raise _ => None
  end.

End Persist.

(** ** One admissible runtime

    The tuple combiner is the one of CPython 3.8 and later, on 64-bit
    unsigned lanes; a sum of character codes stands in for the seeded string
    hash.  Nothing proved below depends on these choices except where a
    closed example needs some runtime to compute with. *)

Module CPython.

Definition u64 (x : Z) : Z := x mod 2 ^ 64.

Definition xxprime_1 : Z := 11400714785074694791.
Definition xxprime_2 : Z := 14029467366897019727.
Definition xxprime_5 : Z := 2870177450012600261.

Definition xxrotate (x : Z) : Z :=
  u64 (Z.lor (Z.shiftl x 31) (Z.shiftr x 33)).

Fixpoint lanes (items : list Z) (acc : Z) : Z :=
  match items with
  | [] => acc
  | lane :: rest =>
      let acc := u64 (acc + u64 lane * xxprime_2) in
      let acc := xxrotate acc in
      lanes rest (u64 (acc * xxprime_1))
  end.

Definition tuplehash (items : list Z) : Z :=
  let acc := lanes items xxprime_5 in
  let acc := u64 (acc + Z.lxor (Z.of_nat (length items))
                               (Z.lxor xxprime_5 3527539)) in
  if (acc =? 2 ^ 64 - 1)%Z then 1546275796%Z
  else if (acc <? 2 ^ 63)%Z then acc else (acc - 2 ^ 64)%Z.

Fixpoint code_sum (s : string) : Z :=
  match s with
  | EmptyString => 0
  | String c s' => (Z.of_nat (nat_of_ascii c) + 31 * code_sum s')%Z
  end.

Definition runtime : PyRuntime :=
  {| hash_str := code_sum; hash_tuple := tuplehash |}.

End CPython.

(** ** Scenarios *)

Module Scenarios.
Import Pareto GeneticOptimizer Engine Persist.

(** The tie scenario: gene [x] is fixed by its bound, gene [y] is the
    objective to minimise, and [aux] tells the four genomes apart. *)
Definition tie_row (y aux : Z) : row :=
  list_to_map [("x", int 1); ("y", int y); ("aux", int aux)].

Definition tie_df : list row :=
  [tie_row 5 0; tie_row 2 1; tie_row 2 2; tie_row 8 3].

(** Two solutions with identical objective values. *)
Definition twin_a : row :=
  list_to_map [("capacityOfMainConveyor", int 800);
               ("vesselsHandledQtt", int 10); ("profit", int 5)].
Definition twin_b : row :=
  list_to_map [("capacityOfMainConveyor", int 801);
               ("vesselsHandledQtt", int 10); ("profit", int 5)].

(** Two genomes that differ in one gene and receive the same KPI values
    from the simulation. *)
Definition genome_a : list Z := [3; 800; 8; 2; 2; 800; 18; 1].
Definition genome_b : list Z := [3; 801; 8; 2; 2; 800; 18; 1].

Definition same_kpis : gmap string num :=
  list_to_map [("vesselsHandledQtt", int 10); ("primeCost", int 5);
               ("handlingTime", int 3); ("profit", int 7);
               ("timeAtTerminal", int 2)].

Definition answers (v : sim_value) (g : list Z) : job :=
  {| job_genes := g; job_call := fun _ => Ok v; job_now := "2024-01-01T00:00:00" |}.

Definition fresh : optimizer := init 50 100 (Q2Qc (1 # 10)) (Q2Qc (7 # 10)).

Definition stamp : string := "2024-01-01T00:00:00".

(** A scored pair of individuals, as a population and as a front. *)
Definition scored_a : individual :=
  {| genes := genome_a; fitness := Some [int 10; int 5; int 3; int 7; int 2] |}.
Definition scored_b : individual :=
  {| genes := genome_b; fitness := Some [int 12; int 6; int 3; int 9; int 2] |}.

End Scenarios.

(** ** A second admissible runtime: a 32-bit build

    CPython 3.11 built for a 32-bit platform and run with
    [PYTHONHASHSEED=0]: a string is hashed by SipHash-1-3 under the zero
    key and the result is cut to the 32-bit hash type; the tuple combiner
    works on 32-bit lanes.  The genes of the search space are far below
    [2^31 - 1], where the hash of an [int] is the [int] itself on this
    build as in [hash_int]. *)

Module CPython32.

Definition u32 (x : Z) : Z := x mod 2 ^ 32.
Definition u64 (x : Z) : Z := x mod 2 ^ 64.

(** As a signed 32-bit value. *)
Definition s32 (x : Z) : Z := if (u32 x <? 2 ^ 31)%Z then u32 x else (u32 x - 2 ^ 32)%Z.

Definition rotl64 (x : Z) (b : Z) : Z :=
  u64 (Z.lor (Z.shiftl x b) (Z.shiftr x (64 - b))).

(** One SipHash round on the state [(v0, v1, v2, v3)]. *)
Definition sipround (v : Z * Z * Z * Z) : Z * Z * Z * Z :=
  let '(v0, v1, v2, v3) := v in
  let v0 := u64 (v0 + v1) in
  let v2 := u64 (v2 + v3) in
  let v1 := Z.lxor (rotl64 v1 13) v0 in
  let v3 := Z.lxor (rotl64 v3 16) v2 in
  let v0 := rotl64 v0 32 in
  let v2 := u64 (v2 + v1) in
  let v0 := u64 (v0 + v3) in
  let v1 := Z.lxor (rotl64 v1 17) v2 in
  let v3 := Z.lxor (rotl64 v3 21) v0 in
  let v2 := rotl64 v2 32 in
  (v0, v1, v2, v3).

(** One message word: [v3 ^= m], one round, [v0 ^= m]. *)
Definition absorb (m : Z) (v : Z * Z * Z * Z) : Z * Z * Z * Z :=
  let '(v0, v1, v2, v3) := v in
  let '(v0, v1, v2, v3) := sipround (v0, v1, v2, Z.lxor v3 m) in
  (Z.lxor v0 m, v1, v2, v3).

(** Bytes as a little-endian word. *)
Definition le_word (bytes : list Z) : Z :=
  foldr (fun b acc => (b + 256 * acc)%Z) 0%Z bytes.

(** The words of eight bytes, then the last word with the length in its
    top byte. *)
Fixpoint absorb_all (fuel : nat) (len : Z) (bytes : list Z) (v : Z * Z * Z * Z)
  : Z * Z * Z * Z :=
  match fuel with
  | O => v
  | S fuel' =>
      if decide (8 <= length bytes)%nat
      then absorb_all fuel' len (drop 8 bytes) (absorb (le_word (take 8 bytes)) v)
      else absorb (Z.lor (Z.shiftl (len mod 256) 56) (le_word bytes)) v
  end.

(** [siphash13(k0, k1, src, src_sz)] *)
Definition siphash13 (k0 k1 : Z) (bytes : list Z) : Z :=
  let v := (Z.lxor k0 8317987319222330741, Z.lxor k1 7237128888997146477,
            Z.lxor k0 7816392313619706465, Z.lxor k1 8387220255154660723)%Z in
  let '(v0, v1, v2, v3) :=
    absorb_all (S (length bytes)) (Z.of_nat (length bytes)) bytes v in
  let '(v0, v1, v2, v3) :=
    sipround (sipround (sipround (v0, v1, Z.lxor v2 255, v3))) in
  Z.lxor (Z.lxor v0 v1) (Z.lxor v2 v3).

Definition bytes_of (s : string) : list Z :=
  List.map (fun c => Z.of_nat (nat_of_ascii c)) (list_ascii_of_string s).

(** The hash of a [str] of ASCII characters. *)
Definition hash_string (s : string) : Z :=
  match s with
  | EmptyString => 0%Z
  | _ =>
      let x := s32 (siphash13 0 0 (bytes_of s)) in
      if (x =? -1)%Z then (-2)%Z else x
  end.

Definition xxprime_1 : Z := 2654435761.
Definition xxprime_2 : Z := 2246822519.
Definition xxprime_5 : Z := 374761393.

Definition xxrotate (x : Z) : Z :=
  u32 (Z.lor (Z.shiftl x 13) (Z.shiftr x 19)).

Fixpoint lanes (items : list Z) (acc : Z) : Z :=
  match items with
  | [] => acc
  | lane :: rest =>
      let acc := u32 (acc + u32 lane * xxprime_2) in
      let acc := xxrotate acc in
      lanes rest (u32 (acc * xxprime_1))
  end.

Definition tuplehash (items : list Z) : Z :=
  let acc := lanes items xxprime_5 in
  let acc := u32 (acc + Z.lxor (Z.of_nat (length items))
                               (Z.lxor xxprime_5 3527539)) in
  if (acc =? 2 ^ 32 - 1)%Z then 1546275796%Z else s32 acc.

Definition runtime : PyRuntime :=
  {| hash_str := hash_string; hash_tuple := tuplehash |}.

End CPython32.

(** ** What the registry tells apart *)

Module Identity.
Import GeneticOptimizer.

(** The parameter dictionaries of a sequence of calls of
    [_get_or_create_solution_id], and their keys in [solution_ids]. *)
Definition dictionaries (calls : list (params * list num * string)) : list params :=
  (fun c => c.1.1) <$> calls.

Definition keys `{PyRuntime} (calls : list (params * list num * string)) : list Z :=
  (fun c => param_hash c.1.1) <$> calls.

(** The calls that meet a new key: those whose key no earlier call had;
    [seen] holds the keys met so far. *)
Fixpoint first_calls `{PyRuntime} (seen : list Z)
         (calls : list (params * list num * string))
  : list (params * list num * string) :=
  match calls with
  | [] => []
  | c :: rest =>
      if bool_decide (param_hash c.1.1 ∈ seen)
      then first_calls seen rest
      else c :: first_calls (param_hash c.1.1 :: seen) rest
  end.

(** The record appended for the call that meets the [k]-th new key,
    counting from 0. *)
Definition record_of (k : nat) (c : params * list num * string) : solution_record :=
  {| rec_id := solution_id_of (Z.of_nat k + 1);
     rec_parameters := c.1.1;
     rec_kpis := c.1.2;
     rec_timestamp := c.2;
     rec_generation := None |}.

(** The hash tells the dictionaries of the calls apart. *)
Definition separated `{PyRuntime} (calls : list (params * list num * string)) : Prop :=
  forall c c', c ∈ calls -> c' ∈ calls ->
               param_hash c.1.1 = param_hash c'.1.1 -> c.1.1 = c'.1.1.

(** Two genomes of the search space whose dictionaries have the same key
    under the 32-bit runtime. *)
Definition merged_a : list Z := [3; 807; 8; 2; 2; 927; 20; 1].
Definition merged_b : list Z := [3; 817; 8; 4; 4; 993; 18; 1].

(** Two genomes that differ in the first gene, -1 against -2. *)
Definition low_a : list Z := [-1; 800; 8; 2; 2; 800; 18; 1].
Definition low_b : list Z := [-2; 800; 8; 2; 2; 800; 18; 1].

(** The dictionary of an eight-gene genome. *)
Definition dictionary_of (genome : list Z) : params :=
  match _individual_to_parameters genome with
  | Ok p => p
  | Raise _ => ∅
  end.

End Identity.

(** ** What the extractor compares: rows against rows *)

Module ParetoOrder.
Import Pareto.

(** Row [a] is strictly worse than row [b] on the column [obj], in the
    direction [identify_pareto_frontier] gives that column. *)
Definition worse_on (obj : string) (a b : row) : bool :=
  match a !! obj, b !! obj with
  | Some va, Some vb => if is_maximize obj then num_ltb va vb else num_gtb va vb
  | _, _ => false
  end.

(** Row [a] is at least as good as row [b] on every objective. *)
Definition nowhere_worse (objectives : list string) (a b : row) : bool :=
  forallb (fun obj => negb (worse_on obj a b)) objectives.

(** Row [a] beats row [b]: nowhere worse, and better on some objective. *)
Definition beats (objectives : list string) (a b : row) : bool :=
  nowhere_worse objectives a b && existsb (fun obj => worse_on obj b a) objectives.

(** The row has a value in every objective column. *)
Definition complete (objectives : list string) (r : row) : bool :=
  forallb (fun obj => bool_decide (is_Some (r !! obj))) objectives.

(** Every row of the frame has a value in every objective column. *)
Definition complete_frame (objectives : list string) (df : list row) : bool :=
  forallb (complete objectives) df.

(** Two rows tie: each is nowhere worse than the other. *)
Definition tie (objectives : list string) (a b : row) : bool :=
  nowhere_worse objectives a b && nowhere_worse objectives b a.

(** No two rows at different positions of the frame tie. *)
Definition tie_free (objectives : list string) (df : list row) : bool :=
  forallb (fun '(i, ri) =>
             forallb (fun '(j, rj) => Nat.eqb i j || negb (tie objectives rj ri))
                     (enumerate df))
          (enumerate df).

(** A frame with four rows and no two rows alike on the column [y]. *)
Definition ranked_row (y aux : Z) : row :=
  list_to_map [("x", int 1); ("y", int y); ("aux", int aux)].

Definition ranked_df : list row :=
  [ranked_row 5 0; ranked_row 2 1; ranked_row 3 2; ranked_row 8 3].

End ParetoOrder.

(** ** A run of evaluations *)

Module Tracking.
Import GeneticOptimizer Engine.

(** Successive calls of [_evaluate_individual], the only method that
    writes the tracking attributes: one call per job, each on the state
    the previous call left.  The state after the last call. *)
Definition after_evaluations `{PyRuntime} (self : optimizer) (jobs : list job)
  : optimizer :=
  foldl (fun s j => (_evaluate_individual s (job_genes j) (job_call j) (job_now j)).1)
        self jobs.

(** The job was answered with a dictionary, for a parameter dictionary
    whose hash is [h]. *)
Definition succeeded_on `{PyRuntime} (h : Z) (j : job) : bool :=
  match _individual_to_parameters (job_genes j) with
  | Ok p =>
      match job_call j p with
      | Ok (PyResults _) => bool_decide (param_hash p = h)
      | _ => false
      end
  | Raise _ => false
  end.

(** How the three tracking attributes hang together: the counter is the
    length of the history, the records carry the identifiers made from
    1, 2, ... in order, and [solution_ids] binds a hash to an identifier
    exactly when a record of the history has that hash and identifier. *)
Definition registry_inv `{PyRuntime} (self : optimizer) : Prop :=
  solution_counter self = Z.of_nat (length (solution_history self))
  /\ rec_id <$> solution_history self
     = solution_id_of <$> seqZ 1 (Z.of_nat (length (solution_history self)))
  /\ forall h sid,
       solution_ids self !! h = Some sid <->
       exists r, r ∈ solution_history self
                 /\ param_hash (rec_parameters r) = h /\ rec_id r = sid.

(** The keys of [_individual_to_parameters], in gene order. *)
Definition parameter_names : list string :=
  [ "varOfWork"; "capacityOfMainConveyor"; "quantityOfVagonsToSilageAtOnce";
    "quantityOfVehicleDischargeStations"; "numberOfVehicleSilages";
    "capacityOfVehicleSilages"; "quantityOfSilages"; "yearsModelWorking" ].

(** The tuple [_evaluate_individual] builds from a response dictionary. *)
Definition kpis_of (d : gmap string num) : list num :=
  [ default (int 0) (d !! "vesselsHandledQtt");
    default PosInf (d !! "primeCost");
    default PosInf (d !! "handlingTime");
    default NegInf (d !! "profit");
    default PosInf (d !! "timeAtTerminal") ].

End Tracking.

(** ** [python/genetic_optimizer.py]: [get_best_solutions] *)

Module BestSolutions.
Import GeneticOptimizer Engine Persist.

(** [x.fitness.values[i]] *)
Definition fitness_at (i : nat) (x : individual) : result num :=
  match values x !! i with
  | Some v => Ok v
  | None => Raise IndexError
  end.

(** One step of a stable sort: [x], which came before the members of the
    sorted list [l], goes in front of the first member it does not have to
    follow. *)
Fixpoint insert_by {A} (le : A -> A -> bool) (x : A) (l : list A) : list A :=
  match l with
  | [] => [x]
  | y :: l' => if le x y then x :: y :: l' else y :: insert_by le x l'
  end.

(** The order of the keys: ascending, or descending under [reverse=True];
    equal keys keep their order either way. *)
Definition key_le {A} (reverse : bool) (a b : num * A) : bool :=
  if reverse then negb (num_ltb a.1 b.1) else negb (num_ltb b.1 a.1).

(** [sorted(front, key=lambda x: x.fitness.values[i], reverse=...)]: the
    keys are computed first, one per member; the sort is stable. *)
Definition sorted_by_fitness (i : nat) (reverse : bool) (front : list individual)
  : result (list individual) :=
  keys ← mapM (fitness_at i) front;
  Ok ((foldr (insert_by (key_le reverse)) [] (zip keys front)).*2).

(** One of the three [best_solutions.append({...})] blocks. *)
Definition best_entry `{PyRuntime} (self : optimizer) (criterion : string)
           (x : individual) : result pyval :=
  params ← _individual_to_parameters (genes x);
  let solution_id := default "UNKNOWN" (solution_ids self !! param_hash params) in
  Ok (VDict [ ("id", VStr solution_id);
              ("criterion", VStr criterion);
              ("parameters", params_value params);
              ("fitness", VTuple (List.map VFloat (values x))) ]).

(** [if sorted_list: best_solutions.append(entry for sorted_list[0])] *)
Definition append_best `{PyRuntime} (self : optimizer) (criterion : string)
           (sorted_list : list individual) (best_solutions : list pyval)
  : result (list pyval) :=
  match sorted_list with
  | [] => Ok best_solutions
  | x :: _ => e ← best_entry self criterion x; Ok (best_solutions ++ [e])%list
  end.

(** [l[:n]] *)
Definition upto {A} (n : Z) (l : list A) : list A :=
  if (0 <=? n)%Z then take (Z.to_nat n) l
  else take (Z.to_nat (Z.of_nat (length l) + n)) l.

Definition get_best_solutions `{PyRuntime} (self : optimizer)
           (pareto_front : list individual) (n : Z) : result (list pyval) :=
  match pareto_front with
  | [] => Ok []
  | _ =>
      sorted_by_profit ← sorted_by_fitness 3 true pareto_front;
      sorted_by_vessels ← sorted_by_fitness 0 true pareto_front;
      sorted_by_cost ← sorted_by_fitness 1 false pareto_front;
      best_solutions ← append_best self "Best Profit" sorted_by_profit [];
      best_solutions ← append_best self "Most Vessels Handled" sorted_by_vessels
                                   best_solutions;
      best_solutions ← append_best self "Lowest Cost" sorted_by_cost best_solutions;
      Ok (upto n best_solutions)
  end.

(** [a <= b] on KPI values. *)
Definition num_leb (a b : num) : bool := negb (num_ltb b a).

(** A front of three scored individuals. *)
Definition trio : list individual :=
  [ {| genes := [3; 800; 8; 2; 2; 800; 18; 1]%Z;
       fitness := Some [int 150; int 50000; int 120; int 75000; int 60] |};
    {| genes := [3; 900; 9; 3; 3; 900; 19; 1]%Z;
       fitness := Some [int 180; int 65000; int 100; int 85000; int 50] |};
    {| genes := [3; 1000; 10; 4; 4; 1000; 20; 1]%Z;
       fitness := Some [int 200; int 80000; int 90; int 95000; int 45] |} ].

End BestSolutions.

(** ** [python/utils/solution_analyzer.py] *)

Module SolutionAnalyzer.
Import GeneticOptimizer Engine Persist.

#[local] Set Warnings "-register-all".

(** [SolutionAnalyzer.__init__]: the value of [self.results], or the
    exception that leaves the constructor.  [_load_results] runs before
    [self.logger] is assigned, so when the file cannot be read the handler's
    [self.logger.error(...)] raises [AttributeError]. *)
Definition __init__ (file : option json_value) : result pyval :=
  match file with
  | Some j => Ok (load j)
  | None => Raise AttributeError
  end.

(** [d.get(key, dflt)]; only a dictionary has [get]. *)
Definition get (v : pyval) (key : string) (dflt : pyval) : result pyval :=
  match v with
  | VDict d =>
      match List.find (fun kv => bool_decide (kv.1 = key)) d with
      | Some kv => Ok kv.2
      | None => Ok dflt
      end
  | _ => Raise AttributeError
  end.

(** What a [for] loop runs over: the members of a list or tuple, the keys
    of a dictionary, the characters of a string; anything else is not
    iterable. *)
Definition iter (v : pyval) : result (list pyval) :=
  match v with
  | VList l | VTuple l => Ok l
  | VDict d => Ok (List.map (fun kv => VStr kv.1) d)
  | VStr s => Ok (List.map (fun c => VStr (String c "")) (list_ascii_of_string s))
  | _ => Raise OtherError
  end.

(** [v == solution_id] for a string [solution_id]. *)
Definition is_id (v : pyval) (solution_id : string) : bool :=
  match v with
  | VStr s => bool_decide (s = solution_id)
  | _ => false
  end.

(** One of the three search loops of [get_solution_by_id]. *)
Fixpoint find_by_id (solution_id : string) (solutions : list pyval)
  : result (option pyval) :=
  match solutions with
  | [] => Ok None
  | solution :: rest =>
      sid ← get solution "id" VNone;
      if is_id sid solution_id then Ok (Some solution)
      else find_by_id solution_id rest
  end.

(** [for solution in self.results.get(key, []): ...] *)
Definition search (results : pyval) (key solution_id : string)
  : result (option pyval) :=
  section ← get results key (VList []);
  solutions ← iter section;
  find_by_id solution_id solutions.

Definition get_solution_by_id (results : pyval) (solution_id : string)
  : result (option pyval) :=
  found ← search results "solution_history" solution_id;
  match found with
  | Some solution => Ok (Some solution)
  | None =>
      found ← search results "pareto_front" solution_id;
      match found with
      | Some solution => Ok (Some solution)
      | None => search results "population" solution_id
      end
  end.

Definition get_pareto_solutions (results : pyval) : result pyval :=
  get results "pareto_front" (VList []).

(** [len(v)] *)
Definition len (v : pyval) : result Z :=
  match v with
  | VList l | VTuple l => Ok (Z.of_nat (length l))
  | VDict d => Ok (Z.of_nat (length d))
  | VStr s => Ok (Z.of_nat (String.length s))
  | _ => Raise OtherError
  end.

(** Values that can be members of a [set]. *)
Fixpoint hashable (v : pyval) : bool :=
  match v with
  | VList _ | VDict _ => false
  | VTuple l => forallb hashable l
  | _ => true
  end.

(** [a == b] on hashable values. *)
Fixpoint py_eqb (a b : pyval) : bool :=
  match a, b with
  | VNone, VNone => true
  | VInt x, VInt y => (x =? y)%Z
  | VInt x, VFloat n | VFloat n, VInt x => bool_decide (n = int x)
  | VFloat m, VFloat n => bool_decide (m = n)
  | VStr s, VStr t => bool_decide (s = t)
  | VTuple l, VTuple k =>
      (fix all2 (l k : list pyval) : bool :=
         match l, k with
         | [], [] => true
         | x :: l', y :: k' => py_eqb x y && all2 l' k'
         | _, _ => false
         end) l k
  | _, _ => false
  end.

(** [set(s.get("id") for s in history)], built member by member; [seen]
    holds the members so far. *)
Fixpoint id_set (history : list pyval) (seen : list pyval) : result (list pyval) :=
  match history with
  | [] => Ok seen
  | s :: rest =>
      v ← get s "id" VNone;
      if hashable v
      then id_set rest (if existsb (py_eqb v) seen then seen else (seen ++ [v])%list)
      else Raise OtherError
  end.

(** [get_solution_statistics]; [percentage a b] is the float
    [a / b * 100]. *)
Definition get_solution_statistics (percentage : Z -> Z -> num) (results : pyval)
  : result pyval :=
  if negb (truthy results) then Ok (VDict [])
  else
    history ← get results "solution_history" (VList []);
    pareto_front ← get results "pareto_front" (VList []);
    total_solutions ← len history;
    pareto_solutions ← len pareto_front;
    pareto_percentage ←
      (if truthy history
       then a ← len pareto_front; b ← len history; Ok (VFloat (percentage a b))
       else Ok (VInt 0));
    unique_solutions ← (solutions ← iter history; id_set solutions []);
    optimization_metadata ← get results "optimization_metadata" (VDict []);
    Ok (VDict [ ("total_solutions", VInt total_solutions);
                ("pareto_solutions", VInt pareto_solutions);
                ("pareto_percentage", pareto_percentage);
                ("unique_solutions", VInt (Z.of_nat (length unique_solutions)));
                ("optimization_metadata", optimization_metadata) ]).

End SolutionAnalyzer.

(** ** [java_interface.py]: health, result queries and start-up *)

Module JavaLifecycle.
Import JavaModelInterface.

(** [check_health]; [get] is the outcome of the [requests.get] call. *)
Definition check_health (get : result response) : result bool :=
  try_except
    (response ← get;
     if (status_code response =? 200)%Z then Ok true else Ok false)
    (fun e =>
       match e with
       | ConnectionError => Ok false
       | _ => Ok false
       end).

(** [get_simulation_results] *)
Definition get_simulation_results (get : result response) : result sim_value :=
  try_except
    (response ← get;
     if (status_code response =? 200)%Z then json response else Ok PyNone)
    (fun _ => Ok PyNone).

(** What [get_all_results] hands back: the decoded body, or the empty list
    literal of its two fallback branches. *)
Inductive all_results : Type :=
| Body (v : sim_value)
| EmptyList.

(** [get_all_results] *)
Definition get_all_results (get : result response) : result all_results :=
  try_except
    (response ← get;
     if (status_code response =? 200)%Z
     then v ← json response; Ok (Body v)
     else Ok EmptyList)
    (fun _ => Ok EmptyList).

(** The outcome of [subprocess.run([cmd, "--version"], capture_output=True,
    check=True)]: it returns, it raises one of the two exceptions the loop
    catches ([CalledProcessError], [FileNotFoundError]), or it raises
    something else. *)
Inductive probe : Type :=
| Runs
| Unavailable
| Fails (e : exn).

(** The machine the interface runs on: what probing a command name gives,
    what [subprocess.Popen([mvn, "spring-boot:run"], cwd=path, ...)] gives
    (a process handle, or an exception), and the outcomes of the successive
    health requests. *)
Record machine := {
  version : string -> probe;
  popen : string -> string -> result Z;
  health : nat -> result response
}.

(** The two attributes of the interface that start-up reads and writes. *)
Record interface := {
  java_app_path : option string;
  java_process : option Z
}.

(** The [for cmd in mvn_commands] loop; the value of [mvn_path] after it. *)
Fixpoint find_mvn (version : string -> probe) (mvn_commands : list string)
  : result (option string) :=
  match mvn_commands with
  | [] => Ok None
  | cmd :: rest =>
      match version cmd with
      | Runs => Ok (Some cmd)
      | Unavailable => find_mvn version rest
      | Fails e => Raise e
      end
  end.

(** The [for attempt in range(max_attempts)] loop, from attempt [attempt]
    on with [remaining] attempts to go. *)
Fixpoint await_health (health : nat -> result response) (attempt remaining : nat)
  : result bool :=
  match remaining with
  | O => Ok false
  | S remaining' =>
      healthy ← check_health (health attempt);
      if (healthy : bool) then Ok true
      else await_health health (S attempt) remaining'
  end.

(** The [try] block of [start_java_application]; an attribute written
    before an exception is raised stays written. *)
Definition start_body (env : machine) (self : interface) (path : string)
  : interface * result bool :=
  match find_mvn (version env) ["mvn"; "mvn.cmd"; "mvn.bat"] with
  | Raise e => (self, Raise e)
  | Ok None => (self, Ok false)
  | Ok (Some mvn_path) =>
      match popen env mvn_path path with
      | Raise e => (self, Raise e)
      | Ok process =>
          ({| java_app_path := java_app_path self; java_process := Some process |},
           await_health (health env) 0 10)
      end
  end.

(** [start_java_application] *)
Definition start_java_application (env : machine) (self : interface)
  : interface * bool :=
  match java_app_path self with
  | None | Some "" => (self, true)
  | Some path =>
      match start_body env self path with
      | (self', Ok started) => (self', started)
      | (self', Raise _) => (self', false)
      end
  end.

(** The request came back with status 200. *)
Definition healthy (r : result response) : bool :=
  match r with
  | Ok response => (status_code response =? 200)%Z
  | Raise _ => false
  end.

(** A machine with Maven installed as [mvn.cmd] whose application answers
    the third health request. *)
Definition slow_start : machine :=
  {| version := fun cmd => if bool_decide (cmd = "mvn.cmd") then Runs else Unavailable;
     popen := fun _ _ => Ok 4242%Z;
     health := fun attempt =>
                 if (attempt <? 2)%nat then Raise ConnectionError
                 else Ok {| status_code := 200; text := "OK"; json := Ok PyNone |} |}.

End JavaLifecycle.

(** ** From saved results to the frame *)

Module Frames.
Import GeneticOptimizer Engine Persist.

(** The row [{**params, "vesselsHandledQtt": fitness[0], ...}] for a
    parameter dictionary and a tuple of KPI values: the KPI columns, and
    under every other label the parameter of that name. *)
Definition frame_row (p : params) (vs : list num) : Pareto.row :=
  list_to_map (zip Pareto.kpi_names vs) ∪ (int <$> p).

(** The row the frame gets for an individual of the saved front: none
    for an individual without fitness values. *)
Definition row_of (ind : individual) : option Pareto.row :=
  match fitness ind, _individual_to_parameters (genes ind) with
  | Some (v :: vs), Ok p => Some (frame_row p (v :: vs))
  | _, _ => None
  end.

(** An individual as [save_results] can meet it in a front: eight genes
    or more, and a fitness that is not valid or holds five values. *)
Definition saveable (ind : individual) : Prop :=
  (8 <= length (genes ind))%nat
  /\ match fitness ind with
     | Some vs => length vs = 5%nat
     | None => True
     end.

End Frames.

(** * Properties *)

(** ** Order facts on KPI values *)

Lemma num_ltb_irrefl (a : num) : num_ltb a a = false.
Proof.
  destruct a as [|q|]; simpl; try reflexivity.
  apply bool_decide_eq_false. intros H. exact (Qclt_not_eq _ _ H eq_refl).
Qed.

Lemma num_ltb_trans (a b c : num) :
  num_ltb a b = true -> num_ltb b c = true -> num_ltb a c = true.
Proof.
  destruct a as [|x|], b as [|y|], c as [|z|]; simpl; try congruence.
  rewrite !bool_decide_eq_true. apply Qclt_trans.
Qed.

Lemma num_ltb_asym (a b : num) : num_ltb a b = true -> num_ltb b a = false.
Proof.
  intros Hab. destruct (num_ltb b a) eqn:Hba; [|reflexivity].
  pose proof (num_ltb_trans _ _ _ Hab Hba) as Haa.
  rewrite num_ltb_irrefl in Haa. discriminate.
Qed.

(** The order is total: two values neither of which is below the other are
    equal. *)
Lemma num_ltb_total (a b : num) :
  num_ltb a b = false -> num_ltb b a = false -> a = b.
Proof.
  destruct a as [|x|], b as [|y|]; simpl; try congruence.
  rewrite !bool_decide_eq_false. intros Hxy Hyx. f_equal.
  apply Qcle_antisym; apply Qcnot_lt_le; assumption.
Qed.

Lemma num_le_lt_trans (a b c : num) :
  num_ltb b a = false -> num_ltb b c = true -> num_ltb a c = true.
Proof.
  intros Hab Hbc. destruct (num_ltb a b) eqn:Hlt.
  - eapply num_ltb_trans; eassumption.
  - rewrite (num_ltb_total a b); assumption.
Qed.

Lemma num_lt_le_trans (a b c : num) :
  num_ltb a b = true -> num_ltb c b = false -> num_ltb a c = true.
Proof.
  intros Hab Hbc. destruct (num_ltb b c) eqn:Hlt.
  - eapply num_ltb_trans; eassumption.
  - rewrite <- (num_ltb_total b c); assumption.
Qed.

Lemma num_le_trans (a b c : num) :
  num_ltb b a = false -> num_ltb c b = false -> num_ltb c a = false.
Proof.
  intros Hab Hbc. destruct (num_ltb c a) eqn:Hca; [|reflexivity].
  pose proof (num_lt_le_trans _ _ _ Hca Hab) as Hcb. congruence.
Qed.

(** ** The Pareto-front extractor *)

Section ParetoFacts.
Import Pareto Engine Persist Scenarios GeneticOptimizer.

(** The flag computed for a pair of rows is set whenever the first row is
    nowhere worse; on a row compared with itself it is always set. *)
Lemma dominates_refl (objectives : list string) (r : row) :
  (forall obj, obj ∈ objectives -> is_Some (r !! obj)) ->
  dominates objectives r r = Ok true.
Proof.
  induction objectives as [|obj rest IH]; intros Hcols; [reflexivity|].
  destruct (Hcols obj) as [v Hv]; [left|].
  simpl. unfold cell. rewrite Hv. simpl.
  unfold num_gtb. rewrite num_ltb_irrefl.
  destruct (is_maximize obj); apply IH; intros o Ho; apply Hcols; right; exact Ho.
Qed.

(** C1 (the code departs from the statement).  In the tie scenario, with
    the single objective [y] to minimise and [y = 5, 2, 2, 8], the
    extractor returns the empty front: neither of the two tied rows with
    [y = 2] is a member, although both are rows of the frame and neither
    is dominated by the other under the dominance rule of the spec. *)
Theorem C1_tie_scenario_front_is_empty :
  identify_pareto_frontier tie_df (Some ["y"]) = Ok []
  /\ tie_df !! 1%nat = Some (tie_row 2 1)
  /\ tie_df !! 2%nat = Some (tie_row 2 2)
  /\ tie_row 2 1 !! "y" = Some (int 2)
  /\ tie_row 2 2 !! "y" = Some (int 2)
  /\ spec_dominates [Minimize] [int 2] [int 2] = false.
Proof. repeat split; vm_compute; reflexivity. Qed.

(** C2 (the code departs from the statement).  For two solutions with
    identical objective values the flag [dominates] of the extractor is
    set in both directions, and it is set for a solution against itself:
    the relation it computes is neither asymmetric nor irreflexive. *)
Theorem C2_dominates_holds_both_ways_on_equal_values :
  dominates Pareto.default_objectives twin_a twin_b = Ok true
  /\ dominates Pareto.default_objectives twin_b twin_a = Ok true
  /\ dominates Pareto.default_objectives twin_a twin_a = Ok true.
Proof. repeat split; vm_compute; reflexivity. Qed.

Lemma scan_unchallenged (objectives : list string) (i : nat) (ri : row)
      (js : list (nat * row)) :
  (forall j rj, (j, rj) ∈ js -> j <> i -> dominates objectives rj ri = Ok false) ->
  scan objectives i ri js = Ok true.
Proof.
  induction js as [|[j rj] js IH]; intros Hjs; [reflexivity|].
  cbn [scan]. destruct (Nat.eqb_spec i j) as [->|Hne].
  - apply IH. intros j' rj' Hin. apply Hjs. right. exact Hin.
  - rewrite (Hjs j rj); [|left|congruence]. simpl.
    apply IH. intros j' rj' Hin. apply Hjs. right. exact Hin.
Qed.

Lemma mapM_all_true {A} (f : A -> result bool) (l : list A) :
  (forall x, x ∈ l -> f x = Ok true) -> mapM f l = Ok (List.map (fun _ => true) l).
Proof.
  induction l as [|x l IH]; intros Hl; [reflexivity|].
  simpl. rewrite (Hl x) by left. simpl. rewrite IH; [reflexivity|].
  intros y Hy. apply Hl. right. exact Hy.
Qed.

Lemma select_all_true {A B} (l : list A) (df : list B) :
  length l = length df -> select (List.map (fun _ => true) l) df = df.
Proof.
  revert df. induction l as [|x l IH]; intros [|r df] Hlen; try discriminate;
    [reflexivity|].
  simpl. f_equal. apply IH. simpl in Hlen. lia.
Qed.

(** A frame in which no row is found nowhere worse than another row is
    returned whole: without ties the extractor keeps an antichain. *)
Lemma extractor_keeps_unchallenged (df : list row) (objectives : list string) :
  (forall i j ri rj, i <> j -> df !! i = Some ri -> df !! j = Some rj ->
                     dominates objectives rj ri = Ok false) ->
  identify_pareto_frontier df (Some objectives) = Ok df.
Proof.
  intros Hfree. unfold identify_pareto_frontier, pareto_mask. simpl default.
  rewrite mapM_all_true.
  - simpl. f_equal. apply select_all_true. unfold enumerate. apply length_imap.
  - intros [i ri] Hi. apply scan_unchallenged. intros j rj Hj Hne.
    unfold enumerate in Hi, Hj.
    apply elem_of_lookup_imap in Hi as (i' & ri' & [= -> ->] & Hi).
    apply elem_of_lookup_imap in Hj as (j' & rj' & [= -> ->] & Hj).
    apply (Hfree i' j'); [congruence|exact Hi|exact Hj].
Qed.

#[local] Existing Instance CPython.runtime.

(** C3 (the code departs from the statement).  Two genomes that differ in
    one gene and are scored alike both sit in the archive; saved,
    reloaded and passed to the extractor with the five objectives, the
    two-row frame yields the empty front. *)
Theorem C3_extractor_drops_equal_fitness_archive :
  let batch := [answers (PyResults same_kpis) genome_a;
                answers (PyResults same_kpis) genome_b] in
  let run := evaluate_population fresh batch in
  exists a b,
    run.2 = Ok [a; b]
    /\ genes a <> genes b
    /\ archive_update [] [a; b] = [a; b]
    /\ (results ← save_results run.1 [a; b] [a; b];
        df ← extract_pareto_data (_load_results (Some (dump results)));
        front ← identify_pareto_frontier df (Some kpi_names);
        Ok (length df, front)) = Ok (2%nat, []).
Proof.
  eexists _, _. split; [vm_compute; reflexivity|].
  split; [discriminate|].
  split; vm_compute; reflexivity.
Qed.

End ParetoFacts.

(** ** Identifier format *)

Section FormatFacts.
Import GeneticOptimizer.

Lemma uint_of_string_zeros (k : nat) (s : string) (d : Decimal.uint) :
  NilEmpty.uint_of_string s = Some d ->
  NilEmpty.uint_of_string (zeros k ++ s) = Some (lead_zeros k d).
Proof.
  intros Hs. induction k as [|k IH]; simpl; [exact Hs|].
  change (String "0" (zeros k) ++ s)%string with (String "0" (zeros k ++ s)).
  simpl. rewrite IH. reflexivity.
Qed.

Lemma of_uint_lead_zeros (k : nat) (d : Decimal.uint) :
  N.of_uint (lead_zeros k d) = N.of_uint d.
Proof. induction k as [|k IH]; simpl; [reflexivity|exact IH]. Qed.

Lemma to_uint_nonnil (n : N) : N.to_uint n <> Decimal.Nil.
Proof.
  destruct n as [|p]; simpl; [discriminate|].
  apply DecimalPos.Unsigned.to_uint_nonnil.
Qed.

Lemma digits_parse (n : N) :
  NilEmpty.uint_of_string (digits n) = Some (N.to_uint n).
Proof.
  unfold digits, NilZero.string_of_uint.
  pose proof (to_uint_nonnil n) as Hn.
  destruct (N.to_uint n) eqn:E; try congruence; rewrite <- E; apply NilEmpty.usu.
Qed.

(** Reading the digits of a formatted non-negative number gives the
    number back, however many zeros pad it. *)
Lemma format_06d_parse (n : Z) :
  (0 <= n)%Z ->
  N.of_uint <$> NilEmpty.uint_of_string (format_06d n) = Some (Z.to_N n).
Proof.
  intros Hn. unfold format_06d.
  destruct (Z.ltb_spec n 0) as [Hneg|_]; [lia|].
  rewrite (uint_of_string_zeros _ _ _ (digits_parse _)). simpl.
  rewrite of_uint_lead_zeros, DecimalN.Unsigned.of_to.
  f_equal. lia.
Qed.

Lemma format_06d_inj (a b : Z) :
  (0 <= a)%Z -> (0 <= b)%Z -> format_06d a = format_06d b -> a = b.
Proof.
  intros Ha Hb Heq.
  pose proof (format_06d_parse a Ha) as Pa.
  pose proof (format_06d_parse b Hb) as Pb.
  rewrite Heq in Pa. rewrite Pa in Pb. injection Pb as Pb. lia.
Qed.

End FormatFacts.

(** ** The solution registry *)

Section RegistryFacts.
Import GeneticOptimizer Engine Persist Scenarios.
Context `{PyRuntime}.

Lemma solution_id_of_inj (a b : Z) :
  (0 <= a)%Z -> (0 <= b)%Z -> solution_id_of a = solution_id_of b -> a = b.
Proof.
  unfold solution_id_of. intros Ha Hb Heq.
  apply format_06d_inj; try assumption.
  simpl in Heq. by simplify_eq.
Qed.

(** A key already in [solution_ids]: nothing is written. *)
Lemma get_known (self : optimizer) (p : params) (kpis : list num)
      (now sid : string) :
  solution_ids self !! param_hash p = Some sid ->
  _get_or_create_solution_id self p kpis now = (self, sid).
Proof. intros Hk. unfold _get_or_create_solution_id. rewrite Hk. reflexivity. Qed.

(** A new key: the counter advances by one, the key is bound to the
    identifier made from the new counter, one record is appended. *)
Lemma get_new (self : optimizer) (p : params) (kpis : list num) (now : string) :
  solution_ids self !! param_hash p = None ->
  let r := _get_or_create_solution_id self p kpis now in
  r.2 = solution_id_of (solution_counter self + 1)
  /\ solution_counter r.1 = (solution_counter self + 1)%Z
  /\ solution_ids r.1 = <[param_hash p := r.2]> (solution_ids self)
  /\ length (solution_history r.1) = S (length (solution_history self)).
Proof.
  intros Hk. unfold _get_or_create_solution_id. rewrite Hk. simpl.
  repeat split. rewrite length_app. simpl. lia.
Qed.

(** After a call the key of its dictionary is bound to the identifier it
    returned. *)
Lemma get_binds (self : optimizer) (p : params) (kpis : list num) (now : string) :
  let r := _get_or_create_solution_id self p kpis now in
  solution_ids r.1 !! param_hash p = Some r.2.
Proof.
  unfold _get_or_create_solution_id.
  destruct (solution_ids self !! param_hash p) eqn:Hk; simpl; [exact Hk|].
  apply lookup_insert_eq.
Qed.

Lemma identify_all_fresh (calls : list (params * list num * string)) :
  forall self : optimizer,
    (0 <= solution_counter self)%Z ->
    NoDup (List.map (fun c => param_hash c.1.1) calls) ->
    (forall c, c ∈ calls -> solution_ids self !! param_hash c.1.1 = None) ->
    let r := identify_all self calls in
    r.2 = List.map solution_id_of
                   (seqZ (solution_counter self + 1) (Z.of_nat (length calls)))
    /\ solution_counter r.1 = (solution_counter self + Z.of_nat (length calls))%Z
    /\ length (solution_history r.1)
       = (length (solution_history self) + length calls)%nat.
Proof.
  induction calls as [|c rest IH]; intros self Hpos Hnd Hfresh.
  - simpl. repeat split; lia.
  - simpl in Hnd. apply NoDup_cons in Hnd as [Hnotin Hnd].
    destruct (get_new self c.1.1 c.1.2 c.2) as (Hid & Hcnt & Hids & Hlen).
    { apply Hfresh. left. }
    cbn [identify_all].
    set (r := _get_or_create_solution_id self c.1.1 c.1.2 c.2) in *.
    destruct (IH r.1) as (Hids' & Hcnt' & Hlen').
    { rewrite Hcnt. lia. }
    { exact Hnd. }
    { intros c' Hc'. rewrite Hids.
      rewrite lookup_insert_ne.
      - apply Hfresh. right. exact Hc'.
      - intros Heq. apply Hnotin. rewrite Heq.
        apply list_elem_of_In, in_map_iff. exists c'. split; [reflexivity|].
        apply list_elem_of_In. exact Hc'. }
    cbn [fst snd]. split; [|split].
    + rewrite Hids', Hid, Hcnt, length_cons, Nat2Z.inj_succ.
      rewrite (seqZ_cons (solution_counter self + 1)) by lia.
      rewrite Z.pred_succ. reflexivity.
    + rewrite Hcnt', Hcnt, length_cons. lia.
    + rewrite Hlen', Hlen, length_cons. lia.
Qed.

Lemma solution_ids_NoDup (start len : Z) :
  (0 <= start)%Z -> NoDup (List.map solution_id_of (seqZ start len)).
Proof.
  intros Hs. apply (NoDup_fmap_2_strong solution_id_of).
  - intros a b Ha Hb. apply elem_of_seqZ in Ha, Hb.
    apply solution_id_of_inj; lia.
  - apply NoDup_seqZ.
Qed.

End RegistryFacts.

Section TrackingFacts.
Import GeneticOptimizer Engine Persist Scenarios.
Context `{PyRuntime}.

Lemma tracking_inv_init (size gens : Z) (mr cr : Qc) :
  tracking_inv (init size gens mr cr).
Proof. split; reflexivity. Qed.

Lemma tracking_inv_get (self : optimizer) (p : params) (kpis : list num)
      (now : string) :
  tracking_inv self ->
  tracking_inv (_get_or_create_solution_id self p kpis now).1.
Proof.
  intros [Hc Hs]. unfold _get_or_create_solution_id.
  destruct (solution_ids self !! param_hash p) eqn:Hk; simpl; [split; assumption|].
  split; simpl.
  - rewrite map_size_insert_None by exact Hk. lia.
  - rewrite map_size_insert_None by exact Hk. rewrite length_app. simpl. lia.
Qed.

Lemma tracking_inv_body (self : optimizer) (p : params)
      (call : result sim_value) (now : string) :
  tracking_inv self -> tracking_inv (evaluate_body self p call now).1.
Proof.
  intros Hinv. unfold evaluate_body.
  destruct call as [[|d|]|e]; simpl; try exact Hinv.
  pose proof (tracking_inv_get self p
    [default (int 0) (d !! "vesselsHandledQtt"); default PosInf (d !! "primeCost");
     default PosInf (d !! "handlingTime"); default NegInf (d !! "profit");
     default PosInf (d !! "timeAtTerminal")] now Hinv) as Hget.
  destruct (_get_or_create_solution_id self p _ now) as [self' sid].
  exact Hget.
Qed.

Lemma tracking_inv_evaluate (self : optimizer) (ind : list Z)
      (call : params -> result sim_value) (now : string) :
  tracking_inv self -> tracking_inv (_evaluate_individual self ind call now).1.
Proof.
  intros Hinv. unfold _evaluate_individual.
  destruct (_individual_to_parameters ind) as [p|e]; [|exact Hinv].
  pose proof (tracking_inv_body self p (call p) now Hinv) as Hb.
  destruct (evaluate_body self p (call p) now) as [self' [fit|e]]; exact Hb.
Qed.

Lemma tracking_inv_population (jobs : list job) :
  forall self : optimizer,
    tracking_inv self -> tracking_inv (evaluate_population self jobs).1.
Proof.
  induction jobs as [|j rest IH]; intros self Hinv; [exact Hinv|].
  cbn [evaluate_population].
  pose proof (tracking_inv_evaluate self (job_genes j) (job_call j) (job_now j) Hinv)
    as Hone.
  destruct (_evaluate_individual self (job_genes j) (job_call j) (job_now j))
    as [self' [fit|e]]; [|exact Hone].
  pose proof (IH self' Hone) as Hrest.
  destruct (evaluate_population self' rest) as [self'' [inds|e]]; exact Hrest.
Qed.

(** C9.  From a fresh optimiser, after any batch of evaluations the
    counter, the number of keys in [solution_ids] and the length of the
    history agree, so the saved metadata reports
    [total_solutions_evaluated] equal to [unique_solutions].  An
    evaluation whose oracle call raises, returns [None] or returns a value
    without [get] leaves the tracking state as it was; a successful one
    adds exactly the key of its parameter dictionary, so the counter
    counts keys and a repeated key counts once. *)
Theorem C9_counter_ids_history_agree
        (size gens : Z) (mr cr : Qc) (jobs : list job)
        (self : optimizer) (ind : list Z) (now : string)
        (e : exn) (d : gmap string num) :
  (let final := (evaluate_population (init size gens mr cr) jobs).1 in
   solution_counter final = Z.of_nat (stdpp.base.size (solution_ids final))
   /\ solution_counter final = Z.of_nat (length (solution_history final))
   /\ getitem (optimization_metadata final) "total_solutions_evaluated"
      = getitem (optimization_metadata final) "unique_solutions")
  /\ (_evaluate_individual self ind (fun _ => Raise e) now).1 = self
  /\ (_evaluate_individual self ind (fun _ => Ok PyNone) now).1 = self
  /\ (_evaluate_individual self ind (fun _ => Ok PyOther) now).1 = self
  /\ (let after := (_evaluate_individual self ind (fun _ => Ok (PyResults d)) now).1 in
      match _individual_to_parameters ind with
      | Ok p => dom (solution_ids after) = {[ param_hash p ]} ∪ dom (solution_ids self)
      | Raise _ => after = self
      end).
Proof.
  split; [|split; [|split; [|split]]].
  - pose proof (tracking_inv_population jobs _ (tracking_inv_init size gens mr cr))
      as [Hc Hs].
    cbv zeta. split; [exact Hc|]. split; [rewrite Hc, Hs; reflexivity|].
    simpl. rewrite Hc. reflexivity.
  - unfold _evaluate_individual.
    destruct (_individual_to_parameters ind); reflexivity.
  - unfold _evaluate_individual.
    destruct (_individual_to_parameters ind); reflexivity.
  - unfold _evaluate_individual.
    destruct (_individual_to_parameters ind); reflexivity.
  - cbv zeta. unfold _evaluate_individual.
    destruct (_individual_to_parameters ind) as [p|e']; [|reflexivity].
    unfold evaluate_body. simpl.
    unfold _get_or_create_solution_id.
    destruct (solution_ids self !! param_hash p) eqn:Hk; simpl.
    + apply elem_of_dom_2 in Hk. symmetry.
      apply subseteq_union_1_L. by apply singleton_subseteq_l.
    + rewrite dom_insert_L. reflexivity.
Qed.

End TrackingFacts.

(** ** The simulation boundary *)

Section OracleFacts.
Import JavaModelInterface.

(** C10.  [run_simulation] never raises: whatever the transport does it
    returns a value, which is the decoded body when the request returns
    with status 200 and its body decodes, and [None] in every other case
    (the request raises, by timeout or otherwise; the status is not 200;
    decoding raises).  The payload sent holds exactly the eight genes,
    each taken from the input dictionary or, when missing there, replaced
    by its fixed default. *)
Theorem C10_run_simulation_total
        (post : transport) (parameters : gmap string Z) :
  (exists v, run_simulation post parameters = Ok v)
  /\ run_simulation post parameters
     = match post (iteration_data parameters) with
       | Ok response =>
           if (status_code response =? 200)%Z
           then match json response with
                | Ok v => Ok v
                | Raise _ => Ok PyNone
                end
           else Ok PyNone
       | Raise _ => Ok PyNone
       end
  /\ Forall (fun kd => iteration_data parameters !! kd.1
                       = Some (default kd.2 (parameters !! kd.1)))
            [ ("varOfWork", 3%Z); ("capacityOfMainConveyor", 800%Z);
              ("quantityOfVagonsToSilageAtOnce", 8%Z);
              ("quantityOfVehicleDischargeStations", 2%Z);
              ("numberOfVehicleSilages", 2%Z);
              ("capacityOfVehicleSilages", 800%Z);
              ("quantityOfSilages", 17%Z); ("yearsModelWorking", 1%Z) ]
  /\ size (iteration_data parameters) = 8%nat.
Proof.
  assert (Heq : run_simulation post parameters
     = match post (iteration_data parameters) with
       | Ok response =>
           if (status_code response =? 200)%Z
           then match json response with
                | Ok v => Ok v
                | Raise _ => Ok PyNone
                end
           else Ok PyNone
       | Raise _ => Ok PyNone
       end).
  { unfold run_simulation, try_except.
    destruct (post (iteration_data parameters)) as [response|e]; simpl.
    - destruct (status_code response =? 200)%Z; [|reflexivity].
      destruct (json response) as [v|e]; [reflexivity|destruct e; reflexivity].
    - destruct e; reflexivity. }
  split; [|split; [exact Heq|split]].
  - rewrite Heq.
    destruct (post (iteration_data parameters)) as [response|e]; [|eauto].
    destruct (status_code response =? 200)%Z; [|eauto].
    destruct (json response); eauto.
  - repeat constructor.
  - reflexivity.
Qed.

End OracleFacts.

(** ** Saving and reloading results *)

Section PersistFacts.
Import GeneticOptimizer Engine Persist Scenarios.
Context `{PyRuntime}.

Lemma individual_to_parameters_ok (ind : list Z) :
  (8 <= length ind)%nat -> exists p, _individual_to_parameters ind = Ok p.
Proof.
  intros Hlen.
  do 8 (destruct ind as [|? ind]; [simpl in Hlen; lia|]).
  eexists. reflexivity.
Qed.

Lemma load_dump_params (p : params) :
  load (dump (params_value p)) = params_value p.
Proof.
  unfold params_value. simpl. f_equal.
  rewrite !List.map_map. reflexivity.
Qed.

Lemma read_params_value (p : params) : read_params (params_value p) = Some p.
Proof.
  unfold read_params, params_value.
  rewrite (mapM_fmap_Some _ (fun kv : string * Z => (kv.1, VInt kv.2))).
  - simpl. f_equal. apply list_to_map_to_list.
  - intros [k v]. reflexivity.
Qed.

Lemma read_fitness_value (ind : individual) :
  read_fitness (fitness_value ind) = Some (fitness ind).
Proof.
  unfold read_fitness, fitness_value. destruct (fitness ind) as [vs|]; [|reflexivity].
  rewrite (mapM_fmap_Some _ VFloat); [reflexivity|]. intros n. reflexivity.
Qed.

Lemma read_fitness_reloaded (ind : individual) :
  read_fitness (load (dump (fitness_value ind))) = Some (fitness ind).
Proof.
  unfold read_fitness, fitness_value. destruct (fitness ind) as [vs|]; [|reflexivity].
  simpl. rewrite !List.map_map.
  rewrite (mapM_fmap_Some _ (fun n => load (dump (VFloat n)))); [reflexivity|].
  intros n. reflexivity.
Qed.

Lemma triple_fields (sid : string) (ps f : pyval) :
  triple (VDict [("id", VStr sid); ("parameters", ps); ("fitness", f)])
  = p ← read_params ps; fv ← read_fitness f; Some (sid, p, fv).
Proof. reflexivity. Qed.

Lemma load_dump_fields (sid : string) (ps f : pyval) :
  load (dump (VDict [("id", VStr sid); ("parameters", ps); ("fitness", f)]))
  = VDict [("id", VStr sid); ("parameters", load (dump ps));
           ("fitness", load (dump f))].
Proof. reflexivity. Qed.

(** What an entry holds, as written and as read back. *)
Lemma triple_entry (self : optimizer) (ind : individual) (e : pyval) :
  entry self ind = Ok e ->
  triple e = written_triple self ind
  /\ triple (load (dump e)) = written_triple self ind
  /\ is_Some (written_triple self ind).
Proof.
  unfold entry, written_triple.
  destruct (_individual_to_parameters (genes ind)) as [p|err]; simpl; [|discriminate].
  intros [= <-]. split; [|split].
  - rewrite triple_fields, read_params_value. simpl.
    rewrite read_fitness_value. reflexivity.
  - rewrite load_dump_fields, triple_fields, load_dump_params, read_params_value.
    simpl. rewrite read_fitness_reloaded. reflexivity.
  - eauto.
Qed.

Lemma mapM_entry (self : optimizer) (inds : list individual) :
  Forall (fun ind => (8 <= length (genes ind))%nat) inds ->
  exists es, mapM (entry self) inds = Ok es
             /\ Forall2 (fun ind e => entry self ind = Ok e) inds es.
Proof.
  induction 1 as [|ind inds Hind _ (es & Hes & Hall)].
  - exists []. split; [reflexivity|constructor].
  - destruct (individual_to_parameters_ok _ Hind) as [p Hp].
    assert (exists e, entry self ind = Ok e) as [e He].
    { unfold entry. rewrite Hp. simpl. eauto. }
    exists (e :: es). split.
    + simpl. rewrite He. simpl. rewrite Hes. reflexivity.
    + constructor; assumption.
Qed.

Lemma triples_of_entries (self : optimizer) (inds : list individual) (es : list pyval) :
  Forall2 (fun ind e => entry self ind = Ok e) inds es ->
  triple <$> es = written_triple self <$> inds
  /\ triple <$> List.map load (List.map dump es) = written_triple self <$> inds
  /\ Forall is_Some (written_triple self <$> inds).
Proof.
  induction 1 as [|ind e inds es He _ (IH1 & IH2 & IH3)].
  - repeat split. constructor.
  - destruct (triple_entry self ind e He) as (H1 & H2 & H3).
    cbn [List.map]. rewrite !fmap_cons, H1, H2, IH1, IH2.
    repeat split. constructor; assumption.
Qed.

Section Shape.
Variables (pop front : list pyval) (rest : list (string * pyval)).

Let results : pyval :=
  VDict (("population", VList pop) :: ("pareto_front", VList front) :: rest).

Lemma entries_population : entries results "population" = pop.
Proof. reflexivity. Qed.

Lemma entries_front : entries results "pareto_front" = front.
Proof. reflexivity. Qed.

Lemma entries_population_reloaded :
  entries (load (dump results)) "population" = List.map load (List.map dump pop).
Proof. reflexivity. Qed.

Lemma entries_front_reloaded :
  entries (load (dump results)) "pareto_front" = List.map load (List.map dump front).
Proof. reflexivity. Qed.

End Shape.

(** C8.  For a population and a front of eight-gene individuals
    [save_results] produces its dictionary, and after [json.dump] and
    [json.load] every entry of ["population"] and of ["pareto_front"]
    yields the same triple as the entry written: the identifier, the eight
    parameter pairs and the fitness values (or [None]) of the individual it
    was made from. *)
Theorem C8_saved_triples_reload (self : optimizer)
        (population pareto_front : list individual)
        (Hpop : Forall (fun ind => (8 <= length (genes ind))%nat) population)
        (Hfront : Forall (fun ind => (8 <= length (genes ind))%nat) pareto_front) :
  exists results,
    save_results self population pareto_front = Ok results
    /\ (let reloaded := _load_results (Some (dump results)) in
        triple <$> entries reloaded "population"
          = triple <$> entries results "population"
        /\ triple <$> entries reloaded "population"
          = written_triple self <$> population
        /\ triple <$> entries reloaded "pareto_front"
          = triple <$> entries results "pareto_front"
        /\ triple <$> entries reloaded "pareto_front"
          = written_triple self <$> pareto_front
        /\ Forall is_Some (written_triple self <$> (population ++ pareto_front)%list)).
Proof.
  destruct (mapM_entry self population Hpop) as (pop & Hpop_eq & Hpop_all).
  destruct (mapM_entry self pareto_front Hfront) as (front & Hfront_eq & Hfront_all).
  destruct (triples_of_entries self _ _ Hpop_all) as (P1 & P2 & P3).
  destruct (triples_of_entries self _ _ Hfront_all) as (F1 & F2 & F3).
  eexists. split.
  - unfold save_results. rewrite Hpop_eq. simpl. rewrite Hfront_eq. simpl. reflexivity.
  - cbv zeta. unfold _load_results.
    rewrite entries_population, entries_front,
      entries_population_reloaded, entries_front_reloaded.
    rewrite P1, P2, F1, F2. repeat split.
    rewrite fmap_app. apply Forall_app. split; assumption.
Qed.

End PersistFacts.

Section PersistExamples.
Import GeneticOptimizer Engine Persist Scenarios.

(** C8, an instance: the pair of scored individuals saved as population and
    as front by a fresh optimiser. *)
Lemma C8_saved_triples_witness :
  exists results,
    @save_results CPython.runtime fresh [scored_a; scored_b] [scored_b] = Ok results
    /\ triple <$> entries (_load_results (Some (dump results))) "population"
       = @written_triple CPython.runtime fresh <$> [scored_a; scored_b].
Proof.
  assert (Hpop : Forall (fun ind => (8 <= length (genes ind))%nat) [scored_a; scored_b]).
  { repeat constructor. }
  assert (Hfront : Forall (fun ind => (8 <= length (genes ind))%nat) [scored_b]).
  { repeat constructor. }
  destruct (@C8_saved_triples_reload CPython.runtime fresh _ _ Hpop Hfront)
    as (results & Hsave & _ & Hread & _).
  exists results. split; [exact Hsave|exact Hread].
Defined.

End PersistExamples.

(** ** Dominance and the archive *)

Section DominanceFacts.
Import GeneticOptimizer Engine.

Lemma spec_dominates_split (dirs : list direction) (a b : list num) :
  spec_dominates dirs a b = all_no_worse dirs a b && some_better dirs a b.
Proof. reflexivity. Qed.

Lemma better_irrefl (d : direction) (x : num) : better d x x = false.
Proof. destruct d; apply num_ltb_irrefl. Qed.

Lemma better_trans (d : direction) (x y z : num) :
  better d x y = true -> better d y z = true -> better d x z = true.
Proof.
  destruct d; unfold better, num_gtb; intros Hxy Hyz;
    eapply num_ltb_trans; eassumption.
Qed.

Lemma no_worse_trans (d : direction) (x y z : num) :
  no_worse d x y = true -> no_worse d y z = true -> no_worse d x z = true.
Proof.
  unfold no_worse. rewrite !negb_true_iff.
  destruct d; unfold better, num_gtb; intros Hxy Hyz.
  - apply (num_le_trans z y x); assumption.
  - apply (num_le_trans x y z); assumption.
Qed.

Lemma better_no_worse_trans (d : direction) (x y z : num) :
  better d x y = true -> no_worse d y z = true -> better d x z = true.
Proof.
  unfold no_worse. rewrite negb_true_iff.
  destruct d; unfold better, num_gtb; intros Hxy Hyz.
  - eapply num_le_lt_trans; eassumption.
  - eapply num_lt_le_trans; eassumption.
Qed.

Lemma no_worse_better_trans (d : direction) (x y z : num) :
  no_worse d x y = true -> better d y z = true -> better d x z = true.
Proof.
  unfold no_worse. rewrite negb_true_iff.
  destruct d; unfold better, num_gtb; intros Hxy Hyz.
  - eapply num_lt_le_trans; eassumption.
  - eapply num_le_lt_trans; eassumption.
Qed.

Lemma better_no_worse (d : direction) (x y : num) :
  better d x y = true -> no_worse d x y = true.
Proof.
  unfold no_worse. rewrite negb_true_iff.
  destruct d; unfold better, num_gtb; apply num_ltb_asym.
Qed.

Lemma all_no_worse_trans (dirs : list direction) :
  forall a b c : list num,
    length a = length b -> length b = length c ->
    all_no_worse dirs a b = true -> all_no_worse dirs b c = true ->
    all_no_worse dirs a c = true.
Proof.
  unfold all_no_worse.
  induction dirs as [|d dirs IH]; intros a b c Hab Hbc; [reflexivity|].
  destruct a as [|x a], b as [|y b], c as [|z c]; try discriminate; try reflexivity.
  simpl. rewrite !andb_true_iff. intros [Hxy Hab'] [Hyz Hbc']. split.
  - eapply no_worse_trans; eassumption.
  - apply (IH a b c); try assumption; simpl in *; lia.
Qed.

Lemma some_better_trans_l (dirs : list direction) :
  forall a b c : list num,
    length a = length b -> length b = length c ->
    some_better dirs a b = true -> all_no_worse dirs b c = true ->
    some_better dirs a c = true.
Proof.
  unfold all_no_worse, some_better.
  induction dirs as [|d dirs IH]; intros a b c Hab Hbc; [discriminate|].
  destruct a as [|x a], b as [|y b], c as [|z c]; try discriminate.
  simpl. rewrite !orb_true_iff, andb_true_iff. intros [Hxy|Hab'] [Hyz Hbc'].
  - left. eapply better_no_worse_trans; eassumption.
  - right. apply (IH a b c); try assumption; simpl in *; lia.
Qed.

Lemma some_better_trans_r (dirs : list direction) :
  forall a b c : list num,
    length a = length b -> length b = length c ->
    all_no_worse dirs a b = true -> some_better dirs b c = true ->
    some_better dirs a c = true.
Proof.
  unfold all_no_worse, some_better.
  induction dirs as [|d dirs IH]; intros a b c Hab Hbc; [discriminate|].
  destruct a as [|x a], b as [|y b], c as [|z c]; try discriminate.
  simpl. rewrite !orb_true_iff, andb_true_iff. intros [Hxy Hab'] [Hyz|Hbc'].
  - left. eapply no_worse_better_trans; eassumption.
  - right. apply (IH a b c); try assumption; simpl in *; lia.
Qed.

(** Dominance is transitive on fitness tuples of one length. *)
Lemma spec_dominates_trans (dirs : list direction) (a b c : list num) :
  length a = length b -> length b = length c ->
  spec_dominates dirs a b = true -> spec_dominates dirs b c = true ->
  spec_dominates dirs a c = true.
Proof.
  intros Hab Hbc. rewrite !spec_dominates_split, !andb_true_iff.
  intros [Hab1 Hab2] [Hbc1 Hbc2]. split.
  - eapply all_no_worse_trans; eassumption.
  - eapply some_better_trans_l; eassumption.
Qed.

(** Dominance as the spec has it is irreflexive and asymmetric. *)
Lemma spec_dominates_irrefl (dirs : list direction) (a : list num) :
  spec_dominates dirs a a = false.
Proof.
  rewrite spec_dominates_split. apply andb_false_iff. right.
  unfold some_better. revert a.
  induction dirs as [|d dirs IH]; intros [|x a]; try reflexivity.
  simpl. rewrite better_irrefl. apply IH.
Qed.

Lemma spec_dominates_asym (dirs : list direction) (a b : list num) :
  length a = length b ->
  spec_dominates dirs a b = true -> spec_dominates dirs b a = false.
Proof.
  intros Hlen Hab. destruct (spec_dominates dirs b a) eqn:Hba; [|reflexivity].
  pose proof (spec_dominates_trans dirs a b a Hlen (eq_sym Hlen) Hab Hba) as Haa.
  rewrite spec_dominates_irrefl in Haa. discriminate.
Qed.

(** No value is worse than the sentinel's in its direction. *)
Lemma sentinel_is_worst (f : list num) :
  length f = 5%nat ->
  all_no_worse directions f sentinel = true
  /\ some_better directions sentinel f = false.
Proof.
  intros Hlen.
  do 5 (destruct f as [|? f]; [discriminate|]). destruct f; [|discriminate].
  unfold all_no_worse, some_better, no_worse, better, num_gtb. simpl.
  repeat match goal with
         | |- context [num_ltb PosInf ?x] => change (num_ltb PosInf x) with false
         | |- context [num_ltb ?x NegInf] =>
             replace (num_ltb x NegInf) with false by (destruct x; reflexivity)
         end.
  split; reflexivity.
Qed.

(** A tuple that differs from the sentinel in some objective is strictly
    better there, so it dominates the sentinel. *)
Lemma dominates_sentinel (f : list num) :
  length f = 5%nat -> f <> sentinel ->
  spec_dominates directions f sentinel = true.
Proof.
  intros Hlen Hne. rewrite spec_dominates_split.
  rewrite (proj1 (sentinel_is_worst f Hlen)). simpl.
  destruct (some_better directions f sentinel) eqn:Hb; [reflexivity|].
  exfalso. apply Hne.
  do 5 (destruct f as [|? f]; [discriminate|]). destruct f; [|discriminate].
  unfold some_better, better, num_gtb in Hb. simpl in Hb.
  rewrite !orb_false_iff in Hb. destruct Hb as (H0 & H1 & H2 & H3 & H4 & _).
  unfold sentinel.
  repeat f_equal.
  - destruct n; try reflexivity; discriminate.
  - destruct n0; try reflexivity; discriminate.
  - destruct n1; try reflexivity; discriminate.
  - destruct n2; try reflexivity; discriminate.
  - destruct n3; try reflexivity; discriminate.
Qed.

Lemma no_better_equal (dirs : list direction) :
  forall a b : list num,
    length a = length b -> length dirs = length a ->
    some_better dirs a b = false -> some_better dirs b a = false -> a = b.
Proof.
  unfold some_better.
  induction dirs as [|d dirs IH]; intros [|x a] [|y b] Hab Hd; try discriminate;
    [reflexivity|].
  simpl. rewrite !orb_false_iff. intros [Hxy Ha] [Hyx Hb]. f_equal.
  - destruct d; unfold better, num_gtb in *;
      [symmetry|]; apply num_ltb_total; assumption.
  - apply IH; try assumption; simpl in *; lia.
Qed.

Lemma all_no_worse_not_better (dirs : list direction) :
  forall a b : list num,
    all_no_worse dirs a b = true -> some_better dirs b a = false.
Proof.
  unfold all_no_worse, some_better.
  induction dirs as [|d dirs IH]; intros [|x a] [|y b]; try reflexivity.
  simpl. rewrite andb_true_iff, orb_false_iff. unfold no_worse.
  rewrite negb_true_iff. intros [Hxy Hab]. split; [exact Hxy|apply IH, Hab].
Qed.

(** What the flag of the extractor means: on rows that carry all the
    objectives it is set exactly when the first row is nowhere worse, that
    is, when it dominates the second or ties with it on every objective. *)
Lemma dominates_flag (objectives : list string) :
  forall (rj ri : Pareto.row) (vj vi : list num),
    row_values objectives rj = Ok vj ->
    row_values objectives ri = Ok vi ->
    Pareto.dominates objectives rj ri
    = Ok (all_no_worse (direction_of <$> objectives) vj vi).
Proof.
  unfold row_values, all_no_worse.
  induction objectives as [|obj rest IH]; intros rj ri vj vi Hj Hi.
  - reflexivity.
  - simpl in Hj, Hi. cbn [Pareto.dominates].
    destruct (Pareto.cell rj obj) as [xj|e]; [|discriminate].
    destruct (Pareto.cell ri obj) as [xi|e]; [|discriminate].
    simpl in Hj, Hi.
    destruct (mapM (Pareto.cell rj) rest) as [wj|e] eqn:Hwj; [|discriminate].
    destruct (mapM (Pareto.cell ri) rest) as [wi|e] eqn:Hwi; [|discriminate].
    simpl in Hj, Hi. injection Hj as <-. injection Hi as <-.
    specialize (IH rj ri wj wi Hwj Hwi). simpl.
    unfold direction_of at 1, no_worse, better, num_gtb.
    destruct (Pareto.is_maximize obj); simpl;
      destruct (num_ltb _ _); simpl; try reflexivity; exact IH.
Qed.

Lemma row_values_length (objectives : list string) :
  forall (r : Pareto.row) (v : list num),
    row_values objectives r = Ok v -> length v = length objectives.
Proof.
  unfold row_values.
  induction objectives as [|obj rest IH]; intros r v Hv.
  - injection Hv as <-. reflexivity.
  - simpl in Hv. destruct (Pareto.cell r obj) as [x|e]; [|discriminate].
    simpl in Hv. destruct (mapM (Pareto.cell r) rest) as [w|e] eqn:Hw; [|discriminate].
    simpl in Hv. injection Hv as <-. simpl. f_equal. exact (IH r w Hw).
Qed.

Lemma dominates_flag_strict_or_tie (objectives : list string)
      (rj ri : Pareto.row) (vj vi : list num) :
  row_values objectives rj = Ok vj ->
  row_values objectives ri = Ok vi ->
  Pareto.dominates objectives rj ri = Ok true ->
  spec_dominates (direction_of <$> objectives) vj vi = true \/ vj = vi.
Proof.
  intros Hj Hi Hflag. rewrite (dominates_flag objectives rj ri vj vi Hj Hi) in Hflag.
  injection Hflag as Hweak. rewrite spec_dominates_split, Hweak. simpl.
  destruct (some_better (direction_of <$> objectives) vj vi) eqn:Hb; [left; reflexivity|].
  right. apply (no_better_equal (direction_of <$> objectives)).
  - rewrite (row_values_length _ _ _ Hj), (row_values_length _ _ _ Hi). reflexivity.
  - rewrite length_fmap, (row_values_length _ _ _ Hj). reflexivity.
  - exact Hb.
  - apply all_no_worse_not_better. exact Hweak.
Qed.

Lemma sentinel_dominates_nothing (f : list num) :
  length f = 5%nat -> spec_dominates directions sentinel f = false.
Proof.
  intros Hlen. rewrite spec_dominates_split.
  rewrite (proj2 (sentinel_is_worst f Hlen)). apply andb_false_r.
Qed.

End DominanceFacts.

Section ArchiveFacts.
Import GeneticOptimizer Engine.

Lemma valid_dominates_failed (x y : individual) :
  scored x -> valid x -> failed y -> dominates_ind x y = true.
Proof.
  unfold scored, valid, failed, dominates_ind. intros Hs Hv Hf.
  rewrite Hf. apply dominates_sentinel; assumption.
Qed.

Lemma failed_dominates_nothing (x y : individual) :
  failed x -> scored y -> dominates_ind x y = false.
Proof.
  unfold scored, failed, dominates_ind. intros Hf Hs.
  rewrite Hf. apply sentinel_dominates_nothing. exact Hs.
Qed.

Lemma dominator_of_scored_is_valid (h x : individual) :
  scored x -> dominates_ind h x = true -> valid h.
Proof.
  intros Hx Hdom Hfail.
  rewrite (failed_dominates_nothing h x Hfail Hx) in Hdom. discriminate.
Qed.

Lemma archive_insert_subset (ind x : individual) (archive : list individual) :
  x ∈ archive_insert ind archive -> x ∈ archive \/ x = ind.
Proof.
  unfold archive_insert.
  destruct (existsb _ archive); [tauto|].
  destruct (existsb _ (filter _ archive)).
  - intros Hx%list_elem_of_filter. tauto.
  - intros [Hx%list_elem_of_filter|Hx%list_elem_of_singleton]%elem_of_app; tauto.
Qed.

Lemma insert_valid (ind : individual) (archive : list individual) :
  scored ind -> valid ind -> Forall scored archive ->
  settled archive \/ unsettled archive ->
  settled (archive_insert ind archive).
Proof.
  intros Hs Hv Hall Hstate. unfold archive_insert.
  destruct (existsb (fun h => dominates_ind h ind) archive) eqn:Hdom.
  - apply existsb_exists in Hdom as (h & Hin%list_elem_of_In & Hh).
    pose proof (dominator_of_scored_is_valid h ind Hs Hh) as Hhv.
    destruct Hstate as [Hset|Hun]; [exact Hset|].
    unfold unsettled in Hun. rewrite Forall_forall in Hun.
    destruct (Hhv (Hun h Hin)).
  - assert (Hkept : Forall valid (filter (fun h => dominates_ind ind h = false) archive)).
    { apply Forall_forall. intros x [Hnd Hx]%list_elem_of_filter Hfail.
      rewrite (valid_dominates_failed ind x Hs Hv Hfail) in Hnd. discriminate. }
    destruct (existsb _ (filter _ archive)) eqn:Hdup.
    + split; [|exact Hkept].
      apply existsb_exists in Hdup as (h & Hin & _).
      intros Hnil. rewrite Hnil in Hin. destruct Hin.
    + split.
      * intros Hnil. apply app_eq_nil in Hnil as [_ Hnil]. discriminate.
      * apply Forall_app. split; [exact Hkept|]. constructor; [exact Hv|constructor].
Qed.

Lemma insert_settled (ind : individual) (archive : list individual) :
  scored ind -> Forall scored archive -> settled archive ->
  settled (archive_insert ind archive).
Proof.
  intros Hs Hall Hset.
  destruct (decide (values ind = sentinel)) as [Hfail|Hv].
  - destruct Hset as [Hne Hvalid]. unfold archive_insert.
    destruct archive as [|h rest]; [congruence|].
    assert (Hh : dominates_ind h ind = true).
    { apply valid_dominates_failed; [..|exact Hfail].
      - apply Forall_inv in Hall. exact Hall.
      - apply Forall_inv in Hvalid. exact Hvalid. }
    cbn [existsb]. rewrite Hh. simpl. split; assumption.
  - apply insert_valid; auto.
Qed.

Lemma insert_unsettled (ind : individual) (archive : list individual) :
  failed ind -> unsettled archive -> unsettled (archive_insert ind archive).
Proof.
  intros Hf Hun. apply Forall_forall. intros x Hx.
  apply archive_insert_subset in Hx as [Hx| ->]; [|exact Hf].
  unfold unsettled in Hun. rewrite Forall_forall in Hun. auto.
Qed.

Lemma insert_scored (ind : individual) (archive : list individual) :
  scored ind -> Forall scored archive -> Forall scored (archive_insert ind archive).
Proof.
  intros Hs Hall. apply Forall_forall. intros x Hx.
  apply archive_insert_subset in Hx as [Hx| ->]; [|exact Hs].
  rewrite Forall_forall in Hall. auto.
Qed.

Lemma update_settled (offspring : list individual) :
  forall archive : list individual,
    Forall scored offspring -> Forall scored archive -> settled archive ->
    settled (archive_update archive offspring).
Proof.
  unfold archive_update.
  induction offspring as [|x rest IH]; intros archive Hoff Hall Hset; [exact Hset|].
  apply Forall_cons in Hoff as [Hx Hrest]. simpl.
  apply IH; [exact Hrest|apply insert_scored; assumption|].
  apply insert_settled; assumption.
Qed.

Lemma update_scored (offspring : list individual) :
  forall archive : list individual,
    Forall scored offspring -> Forall scored archive ->
    Forall scored (archive_update archive offspring).
Proof.
  unfold archive_update.
  induction offspring as [|x rest IH]; intros archive Hoff Hall; [exact Hall|].
  apply Forall_cons in Hoff as [Hx Hrest]. simpl.
  apply IH; [exact Hrest|apply insert_scored; assumption].
Qed.

Lemma update_reaches_settled (offspring : list individual) :
  forall archive : list individual,
    Forall scored offspring -> Forall scored archive ->
    settled archive \/ unsettled archive ->
    Exists valid offspring ->
    settled (archive_update archive offspring).
Proof.
  induction offspring as [|x rest IH]; intros archive Hoff Hall Hstate Hex.
  - inversion Hex.
  - apply Forall_cons in Hoff as [Hx Hrest].
    change (archive_update archive (x :: rest))
      with (archive_update (archive_insert x archive) rest).
    destruct (decide (values x = sentinel)) as [Hfail|Hv].
    + apply Exists_cons in Hex as [Hv|Hex]; [destruct (Hv Hfail)|].
      apply IH; [exact Hrest|apply insert_scored; assumption| |exact Hex].
      destruct Hstate as [Hset|Hun].
      * left. apply insert_settled; assumption.
      * right. apply insert_unsettled; assumption.
    + apply update_settled; [exact Hrest|apply insert_scored; assumption|].
      apply insert_valid; assumption.
Qed.

Lemma update_keeps_state (offspring : list individual) :
  forall archive : list individual,
    Forall scored offspring -> Forall scored archive ->
    settled archive \/ unsettled archive ->
    settled (archive_update archive offspring)
    \/ unsettled (archive_update archive offspring).
Proof.
  intros archive Hoff Hall Hstate.
  destruct (decide (Exists valid offspring)) as [Hex|Hnone].
  - left. apply update_reaches_settled; assumption.
  - destruct Hstate as [Hset|Hun].
    + left. apply update_settled; assumption.
    + right. revert archive Hall Hun.
      induction offspring as [|x rest IH]; intros archive Hall Hun; [exact Hun|].
      apply Forall_cons in Hoff as [Hx Hrest].
      change (archive_update archive (x :: rest))
        with (archive_update (archive_insert x archive) rest).
      assert (Hfail : failed x).
      { destruct (decide (values x = sentinel)) as [Hf|Hv]; [exact Hf|].
        destruct Hnone. left. exact Hv. }
      apply IH; [exact Hrest| |apply insert_scored; assumption
                |apply insert_unsettled; assumption].
      intros Hex. apply Hnone. right. exact Hex.
Qed.

(** Once any evaluated individual of any batch is valid, the archive built
    from the batches holds no failed individual. *)
Lemma archive_after_settled (batches : list (list individual)) :
  Forall (Forall scored) batches ->
  Exists (Exists valid) batches ->
  settled (archive_after batches).
Proof.
  unfold archive_after.
  assert (Hgen : forall archive,
             Forall scored archive ->
             Forall (Forall scored) batches ->
             (settled archive \/
              (unsettled archive /\ Exists (Exists valid) batches)) ->
             settled (foldl archive_update archive batches)).
  { induction batches as [|b rest IH]; intros archive Hall Hb Hstate.
    - destruct Hstate as [Hset|[_ Hex]]; [exact Hset|inversion Hex].
    - apply Forall_cons in Hb as [Hb Hrest]. simpl.
      apply IH; [apply update_scored; assumption|exact Hrest|].
      destruct Hstate as [Hset|[Hun Hex]].
      + left. apply update_settled; assumption.
      + apply Exists_cons in Hex as [Hex|Hex].
        * left. apply update_reaches_settled; auto.
        * destruct (update_keeps_state b archive Hb Hall (or_intror Hun))
            as [Hset|Hun']; [left; exact Hset|right; split; assumption]. }
  intros Hall Hex. apply Hgen; [constructor|exact Hall|].
  right. split; [constructor|exact Hex].
Qed.

End ArchiveFacts.

(** ** Failed evaluations *)

Section EvaluationFacts.
Import GeneticOptimizer Engine Scenarios.
Context `{PyRuntime}.

Lemma evaluate_body_fitness (self : optimizer) (p : params)
      (call : result sim_value) (now : string) :
  match (evaluate_body self p call now).2 with
  | Ok fit => length fit = 5%nat
  | Raise _ => True
  end.
Proof.
  unfold evaluate_body. destruct call as [[|d|]|e]; simpl; try exact I; try reflexivity.
  destruct (_get_or_create_solution_id self p _ now). reflexivity.
Qed.

(** With eight genes at hand [_evaluate_individual] returns a tuple of five
    values, whatever the oracle does. *)
Lemma evaluate_returns (self : optimizer) (ind : list Z)
      (call : params -> result sim_value) (now : string) :
  (8 <= length ind)%nat ->
  exists fit, (_evaluate_individual self ind call now).2 = Ok fit
              /\ length fit = 5%nat.
Proof.
  intros Hlen. destruct (individual_to_parameters_ok ind Hlen) as [p Hp].
  unfold _evaluate_individual. rewrite Hp.
  pose proof (evaluate_body_fitness self p (call p) now) as Hfit.
  destruct (evaluate_body self p (call p) now) as [self' [fit|e]]; simpl in *.
  - exists fit. split; [reflexivity|exact Hfit].
  - exists sentinel. split; reflexivity.
Qed.

Lemma evaluate_failed (self : optimizer) (ind : list Z)
      (call : params -> result sim_value) (now : string) :
  (8 <= length ind)%nat ->
  (forall p, oracle_failed (call p) = true) ->
  _evaluate_individual self ind call now = (self, Ok sentinel).
Proof.
  intros Hlen Hfail. destruct (individual_to_parameters_ok ind Hlen) as [p Hp].
  unfold _evaluate_individual. rewrite Hp. specialize (Hfail p).
  unfold evaluate_body. destruct (call p) as [[|d|]|e]; try discriminate; reflexivity.
Qed.

(** The evaluation step keeps every individual of the batch in its slot. *)
Lemma evaluate_population_slots (jobs : list job) :
  forall self : optimizer,
    Forall (fun j => (8 <= length (job_genes j))%nat) jobs ->
    exists inds,
      (evaluate_population self jobs).2 = Ok inds
      /\ Forall scored inds
      /\ Forall2 (fun j x =>
                    genes x = job_genes j
                    /\ ((forall p, oracle_failed (job_call j p) = true) ->
                        fitness x = Some sentinel)) jobs inds.
Proof.
  induction jobs as [|j rest IH]; intros self Hjobs.
  - exists []. repeat split; constructor.
  - apply Forall_cons in Hjobs as [Hj Hrest]. cbn [evaluate_population].
    destruct (evaluate_returns self (job_genes j) (job_call j) (job_now j) Hj)
      as (fit & Hfit & Hlen).
    pose proof (fun Hf => evaluate_failed self (job_genes j) (job_call j) (job_now j) Hj Hf)
      as Hfailed.
    destruct (_evaluate_individual self (job_genes j) (job_call j) (job_now j))
      as [self' r]. simpl in Hfit. subst r.
    destruct (IH self' Hrest) as (inds & Hinds & Hscored & Hslots).
    destruct (evaluate_population self' rest) as [self'' r]. simpl in Hinds. subst r.
    eexists. split; [reflexivity|]. split.
    + constructor; [exact Hlen|exact Hscored].
    + constructor; [|exact Hslots]. split; [reflexivity|].
      intros Hf. specialize (Hfailed Hf). simpl. congruence.
Qed.

(** C5 (as amended).  When the oracle call for an eight-gene individual
    raises or returns [None], [_evaluate_individual] returns, without
    raising and without touching the optimiser, the worst value of every
    objective.  That tuple dominates nothing and is dominated by every
    five-value tuple that differs from it in some objective; the archive
    built from batches of evaluated individuals holds no failed individual
    once any individual of any batch has such a value; and the evaluation
    step keeps every individual, failed ones included, in its slot. *)
Theorem C5_failed_evaluation_gets_sentinel
        (self : optimizer) (ind : list Z)
        (call : params -> result sim_value) (now : string)
        (Hgenes : (8 <= length ind)%nat)
        (Hfail : forall p, oracle_failed (call p) = true) :
  _evaluate_individual self ind call now = (self, Ok sentinel)
  /\ (forall (f : list num) (i : nat),
        length f = 5%nat -> f !! i <> sentinel !! i ->
        spec_dominates directions f sentinel = true
        /\ spec_dominates directions sentinel f = false)
  /\ (forall batches : list (list individual),
        Forall (Forall scored) batches -> Exists (Exists valid) batches ->
        forall x, x ∈ archive_after batches -> values x <> sentinel)
  /\ (forall (s : optimizer) (jobs : list job),
        Forall (fun j => (8 <= length (job_genes j))%nat) jobs ->
        exists inds,
          (evaluate_population s jobs).2 = Ok inds
          /\ Forall scored inds
          /\ Forall2 (fun j x =>
                        genes x = job_genes j
                        /\ ((forall p, oracle_failed (job_call j p) = true) ->
                            fitness x = Some sentinel)) jobs inds).
Proof.
  split; [apply evaluate_failed; assumption|].
  split; [|split].
  - intros f i Hlen Hne. split.
    + apply dominates_sentinel; [exact Hlen|]. intros ->. apply Hne. reflexivity.
    + apply sentinel_dominates_nothing. exact Hlen.
  - intros batches Hall Hex x Hx.
    destruct (archive_after_settled batches Hall Hex) as [_ Hvalid].
    rewrite Forall_forall in Hvalid. exact (Hvalid x Hx).
  - intros s jobs Hjobs. apply evaluate_population_slots. exact Hjobs.
Qed.

End EvaluationFacts.

Section EvaluationExamples.
Import GeneticOptimizer Engine Scenarios.

(** C5, an instance: the oracle returns [None] for a genome of the search
    space. *)
Lemma C5_failed_evaluation_witness :
  @_evaluate_individual CPython.runtime fresh genome_a (fun _ => Ok PyNone) stamp
  = (fresh, Ok sentinel).
Proof.
  refine (proj1 (@C5_failed_evaluation_gets_sentinel CPython.runtime fresh genome_a
                   (fun _ => Ok PyNone) stamp _ _)).
  - simpl. lia.
  - intros p. reflexivity.
Defined.

(** C5 as first stated fails: when every evaluation so far has failed, a
    failed individual does enter the archive. *)
Lemma C5_counterexample_failed_individual_archived :
  let run := @evaluate_population CPython.runtime fresh [answers PyNone genome_a] in
  exists x,
    run.2 = Ok [x]
    /\ fitness x = Some sentinel
    /\ archive_after [[x]] = [x].
Proof.
  eexists. split; [vm_compute; reflexivity|].
  split; vm_compute; reflexivity.
Qed.

End EvaluationExamples.

(** ** Reasoning about random draws *)

Section RandFacts.
Import Rand.
Local Open Scope Qc_scope.

Lemma expect_nil {A} (f : result A -> Qc) : expect f [] = 0.
Proof. reflexivity. Qed.

Lemma expect_cons {A} (f : result A -> Qc) (o : result A * Qc) (d : rand A) :
  expect f (o :: d) = f o.1 * o.2 + expect f d.
Proof. reflexivity. Qed.

Lemma expect_app {A} (f : result A -> Qc) (d1 d2 : rand A) :
  expect f (d1 ++ d2)%list = expect f d1 + expect f d2.
Proof.
  induction d1 as [|o d1 IH]; [simpl; ring|].
  change ((o :: d1) ++ d2)%list with (o :: (d1 ++ d2))%list.
  rewrite !expect_cons, IH. ring.
Qed.

Lemma expect_scale {A} (f : result A -> Qc) (p : Qc) (d : rand A) :
  expect f (List.map (scale p) d) = p * expect f d.
Proof.
  induction d as [|o d IH]; [simpl; ring|].
  cbn [List.map]. rewrite !expect_cons, IH. unfold scale. simpl. ring.
Qed.

Lemma expect_ext {A} (f g : result A -> Qc) (d : rand A) :
  (forall r, r ∈ outcomes d -> f r = g r) -> expect f d = expect g d.
Proof.
  unfold outcomes. induction d as [|o d IH]; intros Hfg; [reflexivity|].
  rewrite !expect_cons, IH.
  - rewrite (Hfg o.1); [reflexivity|]. rewrite fmap_cons. left.
  - intros r Hr. apply Hfg. rewrite fmap_cons. right. exact Hr.
Qed.

Lemma expect_mret {A} (f : result A -> Qc) (a : A) :
  expect f (mret a) = f (Ok a).
Proof. unfold mret, rand_ret, ret. rewrite expect_cons. simpl. ring. Qed.

Lemma expect_raise {A} (f : result A -> Qc) (e : exn) :
  expect f (raise e) = f (Raise e).
Proof. unfold raise. rewrite expect_cons. simpl. ring. Qed.

Lemma expect_bind {A B} (f : result B -> Qc) (d : rand A) (k : A -> rand B) :
  expect f (d ≫= k) = expect (after f k) d.
Proof.
  unfold mbind, rand_bind, bind.
  induction d as [|[r w] d IH]; [reflexivity|].
  cbn [flat_map]. rewrite expect_app, IH, expect_cons. cbn [fst snd].
  destruct r as [a|e]; simpl after.
  - rewrite expect_scale. ring.
  - rewrite expect_cons. simpl. ring.
Qed.

Lemma expect_fmap {A B} (f : result B -> Qc) (g : A -> B) (d : rand A) :
  expect f (g <$> d)
  = expect (fun r => f match r with Ok a => Ok (g a) | Raise e => Raise e end) d.
Proof.
  unfold fmap, rand_fmap. change (bind d (fun a => ret (g a))) with (d ≫= fun a => mret (g a)).
  rewrite expect_bind. apply expect_ext. intros [a|e] _; simpl; [|reflexivity].
  apply expect_mret.
Qed.

Lemma expect_random_lt (f : result bool -> Qc) (p : Qc) :
  expect f (random_lt p) = below p * f (Ok true) + (1 - below p) * f (Ok false).
Proof. unfold random_lt. rewrite !expect_cons. simpl. ring. Qed.

Lemma expect_equally_const {A} (f : result A -> Qc) (w c : Qc) (l : list A) :
  (forall v, v ∈ l -> f (Ok v) = c) ->
  expect f (equally w l) = Qc_of_Z (Z.of_nat (length l)) * w * c.
Proof.
  unfold equally. induction l as [|v l IH]; intros Hc.
  - change (expect f [] = Qc_of_Z 0 * w * c). rewrite Z2Qc_inj_0.
    unfold expect. simpl. ring.
  - cbn [List.map]. rewrite expect_cons, IH, length_cons, Nat2Z.inj_succ.
    + rewrite <- Z.add_1_r, Z2Qc_inj_add, Z2Qc_inj_1. cbn [fst snd].
      rewrite (Hc v); [ring|left].
    + intros v' Hv'. apply Hc. right. exact Hv'.
Qed.

Lemma expect_equally_zero {A} (f : result A -> Qc) (w : Qc) (l : list A) :
  (forall v, v ∈ l -> f (Ok v) = 0) -> expect f (equally w l) = 0.
Proof. intros Hz. rewrite (expect_equally_const f w 0 l Hz). ring. Qed.

Lemma expect_equally_point {A} (f : result A -> Qc) (w : Qc) (l : list A) (v0 : A) :
  NoDup l -> v0 ∈ l ->
  (forall v, v ∈ l -> v <> v0 -> f (Ok v) = 0) ->
  expect f (equally w l) = w * f (Ok v0).
Proof.
  induction 1 as [|v l Hnotin Hnd IH]; intros Hin Hz.
  - inversion Hin.
  - change (equally w (v :: l)) with ((Ok v, w) :: equally w l).
    rewrite expect_cons. cbn [fst snd].
    apply elem_of_cons in Hin as [->|Hin].
    + rewrite expect_equally_zero; [ring|].
      intros v' Hv'. apply Hz; [right; exact Hv'|]. intros ->. contradiction.
    + rewrite IH; [|exact Hin|].
      * rewrite (Hz v); [ring|left|]. intros ->. contradiction.
      * intros v' Hv' Hne. apply Hz; [right; exact Hv'|exact Hne].
Qed.

Lemma randint_equally (lo hi : Z) :
  (lo <= hi)%Z ->
  randint lo hi = equally (/ Qc_of_Z (hi - lo + 1)) (seqZ lo (hi - lo + 1)).
Proof.
  intros Hle. unfold randint.
  destruct (Z.ltb_spec hi lo) as [Hlt|_]; [lia|reflexivity].
Qed.

Lemma count_times_inverse (n : Z) :
  (0 < n)%Z -> Qc_of_Z (Z.of_nat (Z.to_nat n)) * / Qc_of_Z n = 1.
Proof.
  intros Hn. rewrite Z2Nat.id by lia. apply Qcmult_inv_r.
  rewrite <- Z2Qc_inj_0. intros Heq%Z2Qc_inj. lia.
Qed.

(** A quantity that does not depend on the number drawn keeps its value. *)
Lemma expect_randint_const (f : result Z -> Qc) (lo hi : Z) (c : Qc) :
  (lo <= hi)%Z ->
  (forall v, (lo <= v <= hi)%Z -> f (Ok v) = c) ->
  expect f (randint lo hi) = c.
Proof.
  intros Hle Hc. rewrite randint_equally by exact Hle.
  rewrite (expect_equally_const f _ c).
  - rewrite length_seqZ, count_times_inverse by lia. ring.
  - intros v Hv%elem_of_seqZ. apply Hc. lia.
Qed.

(** A quantity that vanishes except at one number of the range is weighed
    by the chance of that number. *)
Lemma expect_randint_point (f : result Z -> Qc) (lo hi v0 : Z) :
  (lo <= v0 <= hi)%Z ->
  (forall v, (lo <= v <= hi)%Z -> v <> v0 -> f (Ok v) = 0) ->
  expect f (randint lo hi) = / Qc_of_Z (hi - lo + 1) * f (Ok v0).
Proof.
  intros Hin Hz. rewrite randint_equally by lia.
  apply expect_equally_point.
  - apply NoDup_seqZ.
  - apply elem_of_seqZ. lia.
  - intros v Hv%elem_of_seqZ. apply Hz. lia.
Qed.

Lemma choice_equally {A} (l : list A) :
  l <> [] -> choice l = equally (/ Qc_of_Z (Z.of_nat (length l))) l.
Proof. destruct l; [congruence|reflexivity]. Qed.

Lemma expect_choice_const {A} (f : result A -> Qc) (l : list A) (c : Qc) :
  l <> [] ->
  (forall a, a ∈ l -> f (Ok a) = c) ->
  expect f (choice l) = c.
Proof.
  intros Hne Hc. rewrite choice_equally by exact Hne.
  rewrite (expect_equally_const f _ c l Hc).
  rewrite Qcmult_inv_r; [ring|].
  rewrite <- Z2Qc_inj_0. intros Heq%Z2Qc_inj.
  destruct l; [congruence|]. simpl in Heq. lia.
Qed.

(** *** Outcomes *)

Lemma outcomes_mret {A} (a : A) (r : result A) :
  r ∈ outcomes (mret a) -> r = Ok a.
Proof. unfold outcomes. simpl. intros Hr%list_elem_of_singleton. exact Hr. Qed.

Lemma outcomes_raise {A} (e : exn) (r : result A) :
  r ∈ outcomes (raise e) -> r = Raise e.
Proof. unfold outcomes. simpl. intros Hr%list_elem_of_singleton. exact Hr. Qed.

Lemma outcomes_scale {A} (p : Qc) (d : rand A) :
  outcomes (List.map (scale p) d) = outcomes d.
Proof.
  unfold outcomes. induction d as [|o d IH]; [reflexivity|].
  cbn [List.map]. rewrite !fmap_cons, IH. reflexivity.
Qed.

Lemma outcomes_bind {A B} (d : rand A) (k : A -> rand B) (r : result B) :
  r ∈ outcomes (d ≫= k) ->
  (exists a, Ok a ∈ outcomes d /\ r ∈ outcomes (k a))
  \/ (exists e, Raise e ∈ outcomes d /\ r = Raise e).
Proof.
  unfold mbind, rand_bind, bind, outcomes.
  induction d as [|[x w] d IH]; [intros Hr; inversion Hr|].
  cbn [flat_map]. rewrite fmap_app, fmap_cons. cbn [fst snd].
  intros [Hr|Hr]%elem_of_app.
  - destruct x as [a|e].
    + left. exists a. split; [left|].
      fold (outcomes (List.map (scale w) (k a))) in Hr.
      rewrite outcomes_scale in Hr. exact Hr.
    + right. exists e. split; [left|].
      apply list_elem_of_singleton in Hr. exact Hr.
  - destruct (IH Hr) as [(a & Ha & Hk)|(e & He & ->)].
    + left. exists a. split; [right; exact Ha|exact Hk].
    + right. exists e. split; [right; exact He|reflexivity].
Qed.

Lemma outcomes_equally {A} (w : Qc) (l : list A) (r : result A) :
  r ∈ outcomes (equally w l) -> exists v, r = Ok v /\ v ∈ l.
Proof.
  unfold outcomes, equally. rewrite <- list_fmap_compose.
  intros (v & -> & Hv)%list_elem_of_fmap. exists v. split; [reflexivity|exact Hv].
Qed.

Lemma outcomes_randint (lo hi : Z) (r : result Z) :
  r ∈ outcomes (randint lo hi) ->
  (exists v, r = Ok v /\ (lo <= v <= hi)%Z) \/ (r = Raise ValueError /\ (hi < lo)%Z).
Proof.
  unfold randint. destruct (Z.ltb_spec hi lo) as [Hlt|Hle].
  - intros Hr%outcomes_raise. right. split; assumption.
  - intros (v & -> & Hv%elem_of_seqZ)%outcomes_equally. left. exists v.
    split; [reflexivity|lia].
Qed.

Lemma outcomes_choice {A} (l : list A) (r : result A) :
  r ∈ outcomes (choice l) ->
  (exists a, r = Ok a /\ a ∈ l) \/ (r = Raise IndexError /\ l = []).
Proof.
  destruct l as [|a l].
  - intros Hr%outcomes_raise. right. split; [exact Hr|reflexivity].
  - rewrite choice_equally by discriminate.
    intros (v & -> & Hv)%outcomes_equally. left. exists v. split; [reflexivity|exact Hv].
Qed.

Lemma outcomes_random_lt (p : Qc) (r : result bool) :
  r ∈ outcomes (random_lt p) -> r = Ok true \/ r = Ok false.
Proof.
  unfold outcomes, random_lt. simpl.
  intros [->|[->|Hr]%elem_of_cons]%elem_of_cons; [left|right|inversion Hr]; reflexivity.
Qed.

End RandFacts.

Section AlwaysFacts.
Import Rand.

Lemma always_mret {A} (Q : result A -> Prop) (a : A) :
  Q (Ok a) -> always Q (mret a).
Proof. intros HQ r Hr%outcomes_mret. subst r. exact HQ. Qed.

Lemma always_raise {A} (Q : result A -> Prop) (e : exn) :
  Q (Raise e) -> always Q (raise e).
Proof. intros HQ r Hr%outcomes_raise. subst r. exact HQ. Qed.

Lemma always_bind {A B} (Q : result B -> Prop) (d : rand A) (k : A -> rand B) :
  always (fun r => match r with
                   | Ok a => always Q (k a)
                   | Raise e => Q (Raise e)
                   end) d ->
  always Q (d ≫= k).
Proof.
  intros Hd r [(a & Ha & Hk)|(e & He & ->)]%outcomes_bind.
  - exact (Hd (Ok a) Ha r Hk).
  - exact (Hd (Raise e) He).
Qed.

Lemma always_mono {A} (P Q : result A -> Prop) (d : rand A) :
  (forall r, P r -> Q r) -> always P d -> always Q d.
Proof. intros HPQ Hd r Hr. apply HPQ, Hd, Hr. Qed.

(** A property that every raised exception has survives any first
    computation. *)
Lemma always_bind_any {A B} (Q : result B -> Prop) (d : rand A) (k : A -> rand B) :
  (forall a, always Q (k a)) -> (forall e, Q (Raise e)) -> always Q (d ≫= k).
Proof.
  intros Hk He. apply always_bind. intros [a|e] _; [apply Hk|apply He].
Qed.

Lemma always_fmap {A B} (Q : result B -> Prop) (g : A -> B) (d : rand A) :
  always (fun r => Q match r with Ok a => Ok (g a) | Raise e => Raise e end) d ->
  always Q (g <$> d).
Proof.
  intros Hd. unfold fmap, rand_fmap.
  change (bind d (fun a => ret (g a))) with (d ≫= fun a => mret (g a)).
  apply always_bind. intros [a|e] Hr.
  - apply always_mret. exact (Hd (Ok a) Hr).
  - exact (Hd (Raise e) Hr).
Qed.

Lemma always_randint (Q : result Z -> Prop) (lo hi : Z) :
  (lo <= hi)%Z ->
  (forall v, (lo <= v <= hi)%Z -> Q (Ok v)) ->
  always Q (randint lo hi).
Proof.
  intros Hle HQ r [(v & -> & Hv)|[_ Hlt]]%outcomes_randint; [auto|lia].
Qed.

Lemma always_random_lt (Q : result bool -> Prop) (p : Qc) :
  Q (Ok true) -> Q (Ok false) -> always Q (random_lt p).
Proof. intros Ht Hf r [->| ->]%outcomes_random_lt; assumption. Qed.

Lemma always_choice {A} (Q : result A -> Prop) (l : list A) :
  l <> [] -> (forall a, a ∈ l -> Q (Ok a)) -> always Q (choice l).
Proof.
  intros Hne HQ r [(a & -> & Ha)|[_ Hnil]]%outcomes_choice; [auto|congruence].
Qed.

Lemma mass_bind {A B} (d : rand A) (k : A -> rand B) :
  (forall a, mass (k a) = 1%Qc) -> mass (d ≫= k) = mass d.
Proof.
  intros Hk. unfold mass. rewrite expect_bind. apply expect_ext.
  intros [a|e] _; simpl; [apply Hk|reflexivity].
Qed.

Lemma mass_mret {A} (a : A) : mass (mret a) = 1%Qc.
Proof. unfold mass. apply expect_mret. Qed.

Lemma mass_raise {A} (e : exn) : mass (@raise A e) = 1%Qc.
Proof. unfold mass. apply expect_raise. Qed.

Lemma mass_random_lt (p : Qc) : mass (random_lt p) = 1%Qc.
Proof. unfold mass. rewrite expect_random_lt. ring. Qed.

Lemma mass_randint (lo hi : Z) : mass (randint lo hi) = 1%Qc.
Proof.
  destruct (Z.le_gt_cases lo hi) as [Hle|Hgt].
  - unfold mass. apply expect_randint_const; [exact Hle|reflexivity].
  - unfold randint. destruct (Z.ltb_spec hi lo) as [_|Hle]; [apply mass_raise|lia].
Qed.

Lemma mass_choice {A} (l : list A) : mass (choice l) = 1%Qc.
Proof.
  destruct l as [|a l]; [apply mass_raise|].
  unfold mass. apply expect_choice_const; [discriminate|reflexivity].
Qed.

(** An event that holds on every outcome has the whole mass; one that
    holds on none has chance zero. *)
Lemma prob_always {A} (P : result A -> bool) (d : rand A) :
  always (fun r => P r = true) d -> prob P d = mass d.
Proof.
  intros Hd. unfold prob, mass. apply expect_ext. intros r Hr.
  unfold indicator. rewrite (Hd r Hr). reflexivity.
Qed.

Lemma expect_zero {A} (d : rand A) : expect (fun _ => 0%Qc) d = 0%Qc.
Proof.
  induction d as [|o d IH]; [reflexivity|]. rewrite expect_cons, IH. ring.
Qed.

Lemma prob_never {A} (P : result A -> bool) (d : rand A) :
  always (fun r => P r = false) d -> prob P d = 0%Qc.
Proof.
  intros Hd. unfold prob.
  rewrite (expect_ext _ (fun _ => 0%Qc)); [apply expect_zero|].
  intros r Hr. unfold indicator. rewrite (Hd r Hr). reflexivity.
Qed.

End AlwaysFacts.

(** ** The variation operators *)

Section VariationFacts.
Import Rand GeneticOptimizer Variation.

Lemma sample_genes_cons (nm : string) (lo hi : Z) (rest : list (string * (Z * Z))) :
  sample_genes ((nm, (lo, hi)) :: rest)
  = randint lo hi ≫= fun v => sample_genes rest ≫= fun genes => mret (v :: genes).
Proof. reflexivity. Qed.

(** Sampling never raises on well-formed bounds and every genome it can
    return is within bounds. *)
Lemma sample_in_bounds (bounds : list (string * (Z * Z))) :
  well_formed bounds -> always (returns (in_bounds bounds)) (sample_genes bounds).
Proof.
  induction bounds as [|[nm [lo hi]] rest IH]; intros Hwf.
  - apply always_mret. constructor.
  - apply Forall_cons in Hwf as [Hb Hrest]. simpl in Hb.
    rewrite sample_genes_cons.
    apply always_bind, always_randint; [exact Hb|]. intros v Hv.
    apply always_bind. eapply always_mono; [|exact (IH Hrest)].
    intros [genes|e] Hr; [|destruct Hr].
    apply always_mret. constructor; [simpl; lia|exact Hr].
Qed.

(** Every genome within well-formed bounds has the same chance of being
    sampled: the product of the chances of its genes. *)
Lemma sample_uniform (bounds : list (string * (Z * Z))) :
  well_formed bounds ->
  forall g, in_bounds bounds g ->
            prob (is_genome g) (sample_genes bounds) = one_in_volume bounds.
Proof.
  induction bounds as [|[nm [lo hi]] rest IH]; intros Hwf g Hg.
  - apply Forall2_nil_inv_l in Hg. subst g. unfold prob.
    change (sample_genes []) with (@mret rand _ _ (@nil Z)).
    rewrite expect_mret. reflexivity.
  - apply Forall_cons in Hwf as [Hb Hrest]. simpl in Hb.
    apply Forall2_cons_inv_l in Hg as (g0 & g' & Hg0 & Hg' & ->). simpl in Hg0.
    rewrite sample_genes_cons. unfold prob. rewrite expect_bind.
    rewrite (expect_randint_point _ lo hi g0 Hg0).
    + cbn [one_in_volume foldr fst snd]. f_equal.
      fold (one_in_volume rest). rewrite <- (IH Hrest g' Hg').
      unfold after at 1. rewrite expect_bind. apply expect_ext.
      intros [genes|e] _; unfold after; [|reflexivity].
      rewrite expect_mret. unfold indicator, is_genome.
      rewrite (bool_decide_ext (g0 :: genes = g0 :: g') (genes = g')); [reflexivity|].
      split; [intros [= ->]|intros ->]; reflexivity.
    + intros v _ Hne. unfold after.
      apply (prob_never (is_genome (g0 :: g'))).
      apply always_bind_any; [|reflexivity].
      intros genes. apply always_mret. apply bool_decide_eq_false.
      intros [= Hv _]. contradiction.
Qed.

Lemma mutate_trace_cons (rate : Qc) (i : nat) (nm : string) (lo hi : Z)
      (rest : list (string * (Z * Z))) (ind : list Z) :
  mutate_trace rate i ((nm, (lo, hi)) :: rest) ind
  = random_lt rate ≫= fun hit : bool =>
      if hit
      then randint lo hi ≫= fun v =>
           setitem ind i v ≫= fun ind' =>
           mutate_trace rate (S i) rest ind' ≫= fun r => mret (r.1, true :: r.2)
      else mutate_trace rate (S i) rest ind ≫= fun r => mret (r.1, false :: r.2).
Proof. reflexivity. Qed.

Lemma setitem_in_range (ind : list Z) (i : nat) (v : Z) :
  (i < length ind)%nat -> setitem ind i v = mret (<[i := v]> ind).
Proof. intros Hi. unfold setitem. rewrite decide_True by exact Hi. reflexivity. Qed.

Lemma mutated_from_step (nm : string) (lo hi : Z) (rest : list (string * (Z * Z)))
      (i : nat) (ind ind' : list Z) (hit : bool) (o : list Z * list bool) :
  (i < length ind)%nat ->
  (if hit then exists v, ind' = <[i := v]> ind /\ (lo <= v <= hi)%Z else ind' = ind) ->
  mutated_from rest (S i) ind' o ->
  mutated_from ((nm, (lo, hi)) :: rest) i ind (o.1, hit :: o.2).
Proof.
  intros Hi Hind' (L1 & L2 & Hout & Hin).
  assert (Hlen : length ind' = length ind).
  { destruct hit; [destruct Hind' as (v & -> & _); apply length_insert|congruence]. }
  assert (Hother : forall k, k <> i -> ind' !! k = ind !! k).
  { intros k Hk. destruct hit; [|congruence].
    destruct Hind' as (v & -> & _). apply list_lookup_insert_ne. congruence. }
  split; [|split; [|split]]; cbn [fst snd].
  - congruence.
  - simpl. congruence.
  - intros k Hk. simpl in Hk. rewrite Hout by lia. apply Hother. lia.
  - intros [|k] b Hb.
    + simpl in Hb. injection Hb as <-. rewrite Nat.add_0_r, Hout by lia.
      destruct hit.
      * right. split; [reflexivity|]. destruct Hind' as (v & -> & Hv).
        exists v. split; [apply list_lookup_insert_eq; exact Hi|exact Hv].
      * left. split; [reflexivity|]. congruence.
    + simpl in Hb. replace (i + S k)%nat with (S i + k)%nat by lia.
      destruct (Hin k b Hb) as [[Hf Hg]|[Hf Hg]].
      * left. split; [exact Hf|]. rewrite Hg. apply Hother. lia.
      * right. split; [exact Hf|exact Hg].
Qed.

(** The traced mutation never raises on an individual long enough, and
    what it returns is described by [mutated_from]. *)
Lemma mutate_trace_spec (rate : Qc) (bounds : list (string * (Z * Z))) :
  forall (i : nat) (ind : list Z),
    well_formed bounds ->
    (i + length bounds <= length ind)%nat ->
    always (returns (mutated_from bounds i ind)) (mutate_trace rate i bounds ind).
Proof.
  induction bounds as [|[nm [lo hi]] rest IH]; intros i ind Hwf Hlen.
  - apply always_mret. repeat split; intros k b Hb. inversion Hb.
  - apply Forall_cons in Hwf as [Hb Hrest]. simpl in Hb, Hlen.
    rewrite mutate_trace_cons.
    apply always_bind, always_random_lt.
    + apply always_bind, always_randint; [exact Hb|]. intros v Hv.
      rewrite setitem_in_range by lia.
      apply always_bind, always_mret.
      apply always_bind.
      eapply always_mono; [|apply (IH (S i) (<[i := v]> ind) Hrest)].
      * intros [o|e] Ho; [|destruct Ho]. apply always_mret.
        apply (mutated_from_step nm lo hi rest i ind (<[i := v]> ind) true o);
          [lia|eauto|exact Ho].
      * rewrite length_insert. lia.
    + apply always_bind.
      eapply always_mono; [|apply (IH (S i) ind Hrest)]; [|lia].
      intros [o|e] Ho; [|destruct Ho]. apply always_mret.
      apply (mutated_from_step nm lo hi rest i ind ind false o);
        [lia|reflexivity|exact Ho].
Qed.

Lemma mutated_in_bounds (bounds : list (string * (Z * Z))) (ind : list Z)
      (o : list Z * list bool) :
  in_bounds bounds ind -> mutated_from bounds 0 ind o -> in_bounds bounds o.1.
Proof.
  intros Hind (L1 & L2 & Hout & Hin).
  pose proof (Forall2_length _ _ _ Hind) as Hlen.
  apply Forall2_same_length_lookup_2; [congruence|].
  intros k b y Hb Hy.
  destruct (Hin k b Hb) as [[_ Hg]|[_ (v & Hg & Hv)]]; simpl in Hg.
  - rewrite Hg in Hy.
    exact (Forall2_lookup_lr _ _ _ _ _ _ Hind Hb Hy).
  - rewrite Hg in Hy. injection Hy as <-. exact Hv.
Qed.

(** Mutation keeps an individual within bounds. *)
Lemma mutate_in_bounds (self : optimizer) (ind : list Z) :
  well_formed (parameter_bounds self) ->
  in_bounds (parameter_bounds self) ind ->
  always (returns (in_bounds (parameter_bounds self))) (_mutate_individual self ind).
Proof.
  intros Hwf Hind. unfold _mutate_individual. apply always_fmap.
  eapply always_mono; [|apply mutate_trace_spec; [exact Hwf|]].
  - intros [o|e] Ho; [|destruct Ho]. simpl. eapply mutated_in_bounds; eassumption.
  - rewrite (Forall2_length _ _ _ Hind). simpl. lia.
Qed.

End VariationFacts.

Section CrossoverFacts.
Import Rand GeneticOptimizer Variation.

(** Exchanging same-position segments keeps any position-wise property,
    wherever the cut points fall. *)
Lemma set_slice_Forall2 {A B} (P : A -> B -> Prop) (bs : list A) (l1 l2 : list B)
      (c1 c2 : nat) :
  Forall2 P bs l1 -> Forall2 P bs l2 ->
  Forall2 P bs (set_slice l1 c1 c2 (slice l2 c1 c2)).
Proof.
  intros H1 H2. unfold set_slice, slice.
  destruct (Nat.le_gt_cases c1 c2) as [Hle|Hgt].
  - rewrite Nat.max_r by exact Hle.
    assert (Hbs : bs = (take c1 bs ++ take (c2 - c1) (drop c1 bs) ++ drop c2 bs)%list).
    { rewrite <- (take_drop c1 bs) at 1. f_equal.
      rewrite <- (take_drop (c2 - c1) (drop c1 bs)) at 1. f_equal.
      rewrite drop_drop. f_equal. lia. }
    rewrite Hbs. apply Forall2_app; [apply Forall2_take; exact H1|].
    apply Forall2_app; [apply Forall2_take, Forall2_drop; exact H2|].
    apply Forall2_drop. exact H1.
  - rewrite Nat.max_l by lia. replace (c2 - c1)%nat with 0%nat by lia.
    rewrite take_0. simpl. rewrite take_drop. exact H1.
Qed.

(** Two-point crossover of two parents within bounds never raises when
    there are at least two genes, and both children are within bounds. *)
Lemma cxTwoPoint_in_bounds (bounds : list (string * (Z * Z))) (ind1 ind2 : list Z) :
  (2 <= length bounds)%nat ->
  in_bounds bounds ind1 -> in_bounds bounds ind2 ->
  always (returns (fun c => in_bounds bounds c.1 /\ in_bounds bounds c.2))
         (cxTwoPoint ind1 ind2).
Proof.
  intros Hsize H1 H2. unfold cxTwoPoint.
  pose proof (Forall2_length _ _ _ H1) as L1.
  pose proof (Forall2_length _ _ _ H2) as L2.
  apply always_bind, always_randint; [lia|]. intros p1 Hp1.
  apply always_bind, always_randint; [lia|]. intros p2 Hp2.
  destruct (p2 >=? p1)%Z; apply always_mret; split;
    apply set_slice_Forall2; assumption.
Qed.

Lemma sample2_members {A} (population : list A) :
  always (yields (fun ab => ab.1 ∈ population /\ ab.2 ∈ population))
         (sample2 population).
Proof.
  unfold sample2. destruct (decide (length population < 2)%nat).
  - apply always_raise. exact I.
  - apply always_bind_any; [|intros e; exact I]. intros i.
    apply always_bind_any; [|intros e; exact I]. intros j.
    destruct (population !! i) as [a|] eqn:Ha; [|apply always_raise; exact I].
    destruct (population !! j) as [b|] eqn:Hb; [|apply always_raise; exact I].
    apply always_mret. split; eapply list_elem_of_lookup_2; eassumption.
Qed.

Lemma always_yields_bind {A B} (P : A -> Prop) (Q : B -> Prop)
      (d : rand A) (k : A -> rand B) :
  always (yields P) d ->
  (forall a, P a -> always (yields Q) (k a)) ->
  always (yields Q) (d ≫= k).
Proof.
  intros Hd Hk. apply always_bind. intros [a|e] Hr; [|exact I].
  apply Hk. exact (Hd (Ok a) Hr).
Qed.

Lemma returns_yields {A} (P : A -> Prop) (d : rand A) :
  always (returns P) d -> always (yields P) d.
Proof. apply always_mono. intros [a|e]; [auto|intros []]. Qed.

(** Every offspring of the variation step is within bounds when the
    population is. *)
Lemma varOr_in_bounds (self : optimizer) (population : list (list Z)) :
  well_formed (parameter_bounds self) ->
  (2 <= length (parameter_bounds self))%nat ->
  Forall (in_bounds (parameter_bounds self)) population ->
  always (yields (fun o => in_bounds (parameter_bounds self) o.1))
         (varOr_offspring self population).
Proof.
  intros Hwf Hsize Hpop. rewrite Forall_forall in Hpop. unfold varOr_offspring.
  apply always_bind_any; [|intros e; exact I]. intros [| |].
  - eapply always_yields_bind; [apply sample2_members|].
    intros [a b] [Ha Hb]. cbn [fst snd] in *.
    eapply always_yields_bind.
    + apply returns_yields, (cxTwoPoint_in_bounds (parameter_bounds self)); auto.
    + intros [c1 c2] [Hc1 _]. apply always_mret. exact Hc1.
  - eapply always_yields_bind.
    + intros [a|e] Hr; [|exact I].
      apply outcomes_choice in Hr as [(a' & [= ->] & Ha)|[Hr _]]; [|discriminate].
      exact Ha.
    + intros a Ha. cbv beta in Ha. apply returns_yields.
      eapply always_mono; [|apply mutate_trace_spec; [exact Hwf|]].
      * intros [o|e] Ho; [|destruct Ho].
        eapply mutated_in_bounds; [exact (Hpop a Ha)|exact Ho].
      * rewrite (Forall2_length _ _ _ (Hpop a Ha)). simpl. lia.
  - eapply always_yields_bind.
    + intros [a|e] Hr; [|exact I].
      apply outcomes_choice in Hr as [(a' & [= ->] & Ha)|[Hr _]]; [|discriminate].
      exact Ha.
    + intros a Ha. apply always_mret. exact (Hpop a Ha).
Qed.

End CrossoverFacts.

(** ** Chances of resampling *)

Section MutationChances.
Import Rand GeneticOptimizer Variation.
Local Open Scope Qc_scope.

Lemma mass_setitem (ind : list Z) (i : nat) (v : Z) : mass (setitem ind i v) = 1.
Proof.
  unfold setitem. destruct (decide (i < length ind)%nat);
    [apply mass_mret|apply mass_raise].
Qed.

Lemma mass_mutate_trace (rate : Qc) (bounds : list (string * (Z * Z))) :
  forall (i : nat) (ind : list Z), mass (mutate_trace rate i bounds ind) = 1.
Proof.
  induction bounds as [|[nm [lo hi]] rest IH]; intros i ind; [apply mass_mret|].
  rewrite mutate_trace_cons, mass_bind; [apply mass_random_lt|].
  intros [|].
  - rewrite mass_bind; [apply mass_randint|]. intros v.
    rewrite mass_bind; [apply mass_setitem|]. intros ind'.
    rewrite mass_bind; [apply IH|]. intros r. apply mass_mret.
  - rewrite mass_bind; [apply IH|]. intros r. apply mass_mret.
Qed.

Lemma expect_push (f : result (list Z * list bool) -> Qc) (hit : bool)
      (d : rand (list Z * list bool)) :
  expect f (d ≫= fun r => mret (r.1, hit :: r.2)) = expect (fun r => f (push hit r)) d.
Proof.
  rewrite expect_bind. apply expect_ext. intros [o|e] _; unfold after, push.
  - apply expect_mret.
  - reflexivity.
Qed.

(** One step of the traced mutation, as a weighted sum over its two
    branches. *)
Lemma expect_mutate_step (f : result (list Z * list bool) -> Qc) (rate : Qc)
      (i : nat) (nm : string) (lo hi : Z) (rest : list (string * (Z * Z)))
      (ind : list Z) :
  (i < length ind)%nat ->
  expect f (mutate_trace rate i ((nm, (lo, hi)) :: rest) ind)
  = below rate
    * expect (fun r => match r with
                       | Ok v => expect (fun r' => f (push true r'))
                                        (mutate_trace rate (S i) rest (<[i := v]> ind))
                       | Raise e => f (Raise e)
                       end) (randint lo hi)
    + (1 - below rate)
      * expect (fun r' => f (push false r')) (mutate_trace rate (S i) rest ind).
Proof.
  intros Hi. rewrite mutate_trace_cons, expect_bind, expect_random_lt.
  unfold after at 1 2. rewrite expect_push, expect_bind. do 2 f_equal.
  apply expect_ext. intros [v|e] _; unfold after at 1; [|reflexivity].
  rewrite setitem_in_range by exact Hi.
  rewrite expect_bind, expect_mret. unfold after at 1. apply expect_push.
Qed.

(** Each visited gene is resampled with the chance of
    [random.random() < rate]. *)
Lemma mutate_marginal (rate : Qc) (bounds : list (string * (Z * Z))) :
  forall (i : nat) (ind : list Z) (k : nat),
    well_formed bounds ->
    (i + length bounds <= length ind)%nat ->
    (k < length bounds)%nat ->
    prob (resampled k) (mutate_trace rate i bounds ind) = below rate.
Proof.
  induction bounds as [|[nm [lo hi]] rest IH]; intros i ind k Hwf Hlen Hk.
  - simpl in Hk. lia.
  - apply Forall_cons in Hwf as [Hb Hrest]. simpl in Hb, Hlen, Hk.
    unfold prob. rewrite expect_mutate_step by lia.
    destruct k as [|k].
    + rewrite (expect_randint_const _ lo hi 1 Hb).
      * rewrite (expect_ext _ (fun _ => 0)); [rewrite expect_zero; ring|].
        intros [o|e] _; reflexivity.
      * intros v Hv.
        rewrite <- (mass_mutate_trace rate rest (S i) (<[i := v]> ind)).
        apply expect_ext. intros [o|e] Hr; [reflexivity|].
        destruct (mutate_trace_spec rate rest (S i) (<[i := v]> ind) Hrest
                    ltac:(rewrite length_insert; lia) _ Hr).
    + rewrite (expect_randint_const _ lo hi (below rate) Hb).
      * rewrite (expect_ext (fun r' => indicator (resampled (S k)) (push false r'))
                            (indicator (resampled k))).
        -- pose proof (IH (S i) ind k Hrest ltac:(lia) ltac:(lia)) as Hrec.
           unfold prob in Hrec. rewrite Hrec. ring.
        -- intros [o|e] _; reflexivity.
      * intros v Hv.
        rewrite <- (IH (S i) (<[i := v]> ind) k Hrest
                       ltac:(rewrite length_insert; lia) ltac:(lia)).
        unfold prob. apply expect_ext. intros [o|e] _; reflexivity.
Qed.

(** The flags are independent: a pattern has the product of the chances
    of its flags. *)
Lemma mutate_joint (rate : Qc) (bounds : list (string * (Z * Z))) :
  forall (i : nat) (ind : list Z) (flags : list bool),
    well_formed bounds ->
    (i + length bounds <= length ind)%nat ->
    length flags = length bounds ->
    prob (has_flags flags) (mutate_trace rate i bounds ind) = pattern_chance rate flags.
Proof.
  induction bounds as [|[nm [lo hi]] rest IH]; intros i ind flags Hwf Hlen Hfl.
  - destruct flags; [|discriminate]. unfold prob.
    change (mutate_trace rate i [] ind) with (@mret rand _ _ (ind, @nil bool)).
    rewrite expect_mret. reflexivity.
  - apply Forall_cons in Hwf as [Hb Hrest]. simpl in Hb, Hlen.
    destruct flags as [|hit flags]; [discriminate|]. injection Hfl as Hfl.
    unfold prob. rewrite expect_mutate_step by lia.
    assert (Hpush : forall hit' r,
               indicator (has_flags (hit :: flags)) (push hit' r)
               = if bool_decide (hit' = hit)
                 then indicator (has_flags flags) r else 0).
    { intros hit' [o|e]; unfold push, has_flags, indicator; cbn [fst snd].
      - destruct (decide (hit' = hit)) as [->|Hne].
        + rewrite (bool_decide_eq_true_2 (hit = hit)) by reflexivity.
          rewrite (bool_decide_ext (hit :: o.2 = hit :: flags) (o.2 = flags));
            [reflexivity|].
          split; [intros [= Heq]; exact Heq|intros Heq; rewrite Heq; reflexivity].
        + rewrite (bool_decide_eq_false_2 (hit' = hit)) by exact Hne.
          rewrite bool_decide_eq_false_2; [reflexivity|]. intros [= ? _]. contradiction.
      - destruct (bool_decide (hit' = hit)); reflexivity. }
    rewrite (expect_randint_const _ lo hi
               (if bool_decide (true = hit) then pattern_chance rate flags else 0) Hb).
    + rewrite (expect_ext _ (fun r => if bool_decide (false = hit)
                                      then indicator (has_flags flags) r else 0)
                          _ (fun r _ => Hpush false r)).
      cbn [pattern_chance foldr]. fold (pattern_chance rate flags).
      destruct hit.
      * rewrite bool_decide_eq_true_2 by reflexivity.
        rewrite bool_decide_eq_false_2 by discriminate.
        cbv beta iota. rewrite expect_zero. ring.
      * rewrite bool_decide_eq_false_2 by discriminate.
        rewrite bool_decide_eq_true_2 by reflexivity.
        pose proof (IH (S i) ind flags Hrest ltac:(lia) Hfl) as Hrec.
        unfold prob in Hrec.
        match goal with
        | |- context [expect ?f (mutate_trace rate (S i) rest ind)] =>
            change (expect f (mutate_trace rate (S i) rest ind))
              with (expect (indicator (has_flags flags))
                           (mutate_trace rate (S i) rest ind))
        end.
        rewrite Hrec. ring.
    + intros v Hv.
      rewrite (expect_ext _ (fun r => if bool_decide (true = hit)
                                      then indicator (has_flags flags) r else 0)
                          _ (fun r _ => Hpush true r)).
      destruct (bool_decide (true = hit)); [|apply expect_zero].
      apply (IH (S i) (<[i := v]> ind) flags Hrest); [|exact Hfl].
      rewrite length_insert. lia.
Qed.

(** A resampled gene takes each value of its bound with the same chance. *)
Lemma mutate_value (rate : Qc) (bounds : list (string * (Z * Z))) :
  forall (i : nat) (ind : list Z) (k : nat) (nm : string) (lo hi v : Z),
    well_formed bounds ->
    (i + length bounds <= length ind)%nat ->
    bounds !! k = Some (nm, (lo, hi)) ->
    (lo <= v <= hi)%Z ->
    prob (hit_at i k v) (mutate_trace rate i bounds ind)
    = below rate * / Qc_of_Z (hi - lo + 1).
Proof.
  induction bounds as [|[nm0 [lo0 hi0]] rest IH];
    intros i ind k nm lo hi v Hwf Hlen Hk Hv; [inversion Hk|].
  apply Forall_cons in Hwf as [Hb Hrest]. simpl in Hb, Hlen.
  unfold prob. rewrite expect_mutate_step by lia.
  destruct k as [|k].
  - simpl in Hk. injection Hk as -> -> ->.
    rewrite (expect_ext (fun r' => indicator (hit_at i 0 v) (push false r'))
                        (fun _ => 0)).
    2:{ intros [o|e] _; reflexivity. }
    rewrite expect_zero.
    rewrite (expect_randint_point _ lo hi v Hv).
    + assert (Hone : expect (fun r' => indicator (hit_at i 0 v) (push true r'))
                            (mutate_trace rate (S i) rest (<[i := v]> ind)) = 1).
      { rewrite <- (mass_mutate_trace rate rest (S i) (<[i := v]> ind)).
        apply expect_ext. intros [o|e] Hr.
        - pose proof (mutate_trace_spec rate rest (S i) (<[i := v]> ind) Hrest
                        ltac:(rewrite length_insert; lia) _ Hr) as (_ & _ & Hout & _).
          unfold push, hit_at, indicator. cbn [fst snd].
          rewrite Nat.add_0_r, Hout by lia.
          rewrite list_lookup_insert_eq by lia.
          rewrite !bool_decide_eq_true_2 by reflexivity. reflexivity.
        - destruct (mutate_trace_spec rate rest (S i) (<[i := v]> ind) Hrest
                      ltac:(rewrite length_insert; lia) _ Hr). }
      rewrite Hone. ring.
    + intros v' Hv' Hne.
      rewrite (expect_ext _ (fun _ => 0)); [apply expect_zero|].
      intros [o|e] Hr; [|reflexivity].
      pose proof (mutate_trace_spec rate rest (S i) (<[i := v']> ind) Hrest
                    ltac:(rewrite length_insert; lia) _ Hr) as (_ & _ & Hout & _).
      unfold push, hit_at, indicator. cbn [fst snd].
      rewrite Nat.add_0_r, Hout by lia.
      rewrite list_lookup_insert_eq by lia.
      rewrite (bool_decide_eq_false_2 (Some v' = Some v)); [|congruence].
      rewrite andb_false_r. reflexivity.
  - simpl in Hk.
    assert (Hshift : forall hit' r,
               indicator (hit_at i (S k) v) (push hit' r)
               = indicator (hit_at (S i) k v) r).
    { intros hit' [o|e]; [|reflexivity]. unfold push, hit_at, indicator. cbn [fst snd].
      replace (i + S k)%nat with (S i + k)%nat by lia. reflexivity. }
    rewrite (expect_randint_const _ lo0 hi0 (below rate * / Qc_of_Z (hi - lo + 1)) Hb).
    + rewrite (expect_ext _ _ _ (fun r _ => Hshift false r)).
      pose proof (IH (S i) ind k nm lo hi v Hrest ltac:(lia) Hk Hv) as Hrec.
      unfold prob in Hrec. rewrite Hrec. ring.
    + intros v' Hv'.
      rewrite (expect_ext _ _ _ (fun r _ => Hshift true r)).
      apply (IH (S i) (<[i := v']> ind) k nm lo hi v Hrest); [|exact Hk|exact Hv].
      rewrite length_insert. lia.
Qed.

(** In the variation step a gene is resampled only when the step picks
    mutation for the offspring, and then with the per-gene chance. *)
Lemma varOr_resample_chance (self : optimizer) (population : list (list Z)) (k : nat) :
  well_formed (parameter_bounds self) ->
  population <> [] ->
  Forall (fun g => length g = length (parameter_bounds self)) population ->
  (k < length (parameter_bounds self))%nat ->
  prob (resampled k) (varOr_offspring self population)
  = (below (crossover_rate self + mutation_rate self) - below (crossover_rate self))
    * below (mutation_rate self).
Proof.
  intros Hwf Hne Hpop Hk. rewrite Forall_forall in Hpop.
  assert (Hflat : forall g : list Z,
             resampled k (Ok (g, replicate (length (parameter_bounds self)) false))
             = false).
  { intros g. apply bool_decide_eq_false. cbn [snd].
    rewrite lookup_replicate_2 by exact Hk. discriminate. }
  unfold varOr_offspring, prob. rewrite expect_bind. unfold op_choice.
  rewrite !expect_cons. cbn [fst snd]. unfold after at 1 2 3.
  match goal with
  | |- context [expect ?f (sample2 population ≫= ?K)] =>
      assert (Hcx : expect f (sample2 population ≫= K) = 0)
  end.
  { apply (prob_never (resampled k)).
    apply always_bind_any; [|reflexivity]. intros parents.
    apply always_bind_any; [|reflexivity]. intros children.
    apply always_mret, Hflat. }
  match goal with
  | |- context [expect ?f (choice population ≫= ?K) * (1 - _)] =>
      assert (Hre : expect f (choice population ≫= K) = 0)
  end.
  { apply (prob_never (resampled k)).
    apply always_bind_any; [|reflexivity]. intros ind. apply always_mret, Hflat. }
  match goal with
  | |- context [expect ?f (choice population ≫= ?K) * (below _ - _)] =>
      assert (Hmu : expect f (choice population ≫= K) = below (mutation_rate self))
  end.
  { rewrite expect_bind. apply expect_choice_const; [exact Hne|].
    intros g Hg. unfold after.
    apply (mutate_marginal (mutation_rate self) (parameter_bounds self) 0 g k Hwf);
      [|exact Hk].
    rewrite (Hpop g Hg). simpl. lia. }
  rewrite Hcx, Hre, Hmu, expect_nil. ring.
Qed.

End MutationChances.

Section VariationTheorems.
Import Rand GeneticOptimizer Variation Scenarios.
Local Open Scope Qc_scope.

Lemma below_id (p : Qc) : 0 <= p -> p <= 1 -> below p = p.
Proof.
  intros H0 H1. unfold below.
  destruct (decide (p < 0)) as [Hlt|_]; [destruct (Qcle_not_lt _ _ H0 Hlt)|].
  destruct (decide (1 < p)) as [Hgt|_]; [destruct (Qcle_not_lt _ _ H1 Hgt)|].
  reflexivity.
Qed.

Lemma default_bounds_well_formed : well_formed default_parameter_bounds.
Proof. repeat constructor; simpl; lia. Qed.

Lemma genome_a_in_bounds : in_bounds default_parameter_bounds genome_a.
Proof. repeat constructor; simpl; lia. Qed.

Lemma genome_b_in_bounds : in_bounds default_parameter_bounds genome_b.
Proof. repeat constructor; simpl; lia. Qed.

(** C7.  With well-formed bounds on at least two genes: sampling never
    raises, returns only genomes within bounds and gives every such genome
    the same chance (each gene uniform on its inclusive range,
    independently); mutation of an individual within bounds never raises,
    returns only individuals within bounds and gives a resampled gene each
    value of its range with the same chance; exchanging same-position
    segments of two parents within bounds leaves both children within
    bounds for any cut points, so two-point crossover does; and every
    offspring of the variation step of a population within bounds is
    within bounds. *)
Theorem C7_genes_within_bounds
        (self : optimizer) (ind1 ind2 : list Z) (population : list (list Z))
        (Hwf : well_formed (parameter_bounds self))
        (Hsize : (2 <= length (parameter_bounds self))%nat)
        (H1 : in_bounds (parameter_bounds self) ind1)
        (H2 : in_bounds (parameter_bounds self) ind2)
        (Hpop : Forall (in_bounds (parameter_bounds self)) population) :
  let bounds := parameter_bounds self in
  always (returns (in_bounds bounds)) (toolbox_individual self)
  /\ (forall g, in_bounds bounds g ->
                prob (is_genome g) (toolbox_individual self) = one_in_volume bounds)
  /\ always (returns (in_bounds bounds)) (_mutate_individual self ind1)
  /\ (forall (k : nat) (nm : string) (lo hi v : Z),
        bounds !! k = Some (nm, (lo, hi)) -> (lo <= v <= hi)%Z ->
        prob (hit_at 0 k v) (mutate_trace (mutation_rate self) 0 bounds ind1)
        = below (mutation_rate self) * / Qc_of_Z (hi - lo + 1))
  /\ always (returns (fun c => in_bounds bounds c.1 /\ in_bounds bounds c.2))
            (cxTwoPoint ind1 ind2)
  /\ (forall c1 c2 : nat,
        in_bounds bounds (set_slice ind1 c1 c2 (slice ind2 c1 c2))
        /\ in_bounds bounds (set_slice ind2 c1 c2 (slice ind1 c1 c2)))
  /\ always (yields (fun o => in_bounds bounds o.1)) (varOr_offspring self population).
Proof.
  cbv zeta. split; [apply sample_in_bounds; exact Hwf|].
  split; [apply sample_uniform; exact Hwf|].
  split; [apply mutate_in_bounds; assumption|].
  split.
  { intros k nm lo hi v Hk Hv.
    apply (mutate_value (mutation_rate self) (parameter_bounds self) 0 ind1 k nm lo hi v);
      try assumption.
    rewrite (Forall2_length _ _ _ H1). simpl. lia. }
  split; [apply cxTwoPoint_in_bounds; assumption|].
  split; [|apply varOr_in_bounds; assumption].
  intros c1 c2. split; apply set_slice_Forall2; assumption.
Qed.

(** C7, an instance: the optimiser as [__init__] sets it up and two genomes
    of its search space. *)
Lemma C7_genes_within_bounds_witness :
  always (returns (in_bounds default_parameter_bounds)) (toolbox_individual fresh)
  /\ always (returns (in_bounds default_parameter_bounds))
            (_mutate_individual fresh genome_a).
Proof.
  assert (Hsize : (2 <= length (parameter_bounds fresh))%nat) by (simpl; lia).
  assert (Hpop : Forall (in_bounds (parameter_bounds fresh)) [genome_a; genome_b]).
  { repeat constructor; simpl; lia. }
  pose proof (C7_genes_within_bounds fresh genome_a genome_b [genome_a; genome_b]
                default_bounds_well_formed Hsize
                genome_a_in_bounds genome_b_in_bounds Hpop) as (Hs & _ & Hm & _).
  split; [exact Hs|exact Hm].
Defined.

(** C6 (as amended).  When [_mutate_individual] is applied, each gene is
    resampled with chance [mutation_rate], independently of the others (a
    pattern of flags has the product of the chances of its flags), a
    resampled gene takes each value of its inclusive bound with the same
    chance, and a gene that is not resampled is unchanged.  In the
    variation step that [optimize] runs, with [mutpb = mutation_rate], the
    operator is reached only when the step picks mutation for the
    offspring, so a gene of an offspring is resampled with chance
    [mutation_rate * mutation_rate]. *)
Theorem C6_mutation_per_gene_behind_gate
        (self : optimizer) (ind : list Z) (population : list (list Z)) (k : nat)
        (Hwf : well_formed (parameter_bounds self))
        (Hind : length ind = length (parameter_bounds self))
        (Hk : (k < length (parameter_bounds self))%nat)
        (Hne : population <> [])
        (Hpop : Forall (fun g => length g = length (parameter_bounds self)) population)
        (Hrate : 0 <= mutation_rate self)
        (Hcx : 0 <= crossover_rate self)
        (Hsum : crossover_rate self + mutation_rate self <= 1) :
  let bounds := parameter_bounds self in
  let rate := mutation_rate self in
  let mutation := mutate_trace rate 0 bounds ind in
  _mutate_individual self ind = fst <$> mutation
  /\ prob (resampled k) mutation = rate
  /\ (forall flags, length flags = length bounds ->
                    prob (has_flags flags) mutation = pattern_chance rate flags)
  /\ (forall (nm : string) (lo hi v : Z),
        bounds !! k = Some (nm, (lo, hi)) -> (lo <= v <= hi)%Z ->
        prob (hit_at 0 k v) mutation = rate * / Qc_of_Z (hi - lo + 1))
  /\ always (returns (mutated_from bounds 0 ind)) mutation
  /\ prob (resampled k) (varOr_offspring self population) = rate * rate.
Proof.
  cbv zeta.
  assert (Hlen : (0 + length (parameter_bounds self) <= length ind)%nat) by lia.
  assert (Hr1 : mutation_rate self <= 1).
  { apply Qcle_trans with (crossover_rate self + mutation_rate self); [|exact Hsum].
    rewrite <- (Qcplus_0_l (mutation_rate self)) at 1.
    apply Qcplus_le_mono_r. exact Hcx. }
  assert (Hc1 : crossover_rate self <= 1).
  { apply Qcle_trans with (crossover_rate self + mutation_rate self); [|exact Hsum].
    rewrite <- (Qcplus_0_r (crossover_rate self)) at 1.
    apply Qcplus_le_mono_l. exact Hrate. }
  assert (Hs0 : 0 <= crossover_rate self + mutation_rate self).
  { apply Qcplus_nonneg_nonneg; assumption. }
  pose proof (below_id _ Hrate Hr1) as Brate.
  pose proof (below_id _ Hcx Hc1) as Bcx.
  pose proof (below_id _ Hs0 Hsum) as Bsum.
  split; [reflexivity|].
  split; [rewrite <- Brate at 2; apply mutate_marginal; assumption|].
  split; [intros flags Hfl; apply mutate_joint; assumption|].
  split.
  { intros nm lo hi v Hb Hv. rewrite <- Brate at 2.
    apply (mutate_value _ _ 0 ind k nm lo hi v); assumption. }
  split; [apply mutate_trace_spec; assumption|].
  rewrite (varOr_resample_chance self population k Hwf Hne Hpop Hk).
  rewrite Brate, Bcx, Bsum. ring.
Qed.

Lemma fresh_rates :
  0 <= mutation_rate fresh /\ 0 <= crossover_rate fresh
  /\ crossover_rate fresh + mutation_rate fresh <= 1.
Proof. repeat split; apply (bool_decide_unpack _); vm_compute; exact I. Qed.

(** C6, an instance: gene 1 of a two-member population under the default
    hyperparameters. *)
Lemma C6_mutation_per_gene_witness :
  prob (resampled 1) (mutate_trace (mutation_rate fresh) 0
                                   (parameter_bounds fresh) genome_a)
  = mutation_rate fresh
  /\ prob (resampled 1) (varOr_offspring fresh [genome_a; genome_b])
     = mutation_rate fresh * mutation_rate fresh.
Proof.
  assert (Hk : (1 < length (parameter_bounds fresh))%nat) by (simpl; lia).
  assert (Hne : [genome_a; genome_b] <> []) by discriminate.
  assert (Hpop : Forall (fun g => length g = length (parameter_bounds fresh))
                        [genome_a; genome_b]).
  { repeat constructor. }
  destruct fresh_rates as (Hrate & Hcx & Hsum).
  pose proof (C6_mutation_per_gene_behind_gate fresh genome_a [genome_a; genome_b] 1
                default_bounds_well_formed eq_refl Hk Hne Hpop Hrate Hcx Hsum)
    as (_ & Hm & _ & _ & _ & Hv).
  split; [exact Hm|exact Hv].
Defined.

(** C6 as first stated fails: under the default hyperparameters
    ([mutation_rate] 1/10, [crossover_rate] 7/10) a gene of an offspring of
    the variation step is resampled with chance 1/100, not 1/10. *)
Lemma C6_counterexample_gate_before_genes :
  prob (resampled 1) (varOr_offspring fresh [genome_a; genome_b]) = Q2Qc (1 # 100)
  /\ mutation_rate fresh = Q2Qc (1 # 10)
  /\ Q2Qc (1 # 100) <> Q2Qc (1 # 10).
Proof.
  split; [|split; [reflexivity|discriminate]].
  rewrite (varOr_resample_chance fresh [genome_a; genome_b] 1).
  - apply Qc_is_canon. vm_compute. reflexivity.
  - exact default_bounds_well_formed.
  - discriminate.
  - repeat constructor.
  - simpl. lia.
Qed.

End VariationTheorems.

(** ** The extractor, row by row *)

Section ExtractorFacts.
Import Pareto ParetoOrder.

Lemma mapM_Ok_Forall2 {A B} (f : A -> result B) (l : list A) (k : list B) :
  mapM f l = Ok k <-> Forall2 (fun x y => f x = Ok y) l k.
Proof.
  revert k. induction l as [|x l IH]; intros k; simpl.
  - split; [intros [= <-]; constructor|intros Hk; inversion Hk; reflexivity].
  - split.
    + destruct (f x) as [y|e] eqn:Hy; simpl; [|discriminate].
      destruct (mapM f l) as [k'|e] eqn:Hk'; simpl; [|discriminate].
      intros [= <-]. constructor; [exact Hy|]. apply IH. reflexivity.
    + intros Hk. inversion Hk as [|x' y l' k' Hy Hk' E1 E2]; subst.
      rewrite Hy. simpl. apply IH in Hk'. rewrite Hk'. reflexivity.
Qed.

Lemma mapM_Ok_total {A B} (f : A -> result B) (l : list A) :
  (forall x, x ∈ l -> exists y, f x = Ok y) -> exists k, mapM f l = Ok k.
Proof.
  induction l as [|x l IH]; intros Hl; [exists []; reflexivity|].
  destruct (Hl x) as [y Hy]; [left|].
  destruct IH as [k Hk]; [intros z Hz; apply Hl; right; exact Hz|].
  exists (y :: k). simpl. rewrite Hy. simpl. rewrite Hk. reflexivity.
Qed.

Lemma complete_lookup (objectives : list string) (r : row) (obj : string) :
  complete objectives r = true -> obj ∈ objectives -> is_Some (r !! obj).
Proof.
  unfold complete. rewrite forallb_forall. intros Hc Hin.
  apply list_elem_of_In in Hin. apply Hc in Hin.
  apply bool_decide_eq_true in Hin. exact Hin.
Qed.

(** On rows that have all the objective columns the flag of the inner
    loop is set exactly when row [j] is nowhere worse than row [i]. *)
Lemma dominates_complete (objectives : list string) (rj ri : row) :
  complete objectives rj = true -> complete objectives ri = true ->
  dominates objectives rj ri = Ok (nowhere_worse objectives rj ri).
Proof.
  induction objectives as [|obj rest IH]; intros Hj Hi; [reflexivity|].
  simpl in Hj, Hi. apply andb_true_iff in Hj as [Hj Hj'].
  apply andb_true_iff in Hi as [Hi Hi'].
  apply bool_decide_eq_true in Hj as [vj Hvj].
  apply bool_decide_eq_true in Hi as [vi Hvi].
  cbn [dominates nowhere_worse forallb]. unfold cell, worse_on.
  rewrite Hvj, Hvi. simpl.
  rewrite (IH Hj' Hi'). unfold nowhere_worse.
  destruct (is_maximize obj).
  - destruct (num_ltb vj vi); reflexivity.
  - destruct (num_gtb vj vi); reflexivity.
Qed.

(** The inner [for j] loop: the mask entry stays [True] exactly when no
    other row sets the flag. *)
Lemma scan_spec (objectives : list string) (i : nat) (ri : row)
      (js : list (nat * row)) (b : bool) :
  scan objectives i ri js = Ok b ->
  (b = true <->
   forall j rj, (j, rj) ∈ js -> j <> i -> dominates objectives rj ri = Ok false).
Proof.
  induction js as [|[j rj] js IH]; cbn [scan].
  - intros [= <-]. split; [|reflexivity]. intros _ j rj Hin. inversion Hin.
  - destruct (Nat.eqb_spec i j) as [->|Hne].
    + intros Hs. rewrite (IH Hs). split.
      * intros Hall j' rj' Hin Hj'. apply elem_of_cons in Hin as [[= -> ->]|Hin];
          [congruence|]. apply (Hall j' rj'); assumption.
      * intros Hall j' rj' Hin. apply (Hall j' rj'). right. exact Hin.
    + destruct (dominates objectives rj ri) as [[|]|e] eqn:Hd; simpl.
      * intros [= <-]. split; [discriminate|].
        intros Hall. specialize (Hall j rj). rewrite Hd in Hall.
        discriminate Hall; [left|congruence].
      * intros Hs. rewrite (IH Hs). split.
        -- intros Hall j' rj' Hin Hj'.
           apply elem_of_cons in Hin as [[= -> ->]|Hin]; [exact Hd|].
           apply (Hall j' rj'); assumption.
        -- intros Hall j' rj' Hin. apply (Hall j' rj'). right. exact Hin.
      * discriminate.
Qed.

Lemma lookup_enumerate {A} (l : list A) (i : nat) (x : A) :
  l !! i = Some x -> enumerate l !! i = Some (i, x).
Proof. intros Hl. unfold enumerate. rewrite list_lookup_imap, Hl. reflexivity. Qed.

Lemma elem_of_enumerate {A} (l : list A) (i : nat) (x : A) :
  (i, x) ∈ enumerate l <-> l !! i = Some x.
Proof.
  unfold enumerate. rewrite elem_of_lookup_imap. split.
  - intros (i' & x' & [= -> ->] & Hl). exact Hl.
  - intros Hl. exists i, x. split; [reflexivity|exact Hl].
Qed.

(** The mask has one entry per row, and the entry of row [i] is [True]
    exactly when no other row sets the flag against it. *)
Lemma pareto_mask_spec (objectives : list string) (df : list row) (mask : list bool) :
  pareto_mask objectives df = Ok mask ->
  length mask = length df
  /\ forall i ri, df !! i = Some ri ->
       exists b, mask !! i = Some b
         /\ (b = true <->
             forall j rj, j <> i -> df !! j = Some rj ->
                          dominates objectives rj ri = Ok false).
Proof.
  unfold pareto_mask. rewrite mapM_Ok_Forall2. intros Hall. split.
  - rewrite <- (Forall2_length _ _ _ Hall). unfold enumerate. apply length_imap.
  - intros i ri Hi.
    destruct (Forall2_lookup_l _ _ _ i (i, ri) Hall (lookup_enumerate df i ri Hi))
      as (b & Hb & Hscan).
    exists b. split; [exact Hb|]. simpl in Hscan. rewrite (scan_spec _ _ _ _ _ Hscan).
    split.
    + intros Hjs j rj Hne Hj. apply (Hjs j rj); [|exact Hne].
      apply elem_of_enumerate. exact Hj.
    + intros Hjs j rj Hin Hne. apply (Hjs j rj Hne).
      apply elem_of_enumerate. exact Hin.
Qed.

Lemma select_sublist {A} (mask : list bool) :
  forall df : list A, select mask df `sublist_of` df.
Proof.
  induction mask as [|[|] mask IH]; intros [|r df]; simpl;
    try apply sublist_nil_l.
  - apply sublist_skip, IH.
  - apply sublist_cons, IH.
Qed.

Lemma elem_of_select {A} (mask : list bool) :
  forall (df : list A) (r : A),
    r ∈ select mask df <-> exists i, df !! i = Some r /\ mask !! i = Some true.
Proof.
  induction mask as [|b mask IH]; intros [|r0 df] r.
  - simpl. split; [intros Hin; inversion Hin|intros (i & Hi & _); inversion Hi].
  - simpl. split; [intros Hin; inversion Hin|intros (i & _ & Hi); inversion Hi].
  - destruct b; simpl;
      (split; [intros Hin; inversion Hin|intros (i & Hi & _); inversion Hi]).
  - destruct b; simpl.
    + rewrite elem_of_cons, IH. split.
      * intros [->|(i & Hi & Hm)]; [exists 0%nat; split; reflexivity|].
        exists (S i). split; assumption.
      * intros ([|i] & Hi & Hm); [left; simpl in Hi; congruence|].
        right. exists i. split; assumption.
    + rewrite IH. split.
      * intros (i & Hi & Hm). exists (S i). split; assumption.
      * intros ([|i] & Hi & Hm); [discriminate Hm|].
        exists i. split; assumption.
Qed.

(** Positions in the selection come from positions of the frame, in the
    same order. *)
Lemma select_lookup {A} (mask : list bool) :
  forall (df : list A) (a : nat) (r : A),
    select mask df !! a = Some r ->
    exists i, df !! i = Some r /\ mask !! i = Some true.
Proof.
  intros df a r Ha. apply elem_of_select. eapply list_elem_of_lookup_2. exact Ha.
Qed.

Lemma select_lookup_lt {A} (mask : list bool) :
  forall (df : list A) (a b : nat) (ra rb : A),
    (a < b)%nat ->
    select mask df !! a = Some ra -> select mask df !! b = Some rb ->
    exists i j, (i < j)%nat /\ df !! i = Some ra /\ df !! j = Some rb
                /\ mask !! i = Some true /\ mask !! j = Some true.
Proof.
  induction mask as [|m mask IH]; intros [|r df] a b ra rb Hab Ha Hb;
    try (destruct m; discriminate Ha); try discriminate Ha.
  destruct m; simpl in Ha, Hb.
  - destruct b as [|b]; [lia|]. destruct a as [|a].
    + simpl in Ha, Hb. injection Ha as <-.
      destruct (select_lookup mask df b rb Hb) as (j & Hj & Hm).
      exists 0%nat, (S j). repeat split; [lia|exact Hj|exact Hm].
    + simpl in Ha, Hb.
      destruct (IH df a b ra rb ltac:(lia) Ha Hb) as (i & j & Hij & Hi & Hj & Mi & Mj).
      exists (S i), (S j). repeat split; [lia|assumption..].
  - destruct (IH df a b ra rb Hab Ha Hb) as (i & j & Hij & Hi & Hj & Mi & Mj).
    exists (S i), (S j). repeat split; [lia|assumption..].
Qed.

(** X1.  The front is cut out of the frame: its rows are rows of the frame, in
    the frame's order, each at most as often as in the frame; so the front
    is never longer than the frame. *)
Theorem X1_front_is_sublist_of_frame (df front : list row)
        (objectives : option (list string))
        (Hfront : identify_pareto_frontier df objectives = Ok front) :
  front `sublist_of` df /\ (length front <= length df)%nat.
Proof.
  unfold identify_pareto_frontier in Hfront.
  destruct (pareto_mask (default Pareto.default_objectives objectives) df)
    as [mask|e]; [|discriminate].
  simpl in Hfront. injection Hfront as <-.
  split; [apply select_sublist|apply sublist_length, select_sublist].
Qed.

(** X1, an instance: the frame of four ranked rows and its front on the column [y]. *)
Lemma X1_front_is_sublist_of_frame_witness :
  [ranked_row 2 1] `sublist_of` ranked_df /\ (1 <= 4)%nat.
Proof.
  apply (X1_front_is_sublist_of_frame ranked_df [ranked_row 2 1] (Some ["y"])).
  vm_compute. reflexivity.
Defined.

Lemma complete_frame_lookup (objectives : list string) (df : list row)
      (i : nat) (r : row) :
  complete_frame objectives df = true -> df !! i = Some r ->
  complete objectives r = true.
Proof.
  unfold complete_frame. rewrite forallb_forall. intros Hc Hi.
  apply Hc, list_elem_of_In. eapply list_elem_of_lookup_2. exact Hi.
Qed.

Lemma scan_total (objectives : list string) (i : nat) (ri : row)
      (js : list (nat * row)) :
  (forall j rj, (j, rj) ∈ js -> exists d, dominates objectives rj ri = Ok d) ->
  exists b, scan objectives i ri js = Ok b.
Proof.
  induction js as [|[j rj] js IH]; intros Hjs; [exists true; reflexivity|].
  destruct IH as [b Hb]; [intros j' rj' Hin; apply (Hjs j' rj'); right; exact Hin|].
  cbn [scan]. destruct (Nat.eqb i j); [exists b; exact Hb|].
  destruct (Hjs j rj) as [[|] Hd]; [left| |]; rewrite Hd; simpl; eauto.
Qed.

Lemma pareto_mask_total (objectives : list string) (df : list row) :
  (forall i j ri rj, df !! i = Some ri -> df !! j = Some rj ->
                     exists d, dominates objectives rj ri = Ok d) ->
  exists mask, pareto_mask objectives df = Ok mask.
Proof.
  intros Hd. unfold pareto_mask. apply mapM_Ok_total. intros [i ri] Hi.
  apply elem_of_enumerate in Hi. apply scan_total. intros j rj Hj.
  apply elem_of_enumerate in Hj. exact (Hd i j ri rj Hi Hj).
Qed.

(** On a complete frame the extractor returns, and a row is kept exactly
    when no row at another position is nowhere worse. *)
Lemma kept_rows (objectives : list string) (df : list row) :
  complete_frame objectives df = true ->
  exists mask,
    pareto_mask objectives df = Ok mask
    /\ forall r, r ∈ select mask df <->
         exists i, df !! i = Some r
           /\ forall j rj, j <> i -> df !! j = Some rj ->
                           nowhere_worse objectives rj r = false.
Proof.
  intros Hcomplete.
  assert (Hflag : forall i j ri rj, df !! i = Some ri -> df !! j = Some rj ->
            dominates objectives rj ri = Ok (nowhere_worse objectives rj ri)).
  { intros i j ri rj Hi Hj.
    apply dominates_complete; eapply complete_frame_lookup; eassumption. }
  destruct (pareto_mask_total objectives df) as [mask Hmask].
  { intros i j ri rj Hi Hj. rewrite (Hflag i j ri rj Hi Hj). eauto. }
  exists mask. split; [exact Hmask|].
  destruct (pareto_mask_spec _ _ _ Hmask) as [_ Hspec].
  intros r. rewrite elem_of_select. split.
  - intros (i & Hi & Hm). exists i. split; [exact Hi|].
    destruct (Hspec i r Hi) as (b & Hb & Hiff).
    rewrite Hm in Hb. injection Hb as <-.
    intros j rj Hne Hj. pose proof (proj1 Hiff eq_refl j rj Hne Hj) as Hd.
    rewrite (Hflag i j r rj Hi Hj) in Hd. congruence.
  - intros (i & Hi & Hall). exists i. split; [exact Hi|].
    destruct (Hspec i r Hi) as (b & Hb & Hiff). rewrite Hb. f_equal.
    apply Hiff. intros j rj Hne Hj.
    rewrite (Hflag i j r rj Hi Hj), (Hall j rj Hne Hj). reflexivity.
Qed.

Lemma worse_on_irrefl (obj : string) (r : row) : worse_on obj r r = false.
Proof.
  unfold worse_on. destruct (r !! obj) as [v|]; [|reflexivity].
  unfold num_gtb. rewrite num_ltb_irrefl. destruct (is_maximize obj); reflexivity.
Qed.

Lemma beats_irrefl (objectives : list string) (r : row) : beats objectives r r = false.
Proof.
  unfold beats. apply andb_false_iff. right.
  induction objectives as [|obj rest IH]; [reflexivity|].
  simpl. rewrite worse_on_irrefl. exact IH.
Qed.

(** A row that is nowhere worse than another either beats it or ties
    with it. *)
Lemma nowhere_worse_beats_or_tie (objectives : list string) (a b : row) :
  nowhere_worse objectives a b = true ->
  beats objectives a b = true \/ tie objectives a b = true.
Proof.
  intros Hnw. unfold beats, tie. rewrite Hnw. simpl.
  destruct (existsb (fun obj => worse_on obj b a) objectives) eqn:Hex; [left; reflexivity|].
  right. unfold nowhere_worse. apply forallb_forall. intros obj Hin.
  apply negb_true_iff.
  destruct (worse_on obj b a) eqn:Hw; [|reflexivity].
  assert (existsb (fun obj => worse_on obj b a) objectives = true) as Hex'.
  { apply existsb_exists. exists obj. split; assumption. }
  congruence.
Qed.

Lemma tie_free_lookup (objectives : list string) (df : list row)
      (i j : nat) (ri rj : row) :
  tie_free objectives df = true -> i <> j ->
  df !! i = Some ri -> df !! j = Some rj -> tie objectives rj ri = false.
Proof.
  unfold tie_free. rewrite forallb_forall. intros Hfree Hne Hi Hj.
  specialize (Hfree (i, ri)). simpl in Hfree.
  rewrite forallb_forall in Hfree.
  specialize (Hfree ltac:(apply list_elem_of_In, elem_of_enumerate; exact Hi) (j, rj)).
  simpl in Hfree.
  specialize (Hfree ltac:(apply list_elem_of_In, elem_of_enumerate; exact Hj)).
  apply orb_true_iff in Hfree as [Heq|Hnt].
  - apply Nat.eqb_eq in Heq. contradiction.
  - apply negb_true_iff. exact Hnt.
Qed.

(** X2.  Which rows are kept: on a frame whose rows have all the objective
    columns the extractor returns a front, and a row is in it exactly when
    it sits at some position of the frame such that no row at another
    position is at least as good on every objective. *)
Theorem X2_front_keeps_unchallenged_rows (df : list row) (objectives : list string)
        (Hcomplete : complete_frame objectives df = true) :
  exists front,
    identify_pareto_frontier df (Some objectives) = Ok front
    /\ forall r, r ∈ front <->
         exists i, df !! i = Some r
           /\ forall j rj, j <> i -> df !! j = Some rj ->
                           nowhere_worse objectives rj r = false.
Proof.
  destruct (kept_rows objectives df Hcomplete) as (mask & Hmask & Hkept).
  exists (select mask df). split; [|exact Hkept].
  unfold identify_pareto_frontier. simpl default. rewrite Hmask. reflexivity.
Qed.

(** X2, an instance: the frame of four ranked rows with the objective [y]. *)
Lemma X2_front_keeps_unchallenged_rows_witness :
  exists front,
    identify_pareto_frontier ranked_df (Some ["y"]) = Ok front
    /\ forall r, r ∈ front <->
         exists i, ranked_df !! i = Some r
           /\ forall j rj, j <> i -> ranked_df !! j = Some rj ->
                           nowhere_worse ["y"] rj r = false.
Proof.
  apply (X2_front_keeps_unchallenged_rows ranked_df ["y"]). vm_compute. reflexivity.
Defined.

(** X3.  The front holds no beaten row: on a complete frame, no row of the
    frame is at least as good as a member of the front on every objective
    and better on one. *)
Theorem X3_front_has_no_beaten_row (df : list row) (objectives : list string)
        (Hcomplete : complete_frame objectives df = true) :
  exists front,
    identify_pareto_frontier df (Some objectives) = Ok front
    /\ forall r r', r ∈ front -> r' ∈ df -> beats objectives r' r = false.
Proof.
  destruct (kept_rows objectives df Hcomplete) as (mask & Hmask & Hkept).
  exists (select mask df). split.
  { unfold identify_pareto_frontier. simpl default. rewrite Hmask. reflexivity. }
  intros r r' Hr Hr'. apply Hkept in Hr as (i & Hi & Hall).
  apply list_elem_of_lookup in Hr' as [j Hj].
  destruct (decide (j = i)) as [->|Hne].
  - rewrite Hi in Hj. injection Hj as <-. apply beats_irrefl.
  - unfold beats. rewrite (Hall j r' Hne Hj). reflexivity.
Qed.

(** X3, an instance: the frame of four ranked rows with the objective [y]. *)
Lemma X3_front_has_no_beaten_row_witness :
  exists front,
    identify_pareto_frontier ranked_df (Some ["y"]) = Ok front
    /\ forall r r', r ∈ front -> r' ∈ ranked_df -> beats ["y"] r' r = false.
Proof.
  apply (X3_front_has_no_beaten_row ranked_df ["y"]). vm_compute. reflexivity.
Defined.

(** X4.  Without ties the extractor is exact: on a complete frame in which no
    two rows tie on all objectives, the front consists of the rows of the
    frame that no row of the frame beats. *)
Theorem X4_front_exact_without_ties (df : list row) (objectives : list string)
        (Hcomplete : complete_frame objectives df = true)
        (Hfree : tie_free objectives df = true) :
  exists front,
    identify_pareto_frontier df (Some objectives) = Ok front
    /\ forall r, r ∈ front <->
         (r ∈ df /\ forall r', r' ∈ df -> beats objectives r' r = false).
Proof.
  destruct (kept_rows objectives df Hcomplete) as (mask & Hmask & Hkept).
  exists (select mask df). split.
  { unfold identify_pareto_frontier. simpl default. rewrite Hmask. reflexivity. }
  intros r. rewrite Hkept. split.
  - intros (i & Hi & Hall). split; [eapply list_elem_of_lookup_2; exact Hi|].
    intros r' Hr'. apply list_elem_of_lookup in Hr' as [j Hj].
    destruct (decide (j = i)) as [->|Hne].
    + rewrite Hi in Hj. injection Hj as <-. apply beats_irrefl.
    + unfold beats. rewrite (Hall j r' Hne Hj). reflexivity.
  - intros [Hr Hall]. apply list_elem_of_lookup in Hr as [i Hi].
    exists i. split; [exact Hi|]. intros j rj Hne Hj.
    destruct (nowhere_worse objectives rj r) eqn:Hnw; [|reflexivity].
    destruct (nowhere_worse_beats_or_tie objectives rj r Hnw) as [Hb|Ht].
    + rewrite (Hall rj) in Hb; [discriminate|].
      eapply list_elem_of_lookup_2. exact Hj.
    + rewrite (tie_free_lookup objectives df i j r rj Hfree) in Ht;
        [discriminate|congruence|exact Hi|exact Hj].
Qed.

(** X4, an instance: the frame of four ranked rows, no two alike on [y]. *)
Lemma X4_front_exact_without_ties_witness :
  exists front,
    identify_pareto_frontier ranked_df (Some ["y"]) = Ok front
    /\ forall r, r ∈ front <->
         (r ∈ ranked_df /\ forall r', r' ∈ ranked_df -> beats ["y"] r' r = false).
Proof.
  apply (X4_front_exact_without_ties ranked_df ["y"]); vm_compute; reflexivity.
Defined.

(** X5.  Extracting twice changes nothing: the front of a front is that front. *)
Theorem X5_front_of_front (df front : list row) (objectives : list string)
        (Hfront : identify_pareto_frontier df (Some objectives) = Ok front) :
  identify_pareto_frontier front (Some objectives) = Ok front.
Proof.
  unfold identify_pareto_frontier in Hfront. simpl default in Hfront.
  destruct (pareto_mask objectives df) as [mask|e] eqn:Hmask; [|discriminate].
  simpl in Hfront. injection Hfront as <-.
  destruct (pareto_mask_spec _ _ _ Hmask) as [_ Hspec].
  assert (Hpair : forall i j ri rj, i <> j -> df !! i = Some ri -> df !! j = Some rj ->
            mask !! i = Some true -> dominates objectives rj ri = Ok false).
  { intros i j ri rj Hne Hi Hj Hm. destruct (Hspec i ri Hi) as (b & Hb & Hiff).
    rewrite Hm in Hb. injection Hb as <-.
    apply (proj1 Hiff eq_refl j rj); [congruence|exact Hj]. }
  apply extractor_keeps_unchallenged. intros a b ra rb Hne Ha Hb.
  destruct (Nat.lt_total a b) as [Hlt|[Heq|Hlt]]; [|contradiction|].
  - destruct (select_lookup_lt mask df a b ra rb Hlt Ha Hb)
      as (i & j & Hij & Hi & Hj & Mi & Mj).
    apply (Hpair i j); [lia|assumption..].
  - destruct (select_lookup_lt mask df b a rb ra Hlt Hb Ha)
      as (j & i & Hij & Hj & Hi & Mj & Mi).
    apply (Hpair i j); [lia|assumption..].
Qed.

(** X5, an instance: the front of the four ranked rows, extracted again. *)
Lemma X5_front_of_front_witness :
  identify_pareto_frontier [ranked_row 2 1] (Some ["y"]) = Ok [ranked_row 2 1].
Proof.
  apply (X5_front_of_front ranked_df [ranked_row 2 1] ["y"]). vm_compute. reflexivity.
Defined.

Lemma select_none {A} (mask : list bool) (df : list A) :
  (forall i, mask !! i <> Some true) -> select mask df = [].
Proof.
  intros Hnone. apply elem_of_nil_inv. intros r Hr.
  apply elem_of_select in Hr as (i & _ & Hm). exact (Hnone i Hm).
Qed.

(** X6.  With an empty list of objectives nothing clears the flag, so every
    row of a frame with two or more rows is discarded; a frame with fewer
    rows is returned as it is. *)
Theorem X6_front_for_no_objectives (df : list row) :
  identify_pareto_frontier df (Some [])
  = Ok (if (length df <? 2)%nat then df else []).
Proof.
  destruct (pareto_mask_total [] df) as [mask Hmask]; [simpl; eauto|].
  unfold identify_pareto_frontier. simpl default. rewrite Hmask. simpl. f_equal.
  destruct (pareto_mask_spec _ _ _ Hmask) as [Hlen Hspec].
  destruct (Nat.ltb_spec (length df) 2) as [Hshort|Hlong].
  - destruct df as [|r0 [|r1 df]]; [destruct mask as [|[|] ?]; reflexivity| |simpl in Hshort; lia].
    destruct (Hspec 0%nat r0 eq_refl) as (b & Hb & Hiff).
    destruct mask as [|b' [|? ?]]; try discriminate. simpl in Hb. injection Hb as ->.
    destruct b; [reflexivity|]. exfalso.
    assert (false = true); [|discriminate].
    apply Hiff. intros [|j] rj Hne Hj; [congruence|discriminate].
  - apply select_none. intros i Hm.
    assert (is_Some (df !! i)) as [ri Hi].
    { apply lookup_lt_is_Some. rewrite <- Hlen. eapply lookup_lt_Some. exact Hm. }
    destruct (Hspec i ri Hi) as (b & Hb & Hiff). rewrite Hm in Hb. injection Hb as <-.
    set (j := if decide (i = 0%nat) then 1%nat else 0%nat).
    assert (j <> i) as Hne by (unfold j; destruct (decide (i = 0%nat)); lia).
    assert (is_Some (df !! j)) as [rj Hj].
    { apply lookup_lt_is_Some. unfold j. destruct (decide (i = 0%nat)); lia. }
    pose proof (proj1 Hiff eq_refl j rj Hne Hj) as Hd. discriminate.
Qed.

(** X7.  An objective column that the frame does not have goes unnoticed on a
    frame with fewer than two rows, which is returned whole; with two or
    more rows looking it up raises [KeyError]. *)
Theorem X7_front_for_missing_column (df : list row) (obj : string) (rest : list string)
        (Hmissing : forall r, r ∈ df -> r !! obj = None) :
  identify_pareto_frontier df (Some (obj :: rest))
  = if (length df <? 2)%nat then Ok df else Raise (KeyError obj).
Proof.
  destruct df as [|r0 [|r1 df]]; [reflexivity|reflexivity|].
  assert (Hr1 : r1 !! obj = None) by (apply Hmissing; right; left).
  assert (Hscan : scan (obj :: rest) 0 r0 (enumerate (r0 :: r1 :: df))
                  = Raise (KeyError obj)).
  { unfold enumerate. cbn [imap]. unfold compose. cbn [scan Nat.eqb dominates].
    unfold cell. rewrite Hr1. reflexivity. }
  unfold identify_pareto_frontier, pareto_mask. simpl default.
  set (f := fun '(i, ri) => scan (obj :: rest) i ri (enumerate (r0 :: r1 :: df))).
  assert (Hmask : mapM f (enumerate (r0 :: r1 :: df)) = Raise (KeyError obj)).
  { unfold enumerate. cbn [imap mapM].
    change (f (0%nat, r0)) with (scan (obj :: rest) 0 r0 (enumerate (r0 :: r1 :: df))).
    rewrite Hscan. reflexivity. }
  rewrite Hmask. reflexivity.
Qed.

(** X7, an instance: the four ranked rows have no column [profit]. *)
Lemma X7_front_for_missing_column_witness :
  identify_pareto_frontier ranked_df (Some ["profit"; "y"]) = Raise (KeyError "profit").
Proof.
  apply (X7_front_for_missing_column ranked_df "profit" ["y"]).
  intros r Hr. repeat (apply elem_of_cons in Hr as [->|Hr]; [reflexivity|]).
  inversion Hr.
Defined.

End ExtractorFacts.

(** ** Encoding genomes as parameter dictionaries *)

Section EncodingFacts.
Import GeneticOptimizer Engine Persist Tracking JavaModelInterface.
Context `{PyRuntime}.

Lemma encoding_lookup (individual : list Z) (p : params) :
  _individual_to_parameters individual = Ok p ->
  forall k name, parameter_names !! k = Some name -> p !! name = individual !! k.
Proof.
  intros Hp.
  do 8 (destruct individual as [|? individual]; [discriminate Hp|]).
  injection Hp as <-. intros k name Hk.
  do 8 (destruct k as [|k]; [injection Hk as <-; reflexivity|]).
  discriminate Hk.
Qed.

(** The payload [run_simulation] builds from an encoded genome is the
    dictionary itself: no default is used. *)
Lemma payload_of_encoding (individual : list Z) (p : params) :
  _individual_to_parameters individual = Ok p -> iteration_data p = p.
Proof.
  intros Hp.
  do 8 (destruct individual as [|? individual]; [discriminate Hp|]).
  injection Hp as <-. reflexivity.
Qed.

(** X8.  Fewer than eight genes raise [IndexError]; otherwise the dictionary
    has exactly the eight parameter names as keys and holds gene [k] under
    the [k]-th name, whatever follows the eighth gene. *)
Theorem X8_encoding_of_genome (individual : list Z) :
  if (length individual <? 8)%nat
  then _individual_to_parameters individual = Raise IndexError
  else exists p,
      _individual_to_parameters individual = Ok p
      /\ dom p = list_to_set parameter_names
      /\ (forall k name, parameter_names !! k = Some name ->
                         p !! name = individual !! k)
      /\ _individual_to_parameters (take 8 individual) = Ok p.
Proof.
  destruct (Nat.ltb_spec (length individual) 8) as [Hshort|Hlong].
  - do 8 (destruct individual as [|? individual]; [reflexivity|]).
    simpl in Hshort. lia.
  - destruct (individual_to_parameters_ok individual Hlong) as [p Hp].
    exists p. split; [exact Hp|]. split; [|split].
    + do 8 (destruct individual as [|? individual]; [discriminate Hp|]).
      injection Hp as <-. rewrite !dom_insert_L, dom_empty_L. reflexivity.
    + apply encoding_lookup. exact Hp.
    + do 8 (destruct individual as [|? individual]; [discriminate Hp|]).
      exact Hp.
Qed.

(** X9.  Two genomes with the same dictionary agree on their first eight
    genes: on the search space the encoding loses nothing. *)
Theorem X9_encoding_is_injective (g1 g2 : list Z) (p : params)
        (H1 : _individual_to_parameters g1 = Ok p)
        (H2 : _individual_to_parameters g2 = Ok p) :
  take 8 g1 = take 8 g2.
Proof.
  pose proof (encoding_lookup g1 p H1) as L1.
  pose proof (encoding_lookup g2 p H2) as L2.
  apply list_eq. intros k.
  destruct (decide (k < 8)%nat) as [Hk|Hk].
  - rewrite !lookup_take_lt by exact Hk.
    destruct (lookup_lt_is_Some_2 parameter_names k Hk) as [name Hname].
    rewrite <- (L1 k name Hname), <- (L2 k name Hname). reflexivity.
  - rewrite !lookup_take_ge by lia. reflexivity.
Qed.

(** X9, an instance: a genome and the same genome with a ninth gene. *)
Lemma X9_encoding_is_injective_witness :
  take 8 [3; 800; 8; 2; 2; 800; 18; 1; 99]%Z = take 8 [3; 800; 8; 2; 2; 800; 18; 1]%Z.
Proof.
  eapply (X9_encoding_is_injective [3; 800; 8; 2; 2; 800; 18; 1; 99]%Z
                                [3; 800; 8; 2; 2; 800; 18; 1]%Z);
    reflexivity.
Defined.

(** X10.  Evaluation through the interface, as [_evaluate_individual] wires it:
    the dictionary of the genome is posted as it is; a response with
    status 200 whose body decodes to an object yields the KPI tuple read
    from it and registers the dictionary; in every other case (the request
    raises, the status differs, the body does not decode or is not an
    object) the optimiser is left as it was and the worst tuple is
    returned. *)
Theorem X10_evaluation_through_interface (self : optimizer) (individual : list Z)
        (post : transport) (now : string)
        (Hgenes : (8 <= length individual)%nat) :
  exists p,
    _individual_to_parameters individual = Ok p
    /\ _evaluate_individual self individual (run_simulation post) now
       = match post p with
         | Ok response =>
             if (status_code response =? 200)%Z
             then match json response with
                  | Ok (PyResults d) =>
                      ((_get_or_create_solution_id self p (kpis_of d) now).1,
                       Ok (kpis_of d))
                  | _ => (self, Ok sentinel)
                  end
             else (self, Ok sentinel)
         | Raise _ => (self, Ok sentinel)
         end.
Proof.
  destruct (individual_to_parameters_ok individual Hgenes) as [p Hp].
  exists p. split; [exact Hp|].
  unfold _evaluate_individual. rewrite Hp.
  unfold run_simulation, try_except. rewrite (payload_of_encoding individual p Hp).
  destruct (post p) as [response|e]; simpl.
  - destruct (status_code response =? 200)%Z; [|reflexivity].
    destruct (json response) as [[|d|]|e]; try reflexivity.
    + unfold evaluate_body. simpl. fold (kpis_of d).
      destruct (_get_or_create_solution_id self p (kpis_of d) now). reflexivity.
    + destruct e; reflexivity.
  - destruct e; reflexivity.
Qed.

End EncodingFacts.

Section EncodingExamples.
Import GeneticOptimizer Engine Persist Tracking JavaModelInterface Scenarios.

(** X10, an instance: a request that times out, on a new optimiser. *)
Lemma X10_evaluation_through_interface_witness :
  exists p,
    _individual_to_parameters genome_a = Ok p
    /\ @_evaluate_individual CPython.runtime fresh genome_a
         (run_simulation (fun _ => Raise Timeout)) stamp
       = (fresh, Ok sentinel).
Proof.
  destruct (@X10_evaluation_through_interface CPython.runtime fresh genome_a
              (fun _ => Raise Timeout) stamp) as (p & Hp & Heval).
  - vm_compute. lia.
  - exists p. split; [exact Hp|exact Heval].
Defined.

End EncodingExamples.

(** ** The registry over a run of evaluations *)

Section RunFacts.
Import GeneticOptimizer Engine Persist Tracking.
Context `{PyRuntime}.

(** What one evaluation does to the optimiser. *)
Lemma evaluate_state (self : optimizer) (individual : list Z)
      (call : params -> result sim_value) (now : string) :
  (_evaluate_individual self individual call now).1
  = match _individual_to_parameters individual with
    | Ok p =>
        match call p with
        | Ok (PyResults d) => (_get_or_create_solution_id self p (kpis_of d) now).1
        | _ => self
        end
    | Raise _ => self
    end.
Proof.
  unfold _evaluate_individual.
  destruct (_individual_to_parameters individual) as [p|e]; [|reflexivity].
  unfold evaluate_body. destruct (call p) as [[|d|]|e]; try reflexivity.
  simpl. fold (kpis_of d).
  destruct (_get_or_create_solution_id self p (kpis_of d) now). reflexivity.
Qed.

Lemma after_evaluations_cons (self : optimizer) (j : job) (jobs : list job) :
  after_evaluations self (j :: jobs)
  = after_evaluations
      (_evaluate_individual self (job_genes j) (job_call j) (job_now j)).1 jobs.
Proof. reflexivity. Qed.

Lemma after_evaluations_app (self : optimizer) (jobs1 jobs2 : list job) :
  after_evaluations self (jobs1 ++ jobs2)
  = after_evaluations (after_evaluations self jobs1) jobs2.
Proof. unfold after_evaluations. apply foldl_app. Qed.

Lemma registry_inv_init (size gens : Z) (mr cr : Qc) :
  registry_inv (init size gens mr cr).
Proof.
  split; [reflexivity|]. split; [reflexivity|].
  intros h sid. simpl. rewrite lookup_empty. split; [discriminate|].
  intros (r & Hr & _). inversion Hr.
Qed.

Lemma registry_inv_get (self : optimizer) (p : params) (kpis : list num)
      (now : string) :
  registry_inv self -> registry_inv (_get_or_create_solution_id self p kpis now).1.
Proof.
  intros (Hc & Hids & Hreg). unfold _get_or_create_solution_id.
  destruct (solution_ids self !! param_hash p) eqn:Hk; [repeat split; try assumption; apply Hreg|].
  destruct self as [ps gn mr cr counter ids history pb ob].
  unfold registry_inv. simpl in *.
  split; [|split].
  - rewrite length_app. simpl. lia.
  - rewrite length_app. simpl length.
    replace (length history + 1)%nat with (S (length history)) by lia.
    rewrite seqZ_S, !fmap_app, <- Hids. simpl. rewrite Hc.
    rewrite (Z.add_comm 1). reflexivity.
  - intros h sid. destruct (decide (h = param_hash p)) as [->|Hne].
    + rewrite lookup_insert_eq. split.
      * intros [= <-]. eexists. split; [apply elem_of_app; right; left|].
        split; reflexivity.
      * intros (r & Hr & Hh & Hs). apply elem_of_app in Hr as [Hr|Hr].
        -- assert (ids !! param_hash p = Some sid) as Hsome.
           { apply Hreg. exists r. repeat split; assumption. }
           congruence.
        -- apply list_elem_of_singleton in Hr. subst r. simpl in Hs. congruence.
    + rewrite lookup_insert_ne by congruence. rewrite Hreg. split.
      * intros (r & Hr & Hh & Hs). exists r. split; [apply elem_of_app; left; exact Hr|].
        split; assumption.
      * intros (r & Hr & Hh & Hs). apply elem_of_app in Hr as [Hr|Hr].
        -- exists r. repeat split; assumption.
        -- apply list_elem_of_singleton in Hr. subst r. simpl in Hh. congruence.
Qed.

Lemma registry_inv_evaluate (self : optimizer) (individual : list Z)
      (call : params -> result sim_value) (now : string) :
  registry_inv self ->
  registry_inv (_evaluate_individual self individual call now).1.
Proof.
  intros Hinv. rewrite evaluate_state.
  destruct (_individual_to_parameters individual) as [p|e]; [|exact Hinv].
  destruct (call p) as [[|d|]|e]; try exact Hinv.
  apply registry_inv_get. exact Hinv.
Qed.

Lemma registry_inv_run (jobs : list job) :
  forall self, registry_inv self -> registry_inv (after_evaluations self jobs).
Proof.
  induction jobs as [|j jobs IH]; intros self Hinv; [exact Hinv|].
  rewrite after_evaluations_cons. apply IH, registry_inv_evaluate, Hinv.
Qed.

(** A call of [_get_or_create_solution_id] only adds. *)
Lemma get_grows (self : optimizer) (p : params) (kpis : list num) (now : string) :
  let self' := (_get_or_create_solution_id self p kpis now).1 in
  solution_ids self ⊆ solution_ids self'
  /\ solution_history self `prefix_of` solution_history self'
  /\ (solution_counter self <= solution_counter self')%Z.
Proof.
  unfold _get_or_create_solution_id.
  destruct (solution_ids self !! param_hash p) eqn:Hk; simpl.
  - repeat split; [reflexivity|reflexivity|lia].
  - repeat split; [apply insert_subseteq; exact Hk|apply prefix_app_r; reflexivity|lia].
Qed.

Lemma evaluate_grows (self : optimizer) (individual : list Z)
      (call : params -> result sim_value) (now : string) :
  let self' := (_evaluate_individual self individual call now).1 in
  solution_ids self ⊆ solution_ids self'
  /\ solution_history self `prefix_of` solution_history self'
  /\ (solution_counter self <= solution_counter self')%Z.
Proof.
  cbv zeta. rewrite evaluate_state.
  destruct (_individual_to_parameters individual) as [p|e];
    [|repeat split; [reflexivity|reflexivity|lia]].
  destruct (call p) as [[|d|]|e];
    try (repeat split; [reflexivity|reflexivity|lia]).
  apply get_grows.
Qed.

Lemma run_grows (jobs : list job) :
  forall self,
    solution_ids self ⊆ solution_ids (after_evaluations self jobs)
    /\ solution_history self `prefix_of` solution_history (after_evaluations self jobs)
    /\ (solution_counter self <= solution_counter (after_evaluations self jobs))%Z.
Proof.
  induction jobs as [|j jobs IH]; intros self.
  - repeat split; [reflexivity|reflexivity|simpl; lia].
  - rewrite after_evaluations_cons.
    destruct (evaluate_grows self (job_genes j) (job_call j) (job_now j))
      as (S1 & P1 & C1).
    destruct (IH (_evaluate_individual self (job_genes j) (job_call j) (job_now j)).1)
      as (S2 & P2 & C2).
    repeat split; [etrans; eassumption|etrans; eassumption|lia].
Qed.

(** Which hashes are bound after a run: those bound before, and those of
    the jobs that were answered with a dictionary. *)
Lemma get_keys (self : optimizer) (p : params) (kpis : list num) (now : string)
      (h : Z) :
  is_Some (solution_ids (_get_or_create_solution_id self p kpis now).1 !! h) <->
  is_Some (solution_ids self !! h) \/ param_hash p = h.
Proof.
  unfold _get_or_create_solution_id.
  destruct (solution_ids self !! param_hash p) eqn:Hk; simpl.
  - split; [left; assumption|]. intros [Hs|<-]; [exact Hs|]. rewrite Hk. eauto.
  - destruct (decide (param_hash p = h)) as [<-|Hne].
    + rewrite lookup_insert_eq. split; [right; reflexivity|eauto].
    + rewrite lookup_insert_ne by exact Hne. split; [left; assumption|].
      intros [Hs|Heq]; [exact Hs|contradiction].
Qed.

Lemma evaluate_keys (self : optimizer) (j : job) (h : Z) :
  is_Some (solution_ids
             (_evaluate_individual self (job_genes j) (job_call j) (job_now j)).1 !! h)
  <-> is_Some (solution_ids self !! h) \/ succeeded_on h j = true.
Proof.
  rewrite evaluate_state. unfold succeeded_on.
  destruct (_individual_to_parameters (job_genes j)) as [p|e].
  - destruct (job_call j p) as [[|d|]|e].
    + split; [left; assumption|intros [Hs|Hf]; [exact Hs|discriminate]].
    + rewrite get_keys, bool_decide_eq_true. reflexivity.
    + split; [left; assumption|intros [Hs|Hf]; [exact Hs|discriminate]].
    + split; [left; assumption|intros [Hs|Hf]; [exact Hs|discriminate]].
  - split; [left; assumption|intros [Hs|Hf]; [exact Hs|discriminate]].
Qed.

(** Which hashes are bound after a run: those bound before, and those of
    the jobs that were answered with a dictionary. *)
Lemma run_keys (jobs : list job) :
  forall self h,
    is_Some (solution_ids (after_evaluations self jobs) !! h) <->
    is_Some (solution_ids self !! h) \/ existsb (succeeded_on h) jobs = true.
Proof.
  induction jobs as [|j jobs IH]; intros self h.
  - simpl. split; [left; assumption|intros [Hs|Hf]; [assumption|discriminate]].
  - rewrite after_evaluations_cons, IH, evaluate_keys. cbn [existsb].
    rewrite orb_true_iff. tauto.
Qed.

(** X11.  Identifiers of the history.  After any run of evaluations from a new
    optimiser the records of the history carry [SOL_000001], [SOL_000002],
    ... in order, up to the counter; no identifier and no parameter hash
    occurs in two records. *)
Theorem X11_history_ids_in_sequence (size gens : Z) (mr cr : Qc) (jobs : list job) :
  let final := after_evaluations (init size gens mr cr) jobs in
  rec_id <$> solution_history final
  = solution_id_of <$> seqZ 1 (solution_counter final)
  /\ NoDup (rec_id <$> solution_history final)
  /\ NoDup ((fun r => param_hash (rec_parameters r)) <$> solution_history final).
Proof.
  cbv zeta.
  destruct (registry_inv_run jobs _ (registry_inv_init size gens mr cr))
    as (Hc & Hids & Hreg).
  set (final := after_evaluations (init size gens mr cr) jobs) in *.
  assert (Hnd : NoDup (rec_id <$> solution_history final)).
  { rewrite Hids. apply solution_ids_NoDup. lia. }
  split; [rewrite Hc; exact Hids|]. split; [exact Hnd|].
  apply NoDup_alt. intros i j h Hi Hj.
  apply list_lookup_fmap_Some in Hi as (ri & -> & Hri).
  apply list_lookup_fmap_Some in Hj as (rj & Hh & Hrj).
  assert (solution_ids final !! param_hash (rec_parameters ri) = Some (rec_id ri)) as Ei.
  { apply Hreg. exists ri. split; [eapply list_elem_of_lookup_2; exact Hri|].
    split; reflexivity. }
  assert (solution_ids final !! param_hash (rec_parameters ri) = Some (rec_id rj)) as Ej.
  { apply Hreg. exists rj. split; [eapply list_elem_of_lookup_2; exact Hrj|].
    split; [symmetry; exact Hh|reflexivity]. }
  rewrite Ei in Ej. injection Ej as Eid.
  apply (proj1 (NoDup_alt _) Hnd i j (rec_id ri)).
  - apply list_lookup_fmap_Some_2. exact Hri.
  - rewrite Eid. apply list_lookup_fmap_Some_2. exact Hrj.
Qed.

(** X12.  The dictionary is the index of the history.  After any run of
    evaluations from a new optimiser, [solution_ids] binds a hash to an
    identifier exactly when some record of the history has parameters with
    that hash and carries that identifier. *)
Theorem X12_registry_indexes_history (size gens : Z) (mr cr : Qc) (jobs : list job)
        (h : Z) (sid : string) :
  let final := after_evaluations (init size gens mr cr) jobs in
  solution_ids final !! h = Some sid <->
  exists r, r ∈ solution_history final
            /\ param_hash (rec_parameters r) = h /\ rec_id r = sid.
Proof.
  cbv zeta.
  destruct (registry_inv_run jobs _ (registry_inv_init size gens mr cr))
    as (_ & _ & Hreg).
  apply Hreg.
Qed.

(** The attributes set by [__init__] other than the tracking ones. *)
Lemma get_settings (self : optimizer) (p : params) (kpis : list num) (now : string) :
  let self' := (_get_or_create_solution_id self p kpis now).1 in
  parameter_bounds self' = parameter_bounds self
  /\ objectives self' = objectives self
  /\ mutation_rate self' = mutation_rate self
  /\ crossover_rate self' = crossover_rate self.
Proof.
  unfold _get_or_create_solution_id.
  destruct (solution_ids self !! param_hash p); repeat split.
Qed.

Lemma run_settings (jobs : list job) :
  forall self,
    parameter_bounds (after_evaluations self jobs) = parameter_bounds self
    /\ objectives (after_evaluations self jobs) = objectives self
    /\ mutation_rate (after_evaluations self jobs) = mutation_rate self
    /\ crossover_rate (after_evaluations self jobs) = crossover_rate self.
Proof.
  induction jobs as [|j jobs IH]; intros self; [repeat split|].
  rewrite after_evaluations_cons.
  destruct (IH (_evaluate_individual self (job_genes j) (job_call j) (job_now j)).1)
    as (B & O & M & C).
  rewrite B, O, M, C, evaluate_state.
  destruct (_individual_to_parameters (job_genes j)) as [p|e]; [|repeat split].
  destruct (job_call j p) as [[|d|]|e];
    [repeat split|apply get_settings|repeat split|repeat split].
Qed.

(** X13.  Evaluations only add.  Whatever the optimiser holds, after a run of
    evaluations every binding of [solution_ids] is still there with the
    same identifier, the history has only been extended at its end, the
    counter has not gone down, and the bounds table, the objectives and
    the two rates are untouched. *)
Theorem X13_registry_only_grows (self : optimizer) (jobs : list job) :
  let final := after_evaluations self jobs in
  solution_ids self ⊆ solution_ids final
  /\ solution_history self `prefix_of` solution_history final
  /\ (solution_counter self <= solution_counter final)%Z
  /\ parameter_bounds final = parameter_bounds self
  /\ objectives final = objectives self
  /\ mutation_rate final = mutation_rate self
  /\ crossover_rate final = crossover_rate self.
Proof.
  cbv zeta. destruct (run_grows jobs self) as (S & P & C).
  destruct (run_settings jobs self) as (B & O & M & R).
  repeat split; assumption.
Qed.

(** X14.  The identifier saved for an individual.  After a run of evaluations
    from a new optimiser, [save_results] writes for an eight-gene
    individual the identifier [SOL_k] of some [k] between 1 and the
    counter if a job of the run with the same parameter hash was answered
    with a dictionary, and ["UNKNOWN"] otherwise. *)
Theorem X14_saved_identifier (size gens : Z) (mr cr : Qc) (jobs : list job)
        (ind : individual) (p : params)
        (Hp : _individual_to_parameters (genes ind) = Ok p) :
  let final := after_evaluations (init size gens mr cr) jobs in
  exists sid,
    entry final ind = Ok (VDict [ ("id", VStr sid);
                                  ("parameters", params_value p);
                                  ("fitness", fitness_value ind) ])
    /\ if existsb (succeeded_on (param_hash p)) jobs
       then exists k, (1 <= k <= solution_counter final)%Z /\ sid = solution_id_of k
       else sid = "UNKNOWN".
Proof.
  cbv zeta.
  destruct (registry_inv_run jobs _ (registry_inv_init size gens mr cr))
    as (Hc & Hids & Hreg).
  set (final := after_evaluations (init size gens mr cr) jobs) in *.
  exists (default "UNKNOWN" (solution_ids final !! param_hash p)).
  split; [unfold entry; rewrite Hp; reflexivity|].
  pose proof (run_keys jobs (init size gens mr cr) (param_hash p)) as Hkeys.
  fold final in Hkeys.
  destruct (existsb (succeeded_on (param_hash p)) jobs).
  - destruct (proj2 Hkeys (or_intror eq_refl)) as [sid Hsid]. rewrite Hsid. simpl.
    apply Hreg in Hsid as (r & Hr & _ & <-).
    apply list_elem_of_lookup in Hr as [i Hi].
    assert ((rec_id <$> solution_history final) !! i = Some (rec_id r)) as Hrec.
    { apply list_lookup_fmap_Some_2. exact Hi. }
    rewrite Hids in Hrec. apply list_lookup_fmap_Some in Hrec as (k & Hid & Hk).
    apply lookup_seqZ in Hk as [-> Hlt].
    exists (1 + Z.of_nat i)%Z. split; [lia|exact Hid].
  - destruct (solution_ids final !! param_hash p) as [sid|] eqn:Hsid; [|reflexivity].
    exfalso. destruct (proj1 Hkeys ltac:(eauto)) as [Hinit|Hf]; [|discriminate].
    simpl in Hinit. rewrite lookup_empty in Hinit. destruct Hinit as [? Hx]. discriminate.
Qed.

(** X15.  Which hashes are registered.  After a run of evaluations from a new
    optimiser a parameter hash is a key of [solution_ids] exactly when some
    job of the run with that hash was answered with a dictionary: failed
    evaluations register nothing. *)
Theorem X15_registered_iff_succeeded (size gens : Z) (mr cr : Qc) (jobs : list job)
        (h : Z) :
  let final := after_evaluations (init size gens mr cr) jobs in
  is_Some (solution_ids final !! h) <->
  exists j, j ∈ jobs /\ succeeded_on h j = true.
Proof.
  cbv zeta. rewrite run_keys. simpl solution_ids. rewrite lookup_empty. split.
  - intros [[x Hx]|Hex]; [discriminate|].
    apply existsb_exists in Hex as (j & Hj & Hs). exists j.
    split; [apply list_elem_of_In; exact Hj|exact Hs].
  - intros (j & Hj & Hs). right. apply existsb_exists. exists j.
    split; [apply list_elem_of_In; exact Hj|exact Hs].
Qed.

(** X16.  The first evaluation is the one recorded.  When a genome with a new
    parameter hash is answered with a dictionary, its record holds the KPI
    values and the time of that evaluation, and whatever is evaluated
    later, the same genome included, the record stays in the history and
    the hash stays bound to the identifier of that record. *)
Theorem X16_first_evaluation_is_kept (self : optimizer) (individual : list Z)
        (call : params -> result sim_value) (now : string)
        (p : params) (d : gmap string num) (jobs : list job)
        (Hp : _individual_to_parameters individual = Ok p)
        (Hcall : call p = Ok (PyResults d))
        (Hnew : solution_ids self !! param_hash p = None) :
  let first := (_evaluate_individual self individual call now).1 in
  let final := after_evaluations first jobs in
  exists r,
    r ∈ solution_history final
    /\ rec_parameters r = p
    /\ rec_kpis r = kpis_of d
    /\ rec_timestamp r = now
    /\ rec_id r = solution_id_of (solution_counter self + 1)
    /\ solution_ids final !! param_hash p = Some (rec_id r).
Proof.
  cbv zeta.
  set (r := {| rec_id := solution_id_of (solution_counter self + 1);
               rec_parameters := p;
               rec_kpis := kpis_of d;
               rec_timestamp := now;
               rec_generation := None |}).
  assert (Hfirst : (_evaluate_individual self individual call now).1
                   = set_tracking self (solution_counter self + 1)
                       (<[param_hash p := rec_id r]> (solution_ids self))
                       (solution_history self ++ [r])).
  { rewrite evaluate_state, Hp, Hcall. unfold _get_or_create_solution_id.
    rewrite Hnew. reflexivity. }
  rewrite Hfirst.
  destruct (run_grows jobs (set_tracking self (solution_counter self + 1)
                              (<[param_hash p := rec_id r]> (solution_ids self))
                              (solution_history self ++ [r])))
    as (Hsub & [k Hpre] & _).
  exists r. split; [|repeat split].
  - rewrite Hpre. apply elem_of_app. left. apply elem_of_app. right. left.
  - eapply lookup_weaken; [|exact Hsub]. apply lookup_insert_eq.
Qed.

End RunFacts.

Section RunExamples.
Import GeneticOptimizer Engine Persist Tracking Scenarios.

(** X16, an instance: a genome answered in full and then again with an empty
    dictionary. *)
Lemma X16_first_evaluation_is_kept_witness :
  let first := (@_evaluate_individual CPython.runtime fresh genome_a
                  (fun _ => Ok (PyResults same_kpis)) stamp).1 in
  let final := @after_evaluations CPython.runtime first
                 [answers (PyResults ∅) genome_a] in
  exists r,
    r ∈ solution_history final
    /\ rec_kpis r = kpis_of same_kpis
    /\ rec_id r = "SOL_000001".
Proof.
  cbv zeta.
  destruct (@X16_first_evaluation_is_kept CPython.runtime fresh genome_a
              (fun _ => Ok (PyResults same_kpis)) stamp
              (list_to_map (zip parameter_names genome_a)) same_kpis
              [answers (PyResults ∅) genome_a] eq_refl eq_refl eq_refl)
    as (r & Hr & _ & Hk & _ & Hid & _).
  exists r. split; [exact Hr|]. split; [exact Hk|exact Hid].
Defined.

(** X14, an instance: one successful evaluation, then its individual saved. *)
Lemma X14_saved_identifier_witness :
  let final := @after_evaluations CPython.runtime fresh
                 [answers (PyResults same_kpis) genome_a] in
  exists sid p,
    _individual_to_parameters genome_a = Ok p
    /\ @entry CPython.runtime final scored_a
       = Ok (VDict [ ("id", VStr sid);
                     ("parameters", params_value p);
                     ("fitness", fitness_value scored_a) ]).
Proof.
  cbv zeta.
  assert (Hp : _individual_to_parameters (genes scored_a)
               = Ok (list_to_map (zip parameter_names genome_a))).
  { reflexivity. }
  destruct (@X14_saved_identifier CPython.runtime 50 100 (Q2Qc (1 # 10)) (Q2Qc (7 # 10))
              [answers (PyResults same_kpis) genome_a] scored_a _ Hp)
    as (sid & Hentry & _).
  exists sid, (list_to_map (zip parameter_names genome_a)).
  split; [reflexivity|exact Hentry].
Defined.

End RunExamples.

(** ** Identity: what the registry tells apart *)

Section IdentityFacts.
Import GeneticOptimizer Engine Persist Tracking Identity.
Context `{PyRuntime}.

Lemma get_new_state (self : optimizer) (p : params) (kpis : list num) (now : string) :
  solution_ids self !! param_hash p = None ->
  _get_or_create_solution_id self p kpis now
  = (set_tracking self (solution_counter self + 1)
       (<[param_hash p := solution_id_of (solution_counter self + 1)]>
          (solution_ids self))
       (solution_history self
          ++ [{| rec_id := solution_id_of (solution_counter self + 1);
                 rec_parameters := p;
                 rec_kpis := kpis;
                 rec_timestamp := now;
                 rec_generation := None |}])%list,
     solution_id_of (solution_counter self + 1)).
Proof.
  intros Hk. unfold _get_or_create_solution_id. rewrite Hk. reflexivity.
Qed.

Lemma identify_all_cons (self : optimizer) (c : params * list num * string)
      (rest : list (params * list num * string)) :
  identify_all self (c :: rest)
  = ((identify_all (_get_or_create_solution_id self c.1.1 c.1.2 c.2).1 rest).1,
     (_get_or_create_solution_id self c.1.1 c.1.2 c.2).2
       :: (identify_all (_get_or_create_solution_id self c.1.1 c.1.2 c.2).1 rest).2).
Proof. reflexivity. Qed.

Lemma identify_all_length (calls : list (params * list num * string)) :
  forall self, length (identify_all self calls).2 = length calls.
Proof.
  induction calls as [|c rest IH]; intros self; [reflexivity|].
  rewrite identify_all_cons. cbn [snd length]. rewrite IH. reflexivity.
Qed.

Lemma identify_all_inv (calls : list (params * list num * string)) :
  forall self, registry_inv self -> registry_inv (identify_all self calls).1.
Proof.
  induction calls as [|c rest IH]; intros self Hinv; [exact Hinv|].
  rewrite identify_all_cons. cbn [fst]. apply IH, registry_inv_get, Hinv.
Qed.

Lemma identify_all_grows (calls : list (params * list num * string)) :
  forall self, solution_ids self ⊆ solution_ids (identify_all self calls).1.
Proof.
  induction calls as [|c rest IH]; intros self; [reflexivity|].
  rewrite identify_all_cons. cbn [fst].
  etrans; [apply (get_grows self c.1.1 c.1.2 c.2)|apply IH].
Qed.

(** Every call is answered with what its key is bound to in the end. *)
Lemma identify_all_answers (calls : list (params * list num * string)) :
  forall self i c sid,
    calls !! i = Some c -> (identify_all self calls).2 !! i = Some sid ->
    solution_ids (identify_all self calls).1 !! param_hash c.1.1 = Some sid.
Proof.
  induction calls as [|c0 rest IH]; intros self i c sid Hc Hsid; [discriminate Hc|].
  rewrite identify_all_cons in Hsid |- *. cbn [fst snd] in *.
  destruct i as [|i].
  - injection Hc as <-. injection Hsid as <-.
    eapply lookup_weaken; [apply get_binds|apply identify_all_grows].
  - exact (IH _ i c sid Hc Hsid).
Qed.

(** The history grows by one record per call that meets a new key. *)
Lemma identify_all_history (calls : list (params * list num * string)) :
  forall self seen,
    (forall h, h ∈ seen <-> is_Some (solution_ids self !! h)) ->
    solution_counter self = Z.of_nat (length (solution_history self)) ->
    solution_history (identify_all self calls).1
    = (solution_history self
        ++ imap (fun k c => record_of (length (solution_history self) + k) c)
                (first_calls seen calls))%list.
Proof.
  induction calls as [|c rest IH]; intros self seen Hseen Hcount.
  - simpl. rewrite app_nil_r. reflexivity.
  - rewrite identify_all_cons. cbn [fst first_calls].
    destruct (decide (param_hash c.1.1 ∈ seen)) as [Hin|Hnotin].
    + rewrite bool_decide_eq_true_2 by exact Hin.
      apply Hseen in Hin as [sid Hsid].
      rewrite (get_known self c.1.1 c.1.2 c.2 sid Hsid). cbn [fst].
      apply IH; assumption.
    + rewrite bool_decide_eq_false_2 by exact Hnotin.
      assert (Hk : solution_ids self !! param_hash c.1.1 = None).
      { destruct (solution_ids self !! param_hash c.1.1) eqn:Hk; [|reflexivity].
        exfalso. apply Hnotin, Hseen. eauto. }
      rewrite (get_new_state self c.1.1 c.1.2 c.2 Hk). cbn [fst].
      rewrite (IH _ (param_hash c.1.1 :: seen)).
      * unfold set_tracking. cbn [solution_history].
        rewrite <- app_assoc. f_equal. rewrite imap_cons. cbn [app]. f_equal.
        -- unfold record_of. rewrite Hcount, Nat.add_0_r. reflexivity.
        -- apply imap_ext. intros k x _. unfold compose.
           rewrite length_app. cbn [length]. f_equal. lia.
      * intros h. unfold set_tracking. cbn [solution_ids].
        rewrite elem_of_cons. destruct (decide (h = param_hash c.1.1)) as [->|Hne].
        -- rewrite lookup_insert_eq. split; [eauto|left; reflexivity].
        -- rewrite lookup_insert_ne by congruence. rewrite <- Hseen.
           split; [intros [Heq|Hin]; [contradiction|exact Hin]|right; assumption].
      * unfold set_tracking. cbn [solution_counter solution_history].
        rewrite length_app. cbn [length]. lia.
Qed.

(** The calls that meet a new key have pairwise different keys, and their
    keys are those of the calls that were not seen before. *)
Lemma first_calls_keys (calls : list (params * list num * string)) :
  forall seen,
    NoDup (keys (first_calls seen calls))
    /\ forall h, h ∈ keys (first_calls seen calls) <-> h ∈ keys calls /\ h ∉ seen.
Proof.
  unfold keys.
  induction calls as [|c rest IH]; intros seen.
  - split; [constructor|]. intros h. split; [intros Hin; inversion Hin|].
    intros [Hin _]. inversion Hin.
  - cbn [first_calls]. destruct (decide (param_hash c.1.1 ∈ seen)) as [Hin|Hnotin].
    + rewrite bool_decide_eq_true_2 by exact Hin.
      destruct (IH seen) as [Hnd Hkeys]. split; [exact Hnd|].
      intros h. rewrite Hkeys, fmap_cons, elem_of_cons. split.
      * intros [Hh Hs]. split; [right; exact Hh|exact Hs].
      * intros [[->|Hh] Hs]; [contradiction|]. split; assumption.
    + rewrite bool_decide_eq_false_2 by exact Hnotin.
      destruct (IH (param_hash c.1.1 :: seen)) as [Hnd Hkeys].
      rewrite !fmap_cons. split.
      * apply NoDup_cons. split; [|exact Hnd].
        intros Hh. apply Hkeys in Hh as [_ Hh]. apply Hh. left.
      * intros h. rewrite !elem_of_cons, Hkeys, elem_of_cons. split.
        -- intros [->|[Hh Hs]]; [split; [left; reflexivity|exact Hnotin]|].
           split; [right; exact Hh|]. intros Hseen. apply Hs. right. exact Hseen.
        -- intros [[->|Hh] Hs]; [left; reflexivity|].
           destruct (decide (h = param_hash c.1.1)) as [->|Hne]; [left; reflexivity|].
           right. split; [exact Hh|]. intros [Heq|Hseen]; contradiction.
Qed.

Lemma same_members_same_length {A} (l k : list A) :
  NoDup l -> NoDup k -> (forall x, x ∈ l <-> x ∈ k) -> length l = length k.
Proof.
  intros Hl Hk Hlk. apply Permutation_length, NoDup_Permutation; assumption.
Qed.

(** Two records of an invariant history with one identifier are one
    record. *)
Lemma registry_inv_record (self : optimizer) (r1 r2 : solution_record) :
  registry_inv self ->
  r1 ∈ solution_history self -> r2 ∈ solution_history self ->
  rec_id r1 = rec_id r2 -> r1 = r2.
Proof.
  intros (Hc & Hids & _) H1 H2 Heq.
  assert (Hnd : NoDup (rec_id <$> solution_history self)).
  { rewrite Hids. apply solution_ids_NoDup. lia. }
  apply list_elem_of_lookup in H1 as [i1 H1]. apply list_elem_of_lookup in H2 as [i2 H2].
  assert (i1 = i2) as ->.
  { apply (proj1 (NoDup_alt _) Hnd i1 i2 (rec_id r1)).
    - apply list_lookup_fmap_Some_2. exact H1.
    - rewrite Heq. apply list_lookup_fmap_Some_2. exact H2. }
  congruence.
Qed.

Lemma keys_dictionaries (calls : list (params * list num * string)) :
  keys calls = param_hash <$> dictionaries calls.
Proof. unfold keys, dictionaries. rewrite <- list_fmap_compose. reflexivity. Qed.

(** What a sequence of calls on a new optimiser gives: the identity of a
    dictionary is its key. *)
Lemma identity_is_the_key (size gens : Z) (mr cr : Qc)
      (calls : list (params * list num * string)) :
  let r := identify_all (init size gens mr cr) calls in
  solution_history r.1 = imap record_of (first_calls [] calls)
  /\ solution_counter r.1 = Z.of_nat (length (solution_history r.1))
  /\ length (solution_history r.1) = length (remove_dups (keys calls))
  /\ length r.2 = length calls
  /\ (forall i c sid,
        calls !! i = Some c -> r.2 !! i = Some sid ->
        exists rec, rec ∈ solution_history r.1
                    /\ rec_id rec = sid
                    /\ param_hash (rec_parameters rec) = param_hash c.1.1)
  /\ (forall i j ci cj si sj,
        calls !! i = Some ci -> calls !! j = Some cj ->
        r.2 !! i = Some si -> r.2 !! j = Some sj ->
        (si = sj <-> param_hash ci.1.1 = param_hash cj.1.1))
  /\ (separated calls ->
      (forall i j ci cj si sj,
          calls !! i = Some ci -> calls !! j = Some cj ->
          r.2 !! i = Some si -> r.2 !! j = Some sj ->
          (si = sj <-> ci.1.1 = cj.1.1))
      /\ length (solution_history r.1) = length (remove_dups (dictionaries calls))
      /\ (NoDup (dictionaries calls) ->
          r.2 = solution_id_of <$> seqZ 1 (Z.of_nat (length calls))))
  /\ (forall c c',
        c ∈ calls -> c' ∈ calls ->
        c.1.1 <> c'.1.1 -> param_hash c.1.1 = param_hash c'.1.1 ->
        (length (solution_history r.1) < length (remove_dups (dictionaries calls)))%nat).
Proof.
  cbv zeta. set (r := identify_all (init size gens mr cr) calls).
  pose proof (identify_all_inv calls _ (registry_inv_init size gens mr cr)) as Hinv.
  fold r in Hinv. pose proof Hinv as (Hc & Hids & Hreg).
  assert (Hhist : solution_history r.1 = imap record_of (first_calls [] calls)).
  { unfold r. rewrite (identify_all_history calls (init size gens mr cr) []).
    - reflexivity.
    - intros h. simpl. rewrite lookup_empty. split; [intros Hin; inversion Hin|].
      intros [x Hx]. discriminate.
    - reflexivity. }
  destruct (first_calls_keys calls []) as [Hnd Hkeys].
  assert (Hlen : length (solution_history r.1) = length (keys (first_calls [] calls))).
  { rewrite Hhist, length_imap. unfold keys. rewrite length_fmap. reflexivity. }
  assert (Hfirst : forall h, h ∈ keys (first_calls [] calls) <-> h ∈ keys calls).
  { intros h. rewrite Hkeys. split; [intros [Hh _]; exact Hh|].
    intros Hh. split; [exact Hh|]. intros Hin. inversion Hin. }
  assert (Hanswer : forall i c sid,
            calls !! i = Some c -> r.2 !! i = Some sid ->
            solution_ids r.1 !! param_hash c.1.1 = Some sid).
  { intros i c sid. apply identify_all_answers. }
  assert (Hsame : forall i j ci cj si sj,
            calls !! i = Some ci -> calls !! j = Some cj ->
            r.2 !! i = Some si -> r.2 !! j = Some sj ->
            (si = sj <-> param_hash ci.1.1 = param_hash cj.1.1)).
  { intros i j ci cj si sj Hi Hj Hsi Hsj.
    pose proof (Hanswer i ci si Hi Hsi) as Bi.
    pose proof (Hanswer j cj sj Hj Hsj) as Bj. split.
    - intros <-. apply Hreg in Bi as (ri & Hri & Hhi & Hidi).
      apply Hreg in Bj as (rj & Hrj & Hhj & Hidj).
      assert (ri = rj) as ->.
      { apply (registry_inv_record r.1); [exact Hinv|assumption..|congruence]. }
      congruence.
    - intros Heq. rewrite Heq in Bi. congruence. }
  assert (Hdicts : forall h, h ∈ keys calls <-> exists p,
             p ∈ remove_dups (dictionaries calls) /\ param_hash p = h).
  { intros h. rewrite keys_dictionaries, list_elem_of_fmap.
    split; intros (p & Hp & Hin).
    - exists p. split; [apply elem_of_remove_dups; exact Hin|symmetry; exact Hp].
    - exists p. split; [symmetry; exact Hin|]. apply elem_of_remove_dups. exact Hp. }
  split; [exact Hhist|]. split; [exact Hc|]. split.
  { rewrite Hlen. apply same_members_same_length;
      [exact Hnd|apply NoDup_remove_dups|].
    intros h. rewrite elem_of_remove_dups. apply Hfirst. }
  split; [apply identify_all_length|]. split.
  { intros i c sid Hi Hsid. pose proof (Hanswer i c sid Hi Hsid) as Hb.
    apply Hreg in Hb as (rec & Hrec & Hh & Hid).
    exists rec. repeat split; assumption. }
  split; [exact Hsame|]. split.
  - intros Hsep.
    assert (Hinj : forall p q, p ∈ dictionaries calls -> q ∈ dictionaries calls ->
                               param_hash p = param_hash q -> p = q).
    { intros p q Hp Hq Heq. unfold dictionaries in Hp, Hq.
      apply list_elem_of_fmap in Hp as (c & -> & Hc').
      apply list_elem_of_fmap in Hq as (c' & -> & Hc'').
      apply Hsep; assumption. }
    split; [|split].
    + intros i j ci cj si sj Hi Hj Hsi Hsj.
      rewrite (Hsame i j ci cj si sj Hi Hj Hsi Hsj). split.
      * apply Hsep; eapply list_elem_of_lookup_2; eassumption.
      * intros ->. reflexivity.
    + rewrite Hlen.
      rewrite <- (length_fmap param_hash (remove_dups (dictionaries calls))).
      apply same_members_same_length; [exact Hnd| |].
      * apply (NoDup_fmap_2_strong param_hash); [|apply NoDup_remove_dups].
        intros p q Hp Hq. apply Hinj; apply elem_of_remove_dups; assumption.
      * intros h. rewrite Hfirst, Hdicts, list_elem_of_fmap. split.
        -- intros (p & Hp & Hh). exists p. split; [symmetry; exact Hh|exact Hp].
        -- intros (p & Hh & Hp). exists p. split; [exact Hp|symmetry; exact Hh].
    + intros Hnodup.
      destruct (identify_all_fresh calls (init size gens mr cr)) as (Hall & _).
      * simpl. lia.
      * change (NoDup (keys calls)). rewrite keys_dictionaries.
        apply (NoDup_fmap_2_strong param_hash); [exact Hinj|exact Hnodup].
      * intros c _. simpl. apply lookup_empty.
      * exact Hall.
  - intros c c' Hin Hin' Hne Heq.
    assert (Hq : c'.1.1 ∈ remove_dups (dictionaries calls)).
    { apply elem_of_remove_dups. unfold dictionaries.
      apply list_elem_of_fmap. exists c'. split; [reflexivity|exact Hin']. }
    assert (Hp : c.1.1 ∈ remove_dups (dictionaries calls)).
    { apply elem_of_remove_dups. unfold dictionaries.
      apply list_elem_of_fmap. exists c. split; [reflexivity|exact Hin]. }
    eapply Nat.le_lt_trans;
      [|apply (length_filter_lt (fun p => p <> c'.1.1) _ c'.1.1 Hq); tauto].
    rewrite Hlen.
    rewrite <- (length_fmap param_hash
                  (filter (fun p => p <> c'.1.1) (remove_dups (dictionaries calls)))).
    apply submseteq_length, NoDup_submseteq; [exact Hnd|].
    intros h Hh. apply Hfirst, Hdicts in Hh as (p & Hp' & <-).
    destruct (decide (p = c'.1.1)) as [->|Hpne].
    + rewrite <- Heq. apply list_elem_of_fmap_2, list_elem_of_filter.
      split; assumption.
    + apply list_elem_of_fmap_2, list_elem_of_filter. split; assumption.
Qed.

(** A second call with an equal dictionary returns the identifier of the
    first and writes nothing. *)
Lemma repeated_call (self : optimizer) (p : params) (k1 k2 : list num)
      (t1 t2 : string) :
  let first := _get_or_create_solution_id self p k1 t1 in
  let second := _get_or_create_solution_id first.1 p k2 t2 in
  second.2 = first.2 /\ second.1 = first.1.
Proof.
  cbv zeta.
  rewrite (get_known (_get_or_create_solution_id self p k1 t1).1 p k2 t2
                     (_get_or_create_solution_id self p k1 t1).2);
    [split; reflexivity|].
  apply get_binds.
Qed.

(** Two dictionaries with one key, registered one after the other on an
    optimiser that has neither. *)
Lemma merged_pair (self : optimizer) (p q : params) (k1 k2 : list num)
      (t1 t2 : string) :
  param_hash p = param_hash q ->
  solution_ids self !! param_hash p = None ->
  let r := identify_all self [(p, k1, t1); (q, k2, t2)] in
  r.2 = [solution_id_of (solution_counter self + 1);
         solution_id_of (solution_counter self + 1)]
  /\ solution_counter r.1 = (solution_counter self + 1)%Z
  /\ length (solution_history r.1) = S (length (solution_history self)).
Proof.
  intros Heq Hnew. cbv zeta. rewrite !identify_all_cons. cbn [fst snd identify_all].
  rewrite (get_new_state self p k1 t1 Hnew). cbn [fst snd].
  rewrite (get_known _ q k2 t2 (solution_id_of (solution_counter self + 1))).
  - cbn [fst snd]. unfold set_tracking. cbn [solution_counter solution_history].
    rewrite length_app. cbn [length]. repeat split. lia.
  - unfold set_tracking. cbn [solution_ids]. rewrite <- Heq. apply lookup_insert_eq.
Qed.

End IdentityFacts.

Section IdentityExamples.
Import GeneticOptimizer Engine Persist Tracking Variation Identity Scenarios.

Lemma dictionary_of_inj (g1 g2 : list Z) :
  length g1 = 8%nat -> length g2 = 8%nat ->
  dictionary_of g1 = dictionary_of g2 -> g1 = g2.
Proof.
  intros L1 L2 Heq. unfold dictionary_of in Heq.
  destruct (individual_to_parameters_ok g1 ltac:(lia)) as [p1 H1].
  destruct (individual_to_parameters_ok g2 ltac:(lia)) as [p2 H2].
  rewrite H1, H2 in Heq. subst p2.
  pose proof (encoding_lookup g1 p1 H1) as E1.
  pose proof (encoding_lookup g2 p1 H2) as E2.
  apply list_eq. intros k. destruct (decide (k < 8)%nat) as [Hk|Hk].
  - destruct (lookup_lt_is_Some_2 parameter_names k Hk) as [name Hname].
    rewrite <- (E1 k name Hname), <- (E2 k name Hname). reflexivity.
  - rewrite !lookup_ge_None_2 by lia. reflexivity.
Qed.

(** C4 (the code departs from the statement).  The registry looks a
    dictionary up under [hash(tuple(sorted(items)))], so the identity of a
    genome is that key and not the genome.  From a new optimiser, for any
    sequence of calls and any runtime: the history holds one record per
    new key, in call order, numbered from [SOL_000001]; the counter is its
    length, the number of distinct keys; every call is answered with the
    identifier of the record with its key, so two calls get one
    identifier exactly when their keys are equal; a second call with an
    equal dictionary writes nothing.  When the hash tells the
    dictionaries of the sequence apart this is what the statement asks
    for (one identifier per distinct dictionary, [SOL_000001] to [SOL_N]
    in order for [N] pairwise different ones, a history as long as the
    number of distinct dictionaries), as for a genome evaluated, then
    another, then the first again.  When it does not, the statement
    fails: two different dictionaries with one key share an identifier
    and the history is shorter than the number of distinct dictionaries.
    That happens for two genomes within the declared bounds under the
    32-bit runtime, and, whatever the runtime, for two genomes that
    differ in a gene that is -1 in one and -2 in the other. *)
Theorem C4_distinct_genomes_share_an_identifier :
  (forall (R : PyRuntime) (self : optimizer) (p : params) (k1 k2 : list num)
          (t1 t2 : string),
      let first := @_get_or_create_solution_id R self p k1 t1 in
      let second := @_get_or_create_solution_id R first.1 p k2 t2 in
      second.2 = first.2 /\ second.1 = first.1)
  /\ (forall (R : PyRuntime) (size gens : Z) (mr cr : Qc)
             (calls : list (params * list num * string)),
        let r := @identify_all R (init size gens mr cr) calls in
        solution_history r.1 = imap record_of (@first_calls R [] calls)
        /\ solution_counter r.1 = Z.of_nat (length (solution_history r.1))
        /\ length (solution_history r.1) = length (remove_dups (@keys R calls))
        /\ length r.2 = length calls
        /\ (forall i c sid,
              calls !! i = Some c -> r.2 !! i = Some sid ->
              exists rec, rec ∈ solution_history r.1
                          /\ rec_id rec = sid
                          /\ @param_hash R (rec_parameters rec) = @param_hash R c.1.1)
        /\ (forall i j ci cj si sj,
              calls !! i = Some ci -> calls !! j = Some cj ->
              r.2 !! i = Some si -> r.2 !! j = Some sj ->
              (si = sj <-> @param_hash R ci.1.1 = @param_hash R cj.1.1))
        /\ (@separated R calls ->
            (forall i j ci cj si sj,
                calls !! i = Some ci -> calls !! j = Some cj ->
                r.2 !! i = Some si -> r.2 !! j = Some sj ->
                (si = sj <-> ci.1.1 = cj.1.1))
            /\ length (solution_history r.1)
               = length (remove_dups (dictionaries calls))
            /\ (NoDup (dictionaries calls) ->
                r.2 = solution_id_of <$> seqZ 1 (Z.of_nat (length calls))))
        /\ (forall c c',
              c ∈ calls -> c' ∈ calls ->
              c.1.1 <> c'.1.1 -> @param_hash R c.1.1 = @param_hash R c'.1.1 ->
              (length (solution_history r.1)
               < length (remove_dups (dictionaries calls)))%nat))
  /\ (let r := @identify_all CPython32.runtime fresh
                  [(dictionary_of genome_a, kpis_of same_kpis, stamp);
                   (dictionary_of genome_b, kpis_of same_kpis, stamp);
                   (dictionary_of genome_a, kpis_of same_kpis, stamp)] in
      r.2 = ["SOL_000001"; "SOL_000002"; "SOL_000001"]
      /\ solution_counter r.1 = 2%Z
      /\ rec_parameters <$> solution_history r.1
         = [dictionary_of genome_a; dictionary_of genome_b])
  /\ (in_bounds default_parameter_bounds merged_a
      /\ in_bounds default_parameter_bounds merged_b
      /\ _individual_to_parameters merged_a = Ok (dictionary_of merged_a)
      /\ _individual_to_parameters merged_b = Ok (dictionary_of merged_b)
      /\ dictionary_of merged_a <> dictionary_of merged_b
      /\ (let r := @identify_all CPython32.runtime fresh
                     [(dictionary_of merged_a, kpis_of same_kpis, stamp);
                      (dictionary_of merged_b, kpis_of same_kpis, stamp)] in
          r.2 = ["SOL_000001"; "SOL_000001"]
          /\ solution_counter r.1 = 1%Z
          /\ length (solution_history r.1) = 1%nat)
      /\ (let final := @after_evaluations CPython32.runtime fresh
                         [answers (PyResults same_kpis) merged_a;
                          answers (PyResults same_kpis) merged_b] in
          solution_counter final = 1%Z
          /\ length (solution_history final) = 1%nat
          /\ rec_parameters <$> solution_history final = [dictionary_of merged_a]))
  /\ (forall R : PyRuntime,
        _individual_to_parameters low_a = Ok (dictionary_of low_a)
        /\ _individual_to_parameters low_b = Ok (dictionary_of low_b)
        /\ dictionary_of low_a <> dictionary_of low_b
        /\ (let r := @identify_all R fresh
                       [(dictionary_of low_a, kpis_of same_kpis, stamp);
                        (dictionary_of low_b, kpis_of same_kpis, stamp)] in
            r.2 = ["SOL_000001"; "SOL_000001"]
            /\ solution_counter r.1 = 1%Z
            /\ length (solution_history r.1) = 1%nat)).
Proof.
  split; [intros R; apply (@repeated_call R)|].
  split; [intros R; apply (@identity_is_the_key R)|].
  split; [cbv zeta; repeat split; vm_compute; reflexivity|].
  split.
  - split; [repeat constructor; simpl; lia|].
    split; [repeat constructor; simpl; lia|].
    split; [reflexivity|]. split; [reflexivity|]. split.
    + intros Heq. apply dictionary_of_inj in Heq; [discriminate|reflexivity..].
    + split; cbv zeta; repeat split; vm_compute; reflexivity.
  - intros R. split; [reflexivity|]. split; [reflexivity|]. split.
    + intros Heq. apply dictionary_of_inj in Heq; [discriminate|reflexivity..].
    + apply (@merged_pair R fresh); reflexivity.
Qed.

End IdentityExamples.

(** ** The best solutions of a front *)

Section BestFacts.
Import GeneticOptimizer Engine Persist BestSolutions.
Context `{PyRuntime}.

Lemma key_le_total {A} (reverse : bool) (a b : num * A) :
  key_le reverse a b = false -> key_le reverse b a = true.
Proof.
  unfold key_le. destruct reverse; rewrite negb_false_iff, negb_true_iff;
    apply num_ltb_asym.
Qed.

Lemma key_le_trans {A} (reverse : bool) (a b c : num * A) :
  key_le reverse a b = true -> key_le reverse b c = true -> key_le reverse a c = true.
Proof.
  unfold key_le. destruct reverse; rewrite !negb_true_iff; intros Hab Hbc.
  - exact (num_le_trans c.1 b.1 a.1 Hbc Hab).
  - exact (num_le_trans a.1 b.1 c.1 Hab Hbc).
Qed.

Lemma key_le_refl {A} (reverse : bool) (a : num * A) : key_le reverse a a = true.
Proof.
  destruct (key_le reverse a a) eqn:Hle; [reflexivity|].
  rewrite (key_le_total reverse a a Hle) in Hle. discriminate.
Qed.

Lemma insert_by_elem {A} (le : A -> A -> bool) (x y : A) (l : list A) :
  y ∈ insert_by le x l <-> y = x \/ y ∈ l.
Proof.
  induction l as [|z l IH]; simpl.
  - rewrite list_elem_of_singleton. split; [left; assumption|].
    intros [Hx|Hn]; [exact Hx|inversion Hn].
  - destruct (le x z).
    + rewrite elem_of_cons. reflexivity.
    + rewrite !elem_of_cons, IH. tauto.
Qed.

Lemma sort_elem {A} (le : A -> A -> bool) (y : A) (l : list A) :
  y ∈ foldr (insert_by le) [] l <-> y ∈ l.
Proof.
  induction l as [|x l IH]; simpl; [reflexivity|].
  rewrite insert_by_elem, IH, elem_of_cons. reflexivity.
Qed.

(** The first member of the sorted list is a member that every member
    may follow. *)
Lemma sort_head (reverse : bool) {A} (l : list (num * A)) :
  l <> [] ->
  exists h t,
    foldr (insert_by (key_le reverse)) [] l = h :: t
    /\ h ∈ l
    /\ forall y, y ∈ l -> key_le reverse h y = true.
Proof.
  induction l as [|x l IH]; intros Hne; [contradiction|].
  destruct l as [|x' l'].
  - exists x, []. split; [reflexivity|]. split; [left|].
    intros y Hy. apply list_elem_of_singleton in Hy. subst y. apply key_le_refl.
  - destruct IH as (h & t & Hs & Hh & Hleast); [discriminate|].
    cbn [foldr] in Hs |- *. rewrite Hs. cbn [insert_by].
    destruct (key_le reverse x h) eqn:Hxh.
    + exists x, (h :: t). split; [reflexivity|]. split; [left|].
      intros y Hy. apply elem_of_cons in Hy as [->|Hy]; [apply key_le_refl|].
      eapply key_le_trans; [exact Hxh|apply Hleast, Hy].
    + exists h, (insert_by (key_le reverse) x t). split; [reflexivity|].
      split; [right; exact Hh|].
      intros y Hy. apply elem_of_cons in Hy as [->|Hy];
        [apply key_le_total, Hxh|apply Hleast, Hy].
Qed.

Lemma elem_of_zip_keys (i : nat) (front : list individual) (keys : list num) :
  Forall2 (fun x k => fitness_at i x = Ok k) front keys ->
  (forall k x, (k, x) ∈ zip keys front -> x ∈ front /\ values x !! i = Some k)
  /\ (forall x, x ∈ front -> exists k, (k, x) ∈ zip keys front).
Proof.
  induction 1 as [|x k front keys Hk _ [IH1 IH2]]; simpl.
  - split; [intros k x Hin; inversion Hin|intros x Hin; inversion Hin].
  - split.
    + intros k' x' Hin. apply elem_of_cons in Hin as [[= -> ->]|Hin].
      * split; [left|]. unfold fitness_at in Hk.
        destruct (values x !! i); [congruence|discriminate].
      * destruct (IH1 k' x' Hin) as [Hx Hv]. split; [right; exact Hx|exact Hv].
    + intros x' Hin. apply elem_of_cons in Hin as [->|Hin].
      * exists k. left.
      * destruct (IH2 x' Hin) as [k' Hk']. exists k'. right. exact Hk'.
Qed.

(** Sorting a non-empty front whose members all have the value: the first
    member of the result is a member of the front whose value is the
    largest, or under an ascending sort the smallest, of the front. *)
Lemma sorted_by_fitness_head (i : nat) (reverse : bool) (front : list individual) :
  front <> [] ->
  Forall (fun x => is_Some (values x !! i)) front ->
  exists b rest,
    sorted_by_fitness i reverse front = Ok (b :: rest)
    /\ b ∈ front
    /\ forall x v w, x ∈ front -> values x !! i = Some v -> values b !! i = Some w ->
                     (if reverse then num_leb v w else num_leb w v) = true.
Proof.
  intros Hne Hall.
  destruct (mapM_Ok_total (fitness_at i) front) as [keys Hkeys].
  { intros x Hx. rewrite Forall_forall in Hall. destruct (Hall x Hx) as [v Hv].
    exists v. unfold fitness_at. rewrite Hv. reflexivity. }
  pose proof (proj1 (mapM_Ok_Forall2 _ _ _) Hkeys) as Hzip.
  destruct (elem_of_zip_keys i front keys Hzip) as [Hin Hex].
  destruct (sort_head reverse (zip keys front)) as ([kb b] & t & Hs & Hb & Hleast).
  { destruct front as [|x front]; [contradiction|].
    inversion Hzip; subst. discriminate. }
  exists b, (t.*2). split; [|split].
  - unfold sorted_by_fitness. rewrite Hkeys. simpl. rewrite Hs. reflexivity.
  - apply (Hin kb b Hb).
  - intros x v w Hx Hv Hw. destruct (Hex x Hx) as [k Hk].
    destruct (Hin k x Hk) as [_ Hk']. destruct (Hin kb b Hb) as [_ Hkb].
    assert (k = v) by congruence. assert (kb = w) by congruence. subst k kb.
    pose proof (Hleast (v, x) Hk) as Hle. unfold key_le in Hle. simpl in Hle.
    unfold num_leb. destruct reverse; exact Hle.
Qed.

Lemma best_entry_ok (self : optimizer) (criterion : string) (x : individual) :
  (8 <= length (genes x))%nat -> exists e, best_entry self criterion x = Ok e.
Proof.
  intros Hlen. destruct (individual_to_parameters_ok _ Hlen) as [p Hp].
  unfold best_entry. rewrite Hp. simpl. eauto.
Qed.

(** X17.  What [get_best_solutions] returns for a non-empty front of scored
    eight-gene individuals: the first [n] of three entries, made in this
    order from a member with the highest profit of the front, a member
    with the most vessels handled, and a member with the lowest prime
    cost. *)
Theorem X17_best_solutions_are_extremal (self : optimizer) (front : list individual)
        (n : Z)
        (Hne : front <> [])
        (Hfront : Forall (fun x => (8 <= length (genes x))%nat /\ scored x) front) :
  exists bp bv bc e1 e2 e3,
    bp ∈ front /\ bv ∈ front /\ bc ∈ front
    /\ best_entry self "Best Profit" bp = Ok e1
    /\ best_entry self "Most Vessels Handled" bv = Ok e2
    /\ best_entry self "Lowest Cost" bc = Ok e3
    /\ get_best_solutions self front n = Ok (upto n [e1; e2; e3])
    /\ forall x, x ∈ front ->
         (forall v w, values x !! 3%nat = Some v -> values bp !! 3%nat = Some w ->
                      num_leb v w = true)
         /\ (forall v w, values x !! 0%nat = Some v -> values bv !! 0%nat = Some w ->
                         num_leb v w = true)
         /\ (forall v w, values x !! 1%nat = Some v -> values bc !! 1%nat = Some w ->
                         num_leb w v = true).
Proof.
  assert (Hval : forall i, (i < 5)%nat ->
             Forall (fun x => is_Some (values x !! i)) front).
  { intros i Hi. eapply Forall_impl; [exact Hfront|]. intros x [_ Hs].
    apply lookup_lt_is_Some. unfold scored in Hs. lia. }
  assert (Hgenes : forall x, x ∈ front -> (8 <= length (genes x))%nat).
  { intros x Hx. rewrite Forall_forall in Hfront. apply (Hfront x Hx). }
  destruct (sorted_by_fitness_head 3 true front Hne (Hval 3%nat ltac:(lia)))
    as (bp & rp & Hsp & Hbp & Hp).
  destruct (sorted_by_fitness_head 0 true front Hne (Hval 0%nat ltac:(lia)))
    as (bv & rv & Hsv & Hbv & Hv).
  destruct (sorted_by_fitness_head 1 false front Hne (Hval 1%nat ltac:(lia)))
    as (bc & rc & Hsc & Hbc & Hc).
  destruct (best_entry_ok self "Best Profit" bp (Hgenes bp Hbp)) as [e1 He1].
  destruct (best_entry_ok self "Most Vessels Handled" bv (Hgenes bv Hbv)) as [e2 He2].
  destruct (best_entry_ok self "Lowest Cost" bc (Hgenes bc Hbc)) as [e3 He3].
  exists bp, bv, bc, e1, e2, e3. repeat split; try assumption.
  - unfold get_best_solutions. destruct front as [|x0 front]; [contradiction|].
    rewrite Hsp. simpl. rewrite Hsv. simpl. rewrite Hsc. simpl.
    rewrite He1. simpl. rewrite He2. simpl. rewrite He3. reflexivity.
  - intros v w. apply (Hp x v w). assumption.
  - intros v w. apply (Hv x v w). assumption.
  - intros v w. apply (Hc x v w). assumption.
Qed.

Lemma mapM_raises {A B} (f : A -> result B) (e : exn) (l : list A) :
  (forall x e', f x = Raise e' -> e' = e) ->
  (exists x, x ∈ l /\ f x = Raise e) ->
  mapM f l = Raise e.
Proof.
  intros Honly (x & Hx & Hfx).
  induction l as [|y l IH]; [inversion Hx|].
  simpl. destruct (f y) as [b|e'] eqn:Hy.
  - apply elem_of_cons in Hx as [->|Hx]; [congruence|].
    simpl. rewrite (IH Hx). reflexivity.
  - rewrite (Honly y e' Hy). reflexivity.
Qed.

(** X18.  The edges of [get_best_solutions]: an empty front gives the empty
    list; a front with a member whose fitness is not valid raises
    [IndexError], since sorting reads a fitness value of every member. *)
Theorem X18_best_solutions_need_fitness (self : optimizer) (front : list individual)
        (n : Z) :
  get_best_solutions self [] n = Ok []
  /\ ((exists x, x ∈ front /\ fitness x = None) ->
      get_best_solutions self front n = Raise IndexError).
Proof.
  split; [reflexivity|]. intros (x & Hx & Hnone).
  unfold get_best_solutions. destruct front as [|x0 front]; [inversion Hx|].
  unfold sorted_by_fitness.
  rewrite (mapM_raises (fitness_at 3) IndexError); [reflexivity| |].
  - intros y e'. unfold fitness_at. destruct (values y !! 3%nat); congruence.
  - exists x. split; [exact Hx|]. unfold fitness_at, values. rewrite Hnone. reflexivity.
Qed.

End BestFacts.

Section BestExamples.
Import GeneticOptimizer Engine Persist BestSolutions Scenarios.

(** X17, an instance: the front of three scored individuals. *)
Lemma X17_best_solutions_are_extremal_witness :
  exists e1 e2 e3,
    @get_best_solutions CPython.runtime fresh trio 5 = Ok [e1; e2; e3].
Proof.
  assert (Hne : trio <> []) by discriminate.
  assert (Hfront : Forall (fun x => (8 <= length (genes x))%nat /\ scored x) trio).
  { repeat constructor. }
  destruct (@X17_best_solutions_are_extremal CPython.runtime fresh trio 5 Hne Hfront)
    as (bp & bv & bc & e1 & e2 & e3 & _ & _ & _ & _ & _ & _ & Hbest & _).
  exists e1, e2, e3. exact Hbest.
Defined.

End BestExamples.

(** ** Looking solutions up in saved results *)

Section AnalyzerFacts.
Import GeneticOptimizer Engine Persist Tracking SolutionAnalyzer.
Context `{PyRuntime}.

(** A solution that a lookup returns carries the identifier asked for. *)
Lemma find_by_id_sound (solution_id : string) (solutions : list pyval) (s : pyval) :
  find_by_id solution_id solutions = Ok (Some s) ->
  s ∈ solutions /\ get s "id" VNone = Ok (VStr solution_id).
Proof.
  induction solutions as [|s0 rest IH]; [discriminate|].
  cbn [find_by_id]. destruct (get s0 "id" VNone) as [sid|e] eqn:Hget; [|discriminate].
  simpl. destruct (is_id sid solution_id) eqn:Hid.
  - intros [= <-]. split; [left|]. rewrite Hget.
    destruct sid; try discriminate. simpl in Hid.
    apply bool_decide_eq_true in Hid. subst. reflexivity.
  - intros Hrest. destruct (IH Hrest) as [Hin Hs]. split; [right; exact Hin|exact Hs].
Qed.

Lemma search_sound (results : pyval) (key solution_id : string) (s : pyval) :
  search results key solution_id = Ok (Some s) ->
  get s "id" VNone = Ok (VStr solution_id).
Proof.
  unfold search. destruct (get results key (VList [])) as [section|e]; [|discriminate].
  simpl. destruct (iter section) as [solutions|e]; [|discriminate]. simpl.
  intros Hfind. apply (find_by_id_sound _ _ _ Hfind).
Qed.

Lemma find_by_id_absent (solution_id : string) (solutions : list pyval) :
  Forall (fun s => exists sid, get s "id" VNone = Ok (VStr sid) /\ sid <> solution_id)
         solutions ->
  find_by_id solution_id solutions = Ok None.
Proof.
  induction 1 as [|s rest (sid & Hget & Hne) _ IH]; [reflexivity|].
  cbn [find_by_id]. rewrite Hget. simpl.
  rewrite bool_decide_eq_false_2 by exact Hne. exact IH.
Qed.

Lemma load_dump_record (r : solution_record) :
  load (dump (record_value r)) = record_value r.
Proof.
  unfold record_value. cbn [dump load List.map fst snd].
  rewrite <- (load_dump_params (rec_parameters r)) at 2.
  rewrite !List.map_map. cbn [dump load].
  destruct (rec_generation r); reflexivity.
Qed.

Lemma find_by_id_record (history : list solution_record) (r : solution_record) :
  NoDup (rec_id <$> history) -> r ∈ history ->
  find_by_id (rec_id r) (List.map record_value history) = Ok (Some (record_value r)).
Proof.
  induction history as [|r0 history IH]; intros Hnd Hr; [inversion Hr|].
  rewrite fmap_cons in Hnd. apply NoDup_cons in Hnd as [Hnotin Hnd].
  cbn [List.map find_by_id].
  change (get (record_value r0) "id" VNone) with (@Ok pyval (VStr (rec_id r0))).
  cbn [mbind result_bind is_id].
  apply elem_of_cons in Hr as [->|Hr].
  - rewrite bool_decide_eq_true_2 by reflexivity. reflexivity.
  - rewrite bool_decide_eq_false_2; [apply IH; assumption|].
    intros Heq. apply Hnotin. rewrite Heq. apply list_elem_of_fmap_2. exact Hr.
Qed.

Lemma find_by_id_no_record (history : list solution_record) (sid : string) :
  sid ∉ rec_id <$> history ->
  find_by_id sid (List.map record_value history) = Ok None.
Proof.
  intros Hnotin. apply find_by_id_absent. apply Forall_forall. intros s Hs.
  apply list_elem_of_In, in_map_iff in Hs as (r & <- & Hr).
  exists (rec_id r). split; [reflexivity|].
  intros Heq. apply Hnotin. rewrite <- Heq. apply list_elem_of_fmap_2.
  apply list_elem_of_In. exact Hr.
Qed.

(** The identifier of a written entry, as read back. *)
Lemma entry_id (self : optimizer) (ind : individual) (e : pyval) :
  entry self ind = Ok e ->
  exists sid,
    get (load (dump e)) "id" VNone = Ok (VStr sid)
    /\ (sid = "UNKNOWN" \/ exists h, solution_ids self !! h = Some sid).
Proof.
  unfold entry. destruct (_individual_to_parameters (genes ind)) as [p|err];
    [|discriminate].
  simpl. intros [= <-].
  exists (default "UNKNOWN" (solution_ids self !! param_hash p)).
  split; [reflexivity|].
  destruct (solution_ids self !! param_hash p) as [sid|] eqn:Hk; [|left; reflexivity].
  right. exists (param_hash p). exact Hk.
Qed.

Lemma find_by_id_entries (self : optimizer) (inds : list individual)
      (es : list pyval) (sid : string) :
  Forall2 (fun ind e => entry self ind = Ok e) inds es ->
  sid <> "UNKNOWN" ->
  (forall h, solution_ids self !! h <> Some sid) ->
  find_by_id sid (List.map load (List.map dump es)) = Ok None.
Proof.
  intros Hall Hunk Hnone. apply find_by_id_absent.
  induction Hall as [|ind e inds es He _ IH]; [constructor|].
  cbn [List.map]. constructor; [|exact IH].
  destruct (entry_id self ind e He) as (sid' & Hget & Hor).
  exists sid'. split; [exact Hget|].
  intros ->. destruct Hor as [Hu|[h Hh]]; [contradiction|exact (Hnone h Hh)].
Qed.

Section Saved.
Variables (pop front history : list pyval) (bounds objectives metadata : pyval).

Let results : pyval :=
  VDict [ ("population", VList pop); ("pareto_front", VList front);
          ("solution_history", VList history); ("parameter_bounds", bounds);
          ("objectives", objectives); ("optimization_metadata", metadata) ].

Lemma reloaded_history (dflt : pyval) :
  get (load (dump results)) "solution_history" dflt
  = Ok (VList (List.map load (List.map dump history))).
Proof. reflexivity. Qed.

Lemma reloaded_front (dflt : pyval) :
  get (load (dump results)) "pareto_front" dflt
  = Ok (VList (List.map load (List.map dump front))).
Proof. reflexivity. Qed.

Lemma reloaded_population (dflt : pyval) :
  get (load (dump results)) "population" dflt
  = Ok (VList (List.map load (List.map dump pop))).
Proof. reflexivity. Qed.

Lemma reloaded_metadata (dflt : pyval) :
  get (load (dump results)) "optimization_metadata" dflt = Ok (load (dump metadata)).
Proof. reflexivity. Qed.

Lemma reloaded_truthy : truthy (load (dump results)) = true.
Proof. reflexivity. Qed.

End Saved.

Lemma reloaded_records (history : list solution_record) :
  List.map load (List.map dump (List.map record_value history))
  = List.map record_value history.
Proof.
  rewrite !List.map_map. apply List.map_ext. intros r. apply load_dump_record.
Qed.

(** X19.  Lookup after saving.  After a run of evaluations from a new
    optimiser, with a population and a front of eight-gene individuals
    saved and read back: asking for the identifier of a record of the
    history returns that record; asking for any other string except
    ["UNKNOWN"] returns [None]. *)
Theorem X19_lookup_after_save (size gens : Z) (mr cr : Qc) (jobs : list job)
        (population pareto_front : list individual)
        (Hpop : Forall (fun ind => (8 <= length (genes ind))%nat) population)
        (Hfront : Forall (fun ind => (8 <= length (genes ind))%nat) pareto_front) :
  let final := after_evaluations (init size gens mr cr) jobs in
  exists results,
    save_results final population pareto_front = Ok results
    /\ (forall r, r ∈ solution_history final ->
          get_solution_by_id (_load_results (Some (dump results))) (rec_id r)
          = Ok (Some (record_value r)))
    /\ (forall sid, sid ∉ rec_id <$> solution_history final -> sid <> "UNKNOWN" ->
          get_solution_by_id (_load_results (Some (dump results))) sid = Ok None).
Proof.
  cbv zeta.
  destruct (registry_inv_run jobs _ (registry_inv_init size gens mr cr))
    as (Hc & Hids & Hreg).
  set (final := after_evaluations (init size gens mr cr) jobs) in *.
  assert (Hnd : NoDup (rec_id <$> solution_history final)).
  { rewrite Hids. apply solution_ids_NoDup. lia. }
  destruct (mapM_entry final population Hpop) as (pop & Hpop_eq & Hpop_all).
  destruct (mapM_entry final pareto_front Hfront) as (front & Hfront_eq & Hfront_all).
  eexists. split.
  { unfold save_results. rewrite Hpop_eq. simpl. rewrite Hfront_eq. reflexivity. }
  cbn [_load_results]. split.
  - intros r Hr. unfold get_solution_by_id, search.
    rewrite reloaded_history. cbn [mbind result_bind iter].
    rewrite reloaded_records, (find_by_id_record _ r Hnd Hr). reflexivity.
  - intros sid Hnotin Hunk.
    assert (Hnone : forall h, solution_ids final !! h <> Some sid).
    { intros h Hh. apply Hreg in Hh as (r & Hr & _ & <-).
      apply Hnotin. apply list_elem_of_fmap_2. exact Hr. }
    unfold get_solution_by_id, search.
    rewrite reloaded_history. cbn [mbind result_bind iter].
    rewrite reloaded_records, (find_by_id_no_record _ sid Hnotin).
    rewrite reloaded_front. cbn [mbind result_bind iter].
    rewrite (find_by_id_entries final pareto_front front sid Hfront_all Hunk Hnone).
    rewrite reloaded_population. cbn [mbind result_bind iter].
    apply (find_by_id_entries final population pop sid Hpop_all Hunk Hnone).
Qed.

(** X20.  Whatever the results hold, a solution returned by
    [get_solution_by_id] carries the identifier that was asked for. *)
Theorem X20_lookup_returns_the_identifier (results : pyval) (solution_id : string)
        (s : pyval)
        (Hfound : get_solution_by_id results solution_id = Ok (Some s)) :
  get s "id" VNone = Ok (VStr solution_id).
Proof.
  unfold get_solution_by_id in Hfound.
  destruct (search results "solution_history" solution_id) as [[s1|]|e] eqn:H1;
    [| |discriminate].
  - injection Hfound as <-. apply (search_sound _ _ _ _ H1).
  - simpl in Hfound.
    destruct (search results "pareto_front" solution_id) as [[s2|]|e] eqn:H2;
      [| |discriminate].
    + injection Hfound as <-. apply (search_sound _ _ _ _ H2).
    + simpl in Hfound. apply (search_sound _ _ _ _ Hfound).
Qed.

End AnalyzerFacts.

Section StatisticsFacts.
Import GeneticOptimizer Engine Persist Tracking SolutionAnalyzer.
Context `{PyRuntime}.

Lemma existsb_py_eqb_strings (sid : string) (seen : list string) :
  existsb (py_eqb (VStr sid)) (List.map VStr seen) = bool_decide (sid ∈ seen).
Proof.
  induction seen as [|s seen IH]; cbn [List.map existsb].
  - symmetry. apply bool_decide_eq_false_2. intros Hin. inversion Hin.
  - rewrite IH. change (py_eqb (VStr sid) (VStr s)) with (bool_decide (sid = s)).
    destruct (decide (sid = s)) as [->|Hne].
    + rewrite bool_decide_eq_true_2 by reflexivity. simpl.
      symmetry. apply bool_decide_eq_true_2. left.
    + rewrite (bool_decide_eq_false_2 (sid = s)) by exact Hne. simpl.
      apply bool_decide_ext. rewrite elem_of_cons. tauto.
Qed.

(** The set of identifiers of a history without repeated identifiers has
    one member per record. *)
Lemma id_set_records (history : list solution_record) :
  forall seen : list string,
    NoDup (seen ++ (rec_id <$> history)) ->
    id_set (List.map record_value history) (List.map VStr seen)
    = Ok (List.map VStr (seen ++ (rec_id <$> history))).
Proof.
  induction history as [|r history IH]; intros seen Hnd.
  - simpl. rewrite app_nil_r. reflexivity.
  - cbn [List.map id_set].
    change (get (record_value r) "id" VNone) with (@Ok pyval (VStr (rec_id r))).
    cbn [mbind result_bind hashable].
    rewrite existsb_py_eqb_strings.
    rewrite fmap_cons in Hnd.
    rewrite bool_decide_eq_false_2.
    + change ((List.map VStr seen ++ [VStr (rec_id r)])%list)
        with ((List.map VStr seen ++ List.map VStr [rec_id r])%list).
      rewrite <- List.map_app, IH.
      * rewrite <- app_assoc. reflexivity.
      * rewrite <- app_assoc. exact Hnd.
    + apply NoDup_app in Hnd as (_ & Hdisj & _). intros Hin.
      apply (Hdisj _ Hin). left.
Qed.

(** X21.  Statistics of a saved run.  After a run of evaluations from a new
    optimiser, with a population and a front of eight-gene individuals
    saved and read back, [get_solution_statistics] reports the counter of
    the optimiser both as [total_solutions] and as [unique_solutions], the
    length of the front as [pareto_solutions], the saved metadata, and as
    [pareto_percentage] the integer 0 when nothing was registered, without
    dividing, and the float quotient of the two counts otherwise. *)
Theorem X21_statistics_after_save (percentage : Z -> Z -> num)
        (size gens : Z) (mr cr : Qc) (jobs : list job)
        (population pareto_front : list individual)
        (Hpop : Forall (fun ind => (8 <= length (genes ind))%nat) population)
        (Hfront : Forall (fun ind => (8 <= length (genes ind))%nat) pareto_front) :
  let final := after_evaluations (init size gens mr cr) jobs in
  exists results,
    save_results final population pareto_front = Ok results
    /\ get_solution_statistics percentage (_load_results (Some (dump results)))
       = Ok (VDict
               [ ("total_solutions", VInt (solution_counter final));
                 ("pareto_solutions", VInt (Z.of_nat (length pareto_front)));
                 ("pareto_percentage",
                    if (solution_counter final =? 0)%Z then VInt 0
                    else VFloat (percentage (Z.of_nat (length pareto_front))
                                            (solution_counter final)));
                 ("unique_solutions", VInt (solution_counter final));
                 ("optimization_metadata", optimization_metadata final) ]).
Proof.
  cbv zeta.
  destruct (registry_inv_run jobs _ (registry_inv_init size gens mr cr))
    as (Hc & Hids & Hreg).
  set (final := after_evaluations (init size gens mr cr) jobs) in *.
  assert (Hnd : NoDup (rec_id <$> solution_history final)).
  { rewrite Hids. apply solution_ids_NoDup. lia. }
  destruct (mapM_entry final population Hpop) as (pop & Hpop_eq & Hpop_all).
  destruct (mapM_entry final pareto_front Hfront) as (front & Hfront_eq & Hfront_all).
  eexists. split.
  { unfold save_results. rewrite Hpop_eq. simpl. rewrite Hfront_eq. reflexivity. }
  cbn [_load_results]. unfold get_solution_statistics.
  rewrite reloaded_truthy. cbn [negb].
  rewrite reloaded_history, reloaded_front, reloaded_metadata, reloaded_records.
  cbn [mbind result_bind len iter truthy].
  pose proof (id_set_records (solution_history final) [] Hnd) as Hset.
  cbn [List.map app] in Hset. rewrite Hset.
  cbn [mbind result_bind].
  rewrite !List.length_map, ?length_fmap, <- Hc.
  rewrite <- (Forall2_length _ _ _ Hfront_all).
  assert (Hmeta : load (dump (optimization_metadata final)) = optimization_metadata final)
    by reflexivity.
  rewrite Hmeta.
  destruct (Z.eqb_spec (solution_counter final) 0) as [Hz|Hnz].
  - rewrite bool_decide_eq_true_2 by lia. reflexivity.
  - rewrite bool_decide_eq_false_2 by lia. reflexivity.
Qed.

Lemma find_missing (d : list (string * pyval)) (key : string) :
  (forall kv, kv ∈ d -> kv.1 <> key) ->
  List.find (fun kv => bool_decide (kv.1 = key)) d = None.
Proof.
  induction d as [|kv d IH]; intros Hd; [reflexivity|].
  cbn [List.find]. rewrite bool_decide_eq_false_2 by (apply Hd; left).
  apply IH. intros kv' Hin. apply Hd. right. exact Hin.
Qed.

(** X22.  Results without sections.  On a results dictionary that has none of
    the keys ["solution_history"], ["pareto_front"] and ["population"],
    every lookup returns [None], the front is the empty list and
    [extract_pareto_data] gives a frame without rows; on the empty
    dictionary the statistics are the empty dictionary.  A results file
    that cannot be read gives [ParetoAnalyzer] the empty dictionary, hence
    a frame without rows, and makes the constructor of [SolutionAnalyzer]
    raise [AttributeError]: no analyzer is built. *)
Theorem X22_queries_without_sections (percentage : Z -> Z -> num)
        (d : list (string * pyval)) (sid : string)
        (Hmissing : forall kv, kv ∈ d ->
                      kv.1 ∉ ["solution_history"; "pareto_front"; "population"]) :
  get_solution_by_id (VDict d) sid = Ok None
  /\ get_pareto_solutions (VDict d) = Ok (VList [])
  /\ extract_pareto_data (VDict d) = Ok []
  /\ get_solution_statistics percentage (VDict []) = Ok (VDict [])
  /\ extract_pareto_data (_load_results None) = Ok []
  /\ __init__ None = Raise AttributeError.
Proof.
  assert (Hfind : forall key,
            key ∈ ["solution_history"; "pareto_front"; "population"] ->
            List.find (fun kv => bool_decide (kv.1 = key)) d = None).
  { intros key Hkey. apply find_missing. intros kv Hkv Heq.
    apply (Hmissing kv Hkv). rewrite Heq. exact Hkey. }
  assert (H1 := Hfind "solution_history" ltac:(left)).
  assert (H2 := Hfind "pareto_front" ltac:(right; left)).
  assert (H3 := Hfind "population" ltac:(right; right; left)).
  repeat split.
  - unfold get_solution_by_id, search, get. rewrite H1, H2, H3. reflexivity.
  - unfold get_pareto_solutions, get. rewrite H2. reflexivity.
  - unfold extract_pareto_data, getitem. rewrite H2. reflexivity.
Qed.

End StatisticsFacts.

Section AnalyzerExamples.
Import GeneticOptimizer Engine Persist Tracking SolutionAnalyzer Scenarios.

(** X19, an instance: one registered genome; the second identifier is unknown. *)
Lemma X19_lookup_after_save_witness :
  let final := @after_evaluations CPython.runtime fresh
                 [answers (PyResults same_kpis) genome_a] in
  exists results,
    @save_results CPython.runtime final [scored_a; scored_b] [scored_a] = Ok results
    /\ get_solution_by_id (_load_results (Some (dump results))) "SOL_000002" = Ok None.
Proof.
  cbv zeta.
  assert (Hpop : Forall (fun ind => (8 <= length (genes ind))%nat) [scored_a; scored_b]).
  { repeat constructor. }
  assert (Hfront : Forall (fun ind => (8 <= length (genes ind))%nat) [scored_a]).
  { repeat constructor. }
  destruct (@X19_lookup_after_save CPython.runtime 50 100 (Q2Qc (1 # 10)) (Q2Qc (7 # 10))
              [answers (PyResults same_kpis) genome_a] _ _ Hpop Hfront)
    as (results & Hsave & _ & Hnone).
  exists results. split; [exact Hsave|]. apply Hnone; [|discriminate].
  vm_compute. intros Hin. apply elem_of_cons in Hin as [Heq|Hin];
    [discriminate Heq|inversion Hin].
Defined.

(** X20, an instance: a single entry found in the front. *)
Lemma X20_lookup_returns_the_identifier_witness :
  get (VDict [("id", VStr "SOL_000001")]) "id" VNone = Ok (VStr "SOL_000001").
Proof.
  apply (X20_lookup_returns_the_identifier
           (VDict [("pareto_front", VList [VDict [("id", VStr "SOL_000001")]])])).
  reflexivity.
Defined.

(** X22, an instance: the empty dictionary, read from a file that holds
    [{}]. *)
Lemma X22_queries_without_sections_witness :
  get_solution_by_id (VDict []) "SOL_000001" = Ok None
  /\ get_pareto_solutions (VDict []) = Ok (VList [])
  /\ extract_pareto_data (VDict []) = Ok []
  /\ get_solution_statistics (fun _ _ => int 0) (VDict []) = Ok (VDict [])
  /\ extract_pareto_data (_load_results None) = Ok []
  /\ __init__ None = Raise AttributeError.
Proof.
  apply (X22_queries_without_sections (fun _ _ => int 0) [] "SOL_000001").
  intros kv Hkv. inversion Hkv.
Defined.

(** X21, an instance: one registered genome and a front of one. *)
Lemma X21_statistics_after_save_witness :
  let final := @after_evaluations CPython.runtime fresh
                 [answers (PyResults same_kpis) genome_a] in
  exists results,
    @save_results CPython.runtime final [scored_a; scored_b] [scored_a] = Ok results
    /\ exists stats,
         get_solution_statistics (fun _ _ => int 100)
                                 (_load_results (Some (dump results)))
         = Ok stats.
Proof.
  cbv zeta.
  assert (Hpop : Forall (fun ind => (8 <= length (genes ind))%nat) [scored_a; scored_b]).
  { repeat constructor. }
  assert (Hfront : Forall (fun ind => (8 <= length (genes ind))%nat) [scored_a]).
  { repeat constructor. }
  destruct (@X21_statistics_after_save CPython.runtime (fun _ _ => int 100)
              50 100 (Q2Qc (1 # 10)) (Q2Qc (7 # 10))
              [answers (PyResults same_kpis) genome_a] _ _ Hpop Hfront)
    as (results & Hsave & Hstats).
  exists results. split; [exact Hsave|]. eexists. exact Hstats.
Defined.

End AnalyzerExamples.

(** ** The interface to the Java application *)

Section LifecycleFacts.
Import JavaModelInterface JavaLifecycle.

Lemma check_health_healthy (get : result response) :
  check_health get = Ok (healthy get).
Proof.
  unfold check_health, try_except, healthy.
  destruct get as [response|e]; simpl.
  - destruct (status_code response =? 200)%Z; reflexivity.
  - destruct e; reflexivity.
Qed.

(** X23.  The three GET queries never raise.  [check_health] answers [True]
    exactly when the request returns with status 200;
    [get_simulation_results] and [get_all_results] hand back the decoded
    body when the request returns with status 200 and the body decodes,
    and [None], respectively the empty list, in every other case. *)
Theorem X23_queries_never_raise (get : result response) :
  check_health get
  = Ok (match get with
        | Ok response => (status_code response =? 200)%Z
        | Raise _ => false
        end)
  /\ get_simulation_results get
     = Ok (match get with
           | Ok response =>
               if (status_code response =? 200)%Z
               then match json response with Ok v => v | Raise _ => PyNone end
               else PyNone
           | Raise _ => PyNone
           end)
  /\ get_all_results get
     = Ok (match get with
           | Ok response =>
               if (status_code response =? 200)%Z
               then match json response with Ok v => Body v | Raise _ => EmptyList end
               else EmptyList
           | Raise _ => EmptyList
           end).
Proof.
  split; [apply check_health_healthy|].
  unfold get_simulation_results, get_all_results, try_except.
  destruct get as [response|e]; simpl; [|split; reflexivity].
  destruct (status_code response =? 200)%Z; [|split; reflexivity].
  destruct (json response); split; reflexivity.
Qed.

(** The waiting loop answers [True] exactly when one of the attempts it
    is allowed finds the application healthy. *)
Lemma await_health_spec (health : nat -> result response) (remaining : nat) :
  forall attempt,
    exists b, await_health health attempt remaining = Ok b
      /\ (b = true <->
          exists k, (attempt <= k < attempt + remaining)%nat /\ healthy (health k) = true).
Proof.
  induction remaining as [|remaining IH]; intros attempt.
  - exists false. split; [reflexivity|]. split; [discriminate|].
    intros (k & Hk & _). lia.
  - cbn [await_health]. rewrite check_health_healthy. cbn [mbind result_bind].
    destruct (healthy (health attempt)) eqn:Hh.
    + exists true. split; [reflexivity|]. split; [|reflexivity].
      intros _. exists attempt. split; [lia|exact Hh].
    + destruct (IH (S attempt)) as (b & Hb & Hiff). exists b. split; [exact Hb|].
      rewrite Hiff. split.
      * intros (k & Hk & Hk'). exists k. split; [lia|exact Hk'].
      * intros (k & Hk & Hk'). exists k. split; [|exact Hk'].
        destruct (decide (k = attempt)) as [->|Hne]; [congruence|lia].
Qed.

(** X24.  Starting the application.  Without an application path nothing is
    started and the answer is [True].  With a path, the answer is [True]
    exactly when probing found a Maven command, spawning it returned a
    process, and one of at most ten health requests came back with status
    200; a process is recorded exactly when one was spawned, also when the
    answer is [False]. *)
Theorem X24_start_java_application_spec (env : machine) (self : interface)
        (path : string) :
  (java_app_path self = None \/ java_app_path self = Some "" ->
   start_java_application env self = (self, true))
  /\ (java_app_path self = Some path -> path <> "" ->
      let r := start_java_application env self in
      (r.2 = true <->
       exists mvn process k,
         find_mvn (version env) ["mvn"; "mvn.cmd"; "mvn.bat"] = Ok (Some mvn)
         /\ popen env mvn path = Ok process
         /\ (k < 10)%nat /\ healthy (health env k) = true)
      /\ (forall mvn process,
            find_mvn (version env) ["mvn"; "mvn.cmd"; "mvn.bat"] = Ok (Some mvn) ->
            popen env mvn path = Ok process ->
            java_process r.1 = Some process)
      /\ ((forall mvn process,
             find_mvn (version env) ["mvn"; "mvn.cmd"; "mvn.bat"] = Ok (Some mvn) ->
             popen env mvn path <> Ok process) ->
          r = (self, false))).
Proof.
  split.
  - unfold start_java_application. intros [-> | ->]; reflexivity.
  - intros Hpath Hne. cbv zeta. unfold start_java_application. rewrite Hpath.
    destruct path as [|c path]; [contradiction|].
    unfold start_body.
    destruct (find_mvn (version env) ["mvn"; "mvn.cmd"; "mvn.bat"])
      as [[mvn|]|e] eqn:Hmvn.
    + destruct (popen env mvn (String c path)) as [process|e] eqn:Hpopen.
      * destruct (await_health_spec (health env) 10 0) as (b & Hb & Hiff).
        rewrite Hb. cbn [fst snd]. split; [|split].
        -- rewrite Hiff. split.
           ++ intros (k & Hk & Hh). exists mvn, process, k.
              repeat split; [exact Hpopen|lia|exact Hh].
           ++ intros (mvn' & process' & k & _ & _ & Hk & Hh). exists k.
              split; [lia|exact Hh].
        -- intros mvn' process' [= <-] Hp. rewrite Hpopen in Hp.
           injection Hp as <-. reflexivity.
        -- intros Hno. exfalso. exact (Hno mvn process eq_refl Hpopen).
      * cbn [fst snd]. split; [|split].
        -- split; [discriminate|].
           intros (mvn' & process' & k & [= <-] & Hp & _). congruence.
        -- intros mvn' process' [= <-] Hp. congruence.
        -- reflexivity.
    + cbn [fst snd]. split; [|split].
      * split; [discriminate|]. intros (mvn' & process' & k & Hm & _). discriminate.
      * intros mvn' process' Hm. discriminate.
      * reflexivity.
    + cbn [fst snd]. split; [|split].
      * split; [discriminate|]. intros (mvn' & process' & k & Hm & _). discriminate.
      * intros mvn' process' Hm. discriminate.
      * reflexivity.
Qed.

(** X24, an instance: Maven found as [mvn.cmd], the third health request
    succeeds. *)
Lemma X24_start_java_application_spec_witness :
  (start_java_application slow_start
     {| java_app_path := Some "app"; java_process := None |}).2 = true.
Proof.
  destruct (X24_start_java_application_spec slow_start
              {| java_app_path := Some "app"; java_process := None |} "app")
    as [_ Hstart].
  destruct (Hstart eq_refl ltac:(discriminate)) as (Hiff & _).
  apply Hiff. exists "mvn.cmd", 4242%Z, 2%nat.
  split; [reflexivity|]. split; [reflexivity|]. split; [lia|reflexivity].
Defined.

End LifecycleFacts.

(** ** From saved results to the frame *)

Section FrameFacts.
Import Pareto ParetoOrder GeneticOptimizer Engine Persist Frames.
Context `{PyRuntime}.

(** The row read back from a written entry. *)
Lemma pareto_row_entry (self : optimizer) (ind : individual) (e : pyval) :
  saveable ind -> entry self ind = Ok e ->
  pareto_row (load (dump e)) = Ok (row_of ind).
Proof.
  intros [Hgenes Hfit] He. unfold entry in He. unfold row_of.
  destruct ind as [g f]. cbn [genes fitness] in *.
  do 8 (destruct g as [|? g]; [simpl in Hgenes; lia|]).
  cbn in He. injection He as <-.
  destruct f as [vs|]; [|reflexivity].
  do 5 (destruct vs as [|? vs]; [discriminate Hfit|]).
  destruct vs; [|discriminate Hfit].
  vm_compute. reflexivity.
Qed.

Lemma mapM_pareto_row (self : optimizer) (inds : list individual) (es : list pyval) :
  Forall saveable inds ->
  Forall2 (fun ind e => entry self ind = Ok e) inds es ->
  mapM pareto_row (List.map load (List.map dump es)) = Ok (row_of <$> inds).
Proof.
  intros Hsave Hall. induction Hall as [|ind e inds es He _ IH]; [reflexivity|].
  apply Forall_cons in Hsave as [Hind Hsave].
  cbn [List.map mapM]. rewrite (pareto_row_entry self ind e Hind He).
  cbn [mbind result_bind]. rewrite (IH Hsave). reflexivity.
Qed.

Lemma omap_id_fmap {A B} (f : A -> option B) (l : list A) :
  omap id (f <$> l) = omap f l.
Proof.
  induction l as [|x l IH]; [reflexivity|].
  cbn [fmap list_fmap omap list_omap]. simpl. rewrite IH. reflexivity.
Qed.

Section SavedFront.
Variables (pop front history : list pyval) (bounds objectives metadata : pyval).

Lemma reloaded_front_item :
  getitem
    (load (dump (VDict [ ("population", VList pop); ("pareto_front", VList front);
                         ("solution_history", VList history);
                         ("parameter_bounds", bounds); ("objectives", objectives);
                         ("optimization_metadata", metadata) ])))
    "pareto_front"
  = Ok (VList (List.map load (List.map dump front))).
Proof. reflexivity. Qed.

End SavedFront.

Lemma saveable_genes (inds : list individual) :
  Forall saveable inds -> Forall (fun ind => (8 <= length (genes ind))%nat) inds.
Proof.
  intros Hall. eapply Forall_impl; [exact Hall|]. intros ind [Hg _]. exact Hg.
Qed.

(** What [save_results] and [extract_pareto_data] do together. *)
Lemma extract_saved (self : optimizer) (population pareto_front : list individual) :
  Forall (fun ind => (8 <= length (genes ind))%nat) population ->
  Forall saveable pareto_front ->
  exists results,
    save_results self population pareto_front = Ok results
    /\ extract_pareto_data (_load_results (Some (dump results)))
       = Ok (omap row_of pareto_front).
Proof.
  intros Hpop Hfront.
  destruct (mapM_entry self population Hpop) as (pop & Hpop_eq & Hpop_all).
  destruct (mapM_entry self pareto_front (saveable_genes _ Hfront))
    as (front & Hfront_eq & Hfront_all).
  eexists. split.
  { unfold save_results. rewrite Hpop_eq. simpl. rewrite Hfront_eq. reflexivity. }
  cbn [_load_results]. unfold extract_pareto_data.
  rewrite reloaded_front_item. cbn [mbind result_bind].
  rewrite (mapM_pareto_row self pareto_front front Hfront Hfront_all).
  cbn [mbind result_bind]. rewrite omap_id_fmap. reflexivity.
Qed.

Lemma row_of_complete (ind : individual) (r : row) :
  saveable ind -> row_of ind = Some r -> complete kpi_names r = true.
Proof.
  intros [_ Hfit]. unfold row_of.
  destruct (fitness ind) as [vs|]; [|discriminate].
  do 5 (destruct vs as [|? vs]; [discriminate|]). destruct vs; [|discriminate Hfit].
  destruct (_individual_to_parameters (genes ind)) as [p|e]; [|discriminate].
  intros [= <-]. unfold complete, frame_row. apply forallb_forall.
  intros obj Hobj. apply bool_decide_eq_true.
  apply list_elem_of_In in Hobj.
  repeat (apply elem_of_cons in Hobj as [->|Hobj];
          [eexists; apply lookup_union_Some_l; reflexivity|]).
  inversion Hobj.
Qed.

(** X25.  The frame of a saved front.  For a front of individuals with eight
    genes whose fitness is not valid or holds five values, saved and read
    back, [extract_pareto_data] gives one row per individual with fitness
    values, in the order of the front; the row holds the five KPI values
    under the KPI names and the eight parameters under theirs. *)
Theorem X25_frame_of_saved_front (self : optimizer)
        (population pareto_front : list individual)
        (Hpop : Forall (fun ind => (8 <= length (genes ind))%nat) population)
        (Hfront : Forall saveable pareto_front) :
  exists results,
    save_results self population pareto_front = Ok results
    /\ extract_pareto_data (_load_results (Some (dump results)))
       = Ok (omap row_of pareto_front)
    /\ forall ind p vs,
         ind ∈ pareto_front -> fitness ind = Some vs ->
         _individual_to_parameters (genes ind) = Ok p ->
         exists r, row_of ind = Some r
           /\ (forall i name, kpi_names !! i = Some name -> r !! name = vs !! i)
           /\ (forall name, name ∈ Tracking.parameter_names ->
                            r !! name = int <$> p !! name).
Proof.
  destruct (extract_saved self population pareto_front Hpop Hfront)
    as (results & Hsave & Hextract).
  exists results. split; [exact Hsave|]. split; [exact Hextract|].
  intros ind p vs Hin Hvs Hp.
  rewrite Forall_forall in Hfront. destruct (Hfront ind Hin) as [_ Hfit].
  rewrite Hvs in Hfit. unfold row_of. rewrite Hvs, Hp.
  do 5 (destruct vs as [|? vs]; [discriminate Hfit|]). destruct vs; [|discriminate Hfit].
  eexists. split; [reflexivity|]. unfold frame_row. split.
  - intros i name Hname.
    do 5 (destruct i as [|i];
          [injection Hname as <-; apply lookup_union_Some_l; reflexivity|]).
    discriminate Hname.
  - intros name Hname. rewrite lookup_union_r; [apply lookup_fmap|].
    repeat (apply elem_of_cons in Hname as [->|Hname]; [reflexivity|]).
    inversion Hname.
Qed.

(** X26.  The analysis of a saved front returns.  For a front of
    individuals with eight genes whose fitness is not valid or holds five
    values, saved and read back, the frame has every KPI column in every
    row, so [identify_pareto_frontier] returns a front for any objectives
    taken from the KPI names, and for its default objectives: no
    [KeyError] arises between saving and analysing. *)
Theorem X26_analysis_of_saved_front_returns (self : optimizer)
        (population pareto_front : list individual) (objectives : list string)
        (Hpop : Forall (fun ind => (8 <= length (genes ind))%nat) population)
        (Hfront : Forall saveable pareto_front)
        (Hobjectives : objectives ⊆ kpi_names) :
  exists results df front front',
    save_results self population pareto_front = Ok results
    /\ extract_pareto_data (_load_results (Some (dump results))) = Ok df
    /\ identify_pareto_frontier df (Some objectives) = Ok front
    /\ identify_pareto_frontier df None = Ok front'.
Proof.
  destruct (extract_saved self population pareto_front Hpop Hfront)
    as (results & Hsave & Hextract).
  assert (Hcomplete : forall objs, objs ⊆ kpi_names ->
            complete_frame objs (omap row_of pareto_front) = true).
  { intros objs Hobjs. unfold complete_frame. apply forallb_forall. intros r Hr.
    apply list_elem_of_In, list_elem_of_omap in Hr as (ind & Hind & Hrow).
    rewrite Forall_forall in Hfront.
    pose proof (row_of_complete ind r (Hfront ind Hind) Hrow) as Hc.
    unfold complete. apply forallb_forall. intros obj Hobj.
    apply bool_decide_eq_true. apply (complete_lookup kpi_names r obj Hc).
    apply Hobjs, list_elem_of_In, Hobj. }
  destruct (kept_rows objectives _ (Hcomplete objectives Hobjectives))
    as (mask & Hmask & _).
  destruct (kept_rows Pareto.default_objectives (omap row_of pareto_front))
    as (mask' & Hmask' & _).
  { apply Hcomplete. intros obj Hobj.
    repeat (apply elem_of_cons in Hobj as [->|Hobj];
            [apply list_elem_of_In; simpl; tauto|]).
    inversion Hobj. }
  exists results, (omap row_of pareto_front), (select mask (omap row_of pareto_front)),
    (select mask' (omap row_of pareto_front)).
  split; [exact Hsave|]. split; [exact Hextract|].
  unfold identify_pareto_frontier. simpl default. rewrite Hmask, Hmask'.
  split; reflexivity.
Qed.

End FrameFacts.

Section FrameExamples.
Import Pareto GeneticOptimizer Engine Persist Frames Scenarios.

(** X25, an instance: two scored individuals saved as front. *)
Lemma X25_frame_of_saved_front_witness :
  exists results,
    @save_results CPython.runtime fresh [scored_a; scored_b] [scored_a; scored_b]
    = Ok results
    /\ extract_pareto_data (_load_results (Some (dump results)))
       = Ok (omap row_of [scored_a; scored_b]).
Proof.
  assert (Hpop : Forall (fun ind => (8 <= length (genes ind))%nat) [scored_a; scored_b]).
  { repeat constructor. }
  assert (Hfront : Forall saveable [scored_a; scored_b]).
  { repeat constructor. }
  destruct (@X25_frame_of_saved_front CPython.runtime fresh _ _ Hpop Hfront)
    as (results & Hsave & Hextract & _).
  exists results. split; [exact Hsave|exact Hextract].
Defined.

(** X26, an instance: two scored individuals, profit against prime cost. *)
Lemma X26_analysis_of_saved_front_returns_witness :
  exists results df front,
    @save_results CPython.runtime fresh [scored_a; scored_b] [scored_a; scored_b]
    = Ok results
    /\ extract_pareto_data (_load_results (Some (dump results))) = Ok df
    /\ identify_pareto_frontier df (Some ["profit"; "primeCost"]) = Ok front.
Proof.
  assert (Hpop : Forall (fun ind => (8 <= length (genes ind))%nat) [scored_a; scored_b]).
  { repeat constructor. }
  assert (Hfront : Forall saveable [scored_a; scored_b]).
  { repeat constructor. }
  assert (Hobjs : ["profit"; "primeCost"] ⊆ kpi_names).
  { intros obj Hobj.
    repeat (apply elem_of_cons in Hobj as [->|Hobj];
            [apply list_elem_of_In; simpl; tauto|]).
    inversion Hobj. }
  destruct (@X26_analysis_of_saved_front_returns CPython.runtime fresh _ _ _
              Hpop Hfront Hobjs)
    as (results & df & front & _ & Hsave & Hextract & Hfront' & _).
  exists results, df, front. repeat split; assumption.
Defined.

End FrameExamples.
